(** * Community Resources Finder: sanitizer, validator, projection,
      QR generator and cache manager

    A shallow embedding of the page script, of the [SecurityManager]
    sanitizer and of the service worker, and the properties of the
    specification proved about them. *)

From Stdlib Require Import String Ascii NArith ZArith List Bool Lia.
From Stdlib Require Import Numbers.DecimalString.
From stdpp Require Import base option list gmap.

Local Open Scope N_scope.

(** ** JavaScript strings

    A JavaScript string is a sequence of UTF-16 code units.  Literals
    are written as Rocq strings (the bytes of their UTF-8 encoding) and
    decoded by [js]. *)

Abbreviation jsstring := (list N).

Fixpoint utf8_points (bs : list N) : list N :=
  match bs with
  | [] => []
  | b0 :: r0 =>
      if b0 <? 128 then b0 :: utf8_points r0
      else if b0 <? 224 then
        match r0 with
        | b1 :: r1 => ((b0 - 192) * 64 + (b1 - 128)) :: utf8_points r1
        | _ => [65533]
        end
      else if b0 <? 240 then
        match r0 with
        | b1 :: b2 :: r2 =>
            ((b0 - 224) * 4096 + (b1 - 128) * 64 + (b2 - 128)) :: utf8_points r2
        | _ => [65533]
        end
      else
        match r0 with
        | b1 :: b2 :: b3 :: r3 =>
            ((b0 - 240) * 262144 + (b1 - 128) * 4096 + (b2 - 128) * 64 + (b3 - 128))
              :: utf8_points r3
        | _ => [65533]
        end
  end.

Definition utf16_units (cp : N) : list N :=
  if cp <? 65536 then [cp]
  else [55296 + (cp - 65536) / 1024; 56320 + (cp - 65536) mod 1024].

Definition js (s : string) : jsstring :=
  flat_map utf16_units (utf8_points (map N_of_ascii (list_ascii_of_string s))).

Definition streq (s t : jsstring) : bool := bool_decide (s = t).

(** [s.startsWith(p)] and [s.includes(p)] on strings. *)
Fixpoint starts_with (p s : jsstring) : bool :=
  match p, s with
  | [], _ => true
  | a :: p', b :: s' => (a =? b) && starts_with p' s'
  | _ :: _, [] => false
  end.

Fixpoint str_includes (s p : jsstring) : bool :=
  starts_with p s || match s with [] => false | _ :: s' => str_includes s' p end.

(** [array.includes(x)] *)
Definition includes (l : list jsstring) (x : jsstring) : bool := bool_decide (x ∈ l).

(** Decimal rendering of an array index, as a template literal does. *)
Definition index_to_string (i : nat) : jsstring :=
  js (NilEmpty.string_of_uint (Nat.to_uint i)).

(** ** Character classes of the regular expressions in the source *)

Definition chr (s : string) : N :=
  match js s with c :: _ => c | [] => 0 end.

Definition in_range (lo hi c : N) : bool := (lo <=? c) && (c <=? hi).

(** [\d] *)
Definition is_digit (c : N) : bool := in_range 48 57 c.

(** [\w], also under the [i] flag when the [u] flag is absent *)
Definition is_word (c : N) : bool :=
  in_range 65 90 c || in_range 97 122 c || is_digit c || (c =? 95).

(** [\s], which is also the set removed by [String.prototype.trim]:
    WhiteSpace and LineTerminator code points. *)
Definition is_space (c : N) : bool :=
  in_range 9 13 c || (c =? 32) || (c =? 160) || (c =? 5760)
  || in_range 8192 8202 c || (c =? 8232) || (c =? 8233) || (c =? 8239)
  || (c =? 8287) || (c =? 12288) || (c =? 65279).

(** Canonicalisation of a code unit under the [i] flag without [u]:
    only ASCII letters are identified with one another by the patterns
    of the source, whose literal characters are all ASCII. *)
Definition upper (c : N) : N := if in_range 97 122 c then c - 32 else c.

Definition ci (p : N) : N -> bool := fun c => upper c =? upper p.

Definition lit (p : N) : N -> bool := fun c => c =? p.

(** ** A backtracking matcher for the patterns of the source

    Every pattern of the source is a sequence of atoms, each a character
    class, a character class under [+], or the end anchor. *)

Inductive atom :=
| One (c : N -> bool)
| Plus (c : N -> bool)
| AtEnd.

Definition regex := list atom.

(** [rmatch r s] matches [r] at the start of [s] and returns the rest of
    the input after the match.  [Plus] is greedy: it first tries to take
    one more character and gives characters back one at a time. *)
Fixpoint rmatch (r : regex) (s : jsstring) {struct r} : option jsstring :=
  match r with
  | [] => Some s
  | One c :: r' =>
      match s with
      | x :: s' => if c x then rmatch r' s' else None
      | [] => None
      end
  | Plus c :: r' =>
      (fix plus (s : jsstring) : option jsstring :=
         match s with
         | x :: s' =>
             if c x then
               match plus s' with
               | Some rest => Some rest
               | None => rmatch r' s'
               end
             else None
         | [] => None
         end) s
  | AtEnd :: r' =>
      match s with
      | [] => rmatch r' s
      | _ :: _ => None
      end
  end.

(** [re.test(s)] for a pattern that starts with [^]. *)
Definition test_anchored (r : regex) (s : jsstring) : bool :=
  match rmatch r s with Some _ => true | None => false end.

(** [s.replace(re, '')] for a pattern with the [g] flag: scanning from
    the left, every match is dropped and the scan resumes after it; an
    empty match keeps the current character. [skip] counts the
    characters of the current match still to drop. *)
Fixpoint replace_go (r : regex) (skip : nat) (s : jsstring) : jsstring :=
  match s with
  | [] => []
  | x :: s' =>
      match skip with
      | S k => replace_go r k s'
      | O =>
          match rmatch r s with
          | Some rest =>
              match (length s - length rest)%nat with
              | O => x :: replace_go r 0 s'
              | S k => replace_go r k s'
              end
          | None => x :: replace_go r 0 s'
          end
      end
  end.

Definition replace_all (r : regex) (s : jsstring) : jsstring := replace_go r 0 s.

Fixpoint trimStart (s : jsstring) : jsstring :=
  match s with
  | x :: s' => if is_space x then trimStart s' else s
  | [] => []
  end.

Definition trimEnd (s : jsstring) : jsstring := reverse (trimStart (reverse s)).

Definition trim (s : jsstring) : jsstring := trimEnd (trimStart s).

(** ** Values read from an entry *)

(** Numbers occur only as coordinates, written as decimal literals;
    they are tested for their type and truthiness, never computed with. *)
Inductive number :=
| NaN
| Infinity (negative : bool)
| Decimal (mantissa exponent : Z).

Inductive value :=
| VUndefined
| VNull
| VBool (b : bool)
| VNum (n : number)
| VStr (s : jsstring)
| VArr (l : list jsstring)
| VObj (o : gmap jsstring jsstring).

Definition number_truthy (n : number) : bool :=
  match n with
  | NaN => false
  | Infinity _ => true
  | Decimal m _ => negb (m =? 0)%Z
  end.

Definition truthy (v : value) : bool :=
  match v with
  | VUndefined | VNull => false
  | VBool b => b
  | VNum n => number_truthy n
  | VStr s => match s with [] => false | _ => true end
  | VArr _ | VObj _ => true
  end.

(** ** Sanitizer ([setupInputSanitization]) *)

Definition LESS_THAN : N := chr "<".
Definition GREATER_THAN : N := chr ">".

Definition re_angle : regex := [One (fun c => (c =? LESS_THAN) || (c =? GREATER_THAN))].

Definition re_javascript : regex := map (fun c => One (ci c)) (js "javascript:").

Definition re_handler : regex :=
  [One (ci (chr "o")); One (ci (chr "n")); Plus is_word; One (lit (chr "="))].

Definition sanitizeText (text : value) : jsstring :=
  match text with
  | VStr text =>
      trim (replace_all re_handler
              (replace_all re_javascript
                 (replace_all re_angle text)))
  | _ => []
  end.


(** The built-in [URL] parser is part of the browser, not of the
    repository.  A parsed URL is seen through the two members the source
    reads: [protocol] and the serialisation [toString()]. *)
Record URL := { protocol : jsstring; href : jsstring }.

Definition re_email : regex :=
  let part := Plus (fun c => negb (is_space c || (c =? chr "@"))) in
  [part; One (lit (chr "@")); part; One (lit (chr ".")); part; AtEnd].

Definition re_not_phone : regex :=
  [One (fun c => negb (is_digit c || (c =? chr "+") || (c =? chr "(")
                       || (c =? chr ")") || (c =? chr "-") || is_space c))].

Section Sanitizer.

(** [new URL(s)]: [None] when the constructor throws. *)
Variable parseURL : jsstring -> option URL.

Definition sanitizeURL (url : value) : jsstring :=
  match url with
  | VStr url =>
      match parseURL url with
      | Some parsed =>
          if negb (includes [js "http:"; js "https:"] (protocol parsed))
          then []
          else href parsed
      | None => []
      end
  | _ => []
  end.

Definition sanitizeEmail (email : value) : jsstring :=
  match email with
  | VStr email => if test_anchored re_email email then email else []
  | _ => []
  end.

Definition sanitizePhone (phone : value) : jsstring :=
  match phone with
  | VStr phone => replace_all re_not_phone phone
  | _ => []
  end.

End Sanitizer.

(** ** The dataset

    An entry has the fields and types its JSDoc declares; every field
    may be absent ([None] reads as [undefined]). *)

Record partner := Partner {
  name : option jsstring;
  lat : option number;
  lng : option number;
  community : option jsstring;
  languages : option (list jsstring);
  description : option (gmap jsstring jsstring);
  address : option jsstring;
  phone : option jsstring;
  email : option jsstring;
  website : option jsstring
}.

Definition str_value (o : option jsstring) : value :=
  match o with Some s => VStr s | None => VUndefined end.

Definition num_value (o : option number) : value :=
  match o with Some n => VNum n | None => VUndefined end.

(** [partner[field]] *)
Definition get (p : partner) (field : jsstring) : value :=
  if streq field (js "name") then str_value (name p)
  else if streq field (js "lat") then num_value (lat p)
  else if streq field (js "lng") then num_value (lng p)
  else if streq field (js "community") then str_value (community p)
  else if streq field (js "languages") then
    match languages p with Some l => VArr l | None => VUndefined end
  else if streq field (js "description") then
    match description p with Some d => VObj d | None => VUndefined end
  else if streq field (js "address") then str_value (address p)
  else if streq field (js "phone") then str_value (phone p)
  else if streq field (js "email") then str_value (email p)
  else if streq field (js "website") then str_value (website p)
  else VUndefined.

(** A string-or-undefined inside a template literal. *)
Definition show (o : option jsstring) : jsstring :=
  match o with Some s => s | None => js "undefined" end.

(** ** Plain objects used as maps

    [object[key]] on a plain object reads an own property and, when
    the object has none of that name, the member of that name it
    inherits from [Object.prototype].  The members are those of the
    ECMAScript standard with its Annex B; they are functions, but for
    [__proto__], which gives [Object.prototype] itself, so every one is
    truthy. *)
Definition Object_prototype : list jsstring := [
  js "constructor";
  js "__defineGetter__";
  js "__defineSetter__";
  js "hasOwnProperty";
  js "__lookupGetter__";
  js "__lookupSetter__";
  js "isPrototypeOf";
  js "propertyIsEnumerable";
  js "toString";
  js "valueOf";
  js "__proto__";
  js "toLocaleString"
].

(** What [object[key]] gives on a plain object whose own properties are
    strings: the own string, the inherited member of that name, or
    [undefined]. *)
Inductive property :=
| Own (text : jsstring)
| Inherited (name : jsstring)
| Absent.

Definition property_truthy (v : property) : bool :=
  match v with
  | Own text => truthy (VStr text)
  | Inherited _ => true
  | Absent => false
  end.

(** [object[key]] *)
Definition read (object : gmap jsstring jsstring) (key : jsstring) : property :=
  match object !! key with
  | Some text => Own text
  | None => if bool_decide (key ∈ Object_prototype) then Inherited key else Absent
  end.

(** [partner.description[lang]] once [partner.description] is an
    object: its own properties are the texts by language tag. *)
Definition describe (d : gmap jsstring jsstring) (lang : jsstring) : property :=
  read d lang.

Definition str_truthy (o : option jsstring) : bool := truthy (str_value o).

(** ** Data validator ([validatePartnerData]) *)

Record validation := Validation {
  errors : list jsstring;
  warnings : list jsstring;
  isValid : bool
}.

(** The two arrays the validator pushes onto. *)
Record log := Log { log_errors : list jsstring; log_warnings : list jsstring }.

Definition push_error (msg : jsstring) (l : log) : log :=
  Log (log_errors l ++ [msg]) (log_warnings l).

Definition push_warning (msg : jsstring) (l : log) : log :=
  Log (log_errors l) (log_warnings l ++ [msg]).

Definition when (b : bool) (f : log -> log) (l : log) : log := if b then f l else l.

Definition validCommunities : list jsstring :=
  [js "First Nations"; js "Arts"; js "Youth"; js "Health & Wellbeing";
   js "Carers Support Services"; js "Children & Families"; js "Community Support";
   js "Disability Services"; js "Domestic Violence"; js "Food & Emergency Support";
   js "Government Departments"; js "LGBTQIA+"; js "Multicultural"].

Definition requiredFields : list jsstring :=
  [js "name"; js "lat"; js "lng"; js "community"; js "languages";
   js "description"; js "address"; js "phone"; js "email"; js "website"].

(** [array.forEach((x, index) => ...)] threading the state the callback
    mutates. *)
Fixpoint forEach_from {A St : Type} (f : A -> nat -> St -> St) (index : nat)
    (l : list A) (s : St) : St :=
  match l with
  | [] => s
  | x :: l' => forEach_from f (S index) l' (f x index s)
  end.

Definition forEach {A St : Type} (f : A -> nat -> St -> St) (l : list A) (s : St) : St :=
  forEach_from f 0 l s.

(** [array.filter((x, index) => ...)] *)
Fixpoint filter_from {A : Type} (f : A -> nat -> bool) (index : nat) (l : list A) : list A :=
  match l with
  | [] => []
  | x :: l' => if f x index then x :: filter_from f (S index) l' else filter_from f (S index) l'
  end.

(** [array.indexOf(x)]: strict equality, [-1] when absent. *)
Fixpoint indexOf (l : list (option jsstring)) (x : option jsstring) : Z :=
  match l with
  | [] => -1
  | y :: l' =>
      if bool_decide (y = x) then 0%Z
      else let i := indexOf l' x in if (i <? 0)%Z then (-1)%Z else (i + 1)%Z
  end.

(** [[...new Set(l)]]: first occurrences, in insertion order. *)
Fixpoint set_from (seen l : list (option jsstring)) : list (option jsstring) :=
  match l with
  | [] => []
  | x :: l' =>
      if bool_decide (x ∈ seen) then set_from seen l' else x :: set_from (x :: seen) l'
  end.

(** [array.join(sep)]: [undefined] elements are rendered empty. *)
Fixpoint join (sep : jsstring) (l : list (option jsstring)) : jsstring :=
  match l with
  | [] => []
  | [x] => default [] x
  | x :: l' => default [] x ++ sep ++ join sep l'
  end.

Definition Partner_prefix (index : nat) (shown_name : jsstring) : jsstring :=
  js "Partner " ++ index_to_string index ++ js " (" ++ shown_name ++ js "): ".

Section Validator.

Variable parseURL : jsstring -> option URL.

Definition check_required (partner : partner) (index : nat) (l : log) : log :=
  forEach
    (fun field _ =>
       when (negb (truthy (get partner field)))
         (push_error
            (Partner_prefix index
               (if str_truthy (name partner) then show (name partner) else js "Unknown")
             ++ js "Missing " ++ field)))
    requiredFields l.

Definition check_partner (partner : partner) (index : nat) (l : log) : log :=
  let here := Partner_prefix index (show (name partner)) in
  (* Check required fields *)
  let l := check_required partner index l in
  (* Validate coordinates *)
  let l := when (negb (bool_decide (is_Some (lat partner)))
                 || negb (bool_decide (is_Some (lng partner))))
             (push_error (here ++ js "Invalid coordinates")) l in
  (* Validate community *)
  let l := when (negb (bool_decide (community partner ∈ Some <$> validCommunities)))
             (push_error (here ++ js "Invalid community '"
                          ++ show (community partner) ++ js "'")) l in
  (* Validate email format *)
  let l := when (str_truthy (email partner)
                 && negb (test_anchored re_email (default [] (email partner))))
             (push_error (here ++ js "Invalid email format")) l in
  (* Validate website URL *)
  let l := when (str_truthy (website partner)
                 && negb (bool_decide (is_Some (parseURL (default [] (website partner))))))
             (push_error (here ++ js "Invalid website URL")) l in
  (* Check for English description *)
  let l := when (match description partner with
                 | Some d => negb (property_truthy (describe d (js "English")))
                 | None => true
                 end)
             (push_error (here ++ js "Missing English description")) l in
  (* Validate languages array *)
  let l := when (match languages partner with
                 | Some langs => bool_decide (length langs = 0%nat)
                 | None => true
                 end)
             (push_warning (here ++ js "No languages specified")) l in
  l.

Definition duplicates_of (names : list (option jsstring)) : list (option jsstring) :=
  filter_from (fun name index => negb (indexOf names name =? Z.of_nat index)%Z) 0 names.

Definition validatePartnerData (partners : list partner) : validation :=
  let l := forEach check_partner partners (Log [] []) in
  (* Check for duplicates *)
  let names := name <$> partners in
  let duplicates := duplicates_of names in
  let l := when (0 <? length duplicates)%nat
             (push_warning (js "Duplicate names found: "
                            ++ join (js ", ") (set_from [] duplicates))) l in
  Validation (log_errors l) (log_warnings l)
    (bool_decide (length (log_errors l) = 0%nat)).

End Validator.
(** The hardcoded [partners] array of the page script. *)
Definition partners : list partner := [
  {| name := Some (js "Kurranulla Aboriginal Corporation");
     lat := Some (Decimal (-34053) (-3));
     lng := Some (Decimal 15106 (-2));
     community := Some (js "First Nations");
     languages := Some [js "English"];
     description := Some (list_to_map [
          (js "English", js "Provides services and programs for the local Aboriginal community.");
          (js "Mandarin", js "为当地原住民社区提供服务和项目。");
          (js "Cantonese", js "為當地原住民社區提供服務和計劃。");
          (js "Nepali", js "स्थानीय आदिवासी समुदायका लागि सेवा र कार्यक्रमहरू प्रदान गर्दछ।");
          (js "Italian", js "Fornisce servizi e programmi per la comunità aborigena locale.");
          (js "Greek", js "Παρέχει υπηρεσίες και προγράμματα για την τοπική κοινότητα των Αβοριγίνων.")]);
     address := Some (js "15 Jannali Avenue, Jannali");
     phone := Some (js "(02) 9528 0287");
     email := Some (js "contact@kurranulla.org.au");
     website := Some (js "https://www.kurranulla.org.au/") |};
  {| name := Some (js "Metropolitan Local Aboriginal Land Council");
     lat := Some (Decimal (-33874) (-3));
     lng := Some (Decimal 15121 (-2));
     community := Some (js "First Nations");
     languages := Some [js "English"];
     description := Some (list_to_map [
          (js "English", js "Advocates for Aboriginal people in the Sydney metropolitan area.");
          (js "Mandarin", js "为悉尼大都会区的原住民提供支持。")]);
     address := Some (js "Level 2, 150 Elizabeth St Sydney");
     phone := Some (js "(02) 8394 9666");
     email := Some (js "metrolalc@metrolalc.org.au");
     website := Some (js "https://metrolalc.org.au/") |};
  {| name := Some (js "3Bridges Burrbangana Program");
     lat := Some (Decimal (-33973) (-3));
     lng := Some (Decimal 15109 (-2));
     community := Some (js "First Nations");
     languages := Some [js "English"];
     description := Some (list_to_map [
          (js "English", js "Youth mentoring and indigenous learning programs.");
          (js "Mandarin", js "青年辅导和土著学习项目。")]);
     address := Some (js "643A King Georges Road, Penshurst");
     phone := Some (js "1300 327 434");
     email := Some (js "admin@3bridges.org.au");
     website := Some (js "https://3bridges.org.au/") |};
  {| name := Some (js "Shopfront Arts Co-op");
     lat := Some (Decimal (-339545) (-4));
     lng := Some (Decimal 1511215 (-4));
     community := Some (js "Arts");
     languages := Some [js "English"];
     description := Some (list_to_map [
          (js "English", js "A space for young people to create and experience art.");
          (js "Mandarin", js "一个让年轻人创作和体验艺术的空间。");
          (js "Cantonese", js "一個俾年輕人創作同體驗藝術嘅空間。");
          (js "Nepali", js "युवाहरूलाई कला सिर्जना गर्न र अनुभव गर्नका लागि एउटा ठाउँ।");
          (js "Italian", js "Uno spazio per i giovani per creare e sperimentare l'arte.");
          (js "Greek", js "Ένας χώρος για νέους να δημιουργήσουν και να βιώσουν την τέχνη.")]);
     address := Some (js "88 Carlton Parade, Carlton");
     phone := Some (js "(02) 9588 3948");
     email := Some (js "hello@shopfront.org.au");
     website := Some (js "https://shopfront.org.au/") |};
  {| name := Some (js "Bus Stop Films");
     lat := Some (Decimal (-339545) (-4));
     lng := Some (Decimal 1511215 (-4));
     community := Some (js "Arts");
     languages := Some [js "English"];
     description := Some (list_to_map [
          (js "English", js "An accessible film studies program for people with disabilities.");
          (js "Mandarin", js "为残疾人士提供的无障碍电影研究项目。")]);
     address := Some (js "86-88 Carlton Parade, Carlton");
     phone := Some (js "(02) 7204 5010");
     email := Some (js "hello@busstopfilms.com.au");
     website := Some (js "https://www.busstopfilms.com.au/") |};
  {| name := Some (js "PCYC St George");
     lat := Some (Decimal (-3395) (-2));
     lng := Some (Decimal 15115 (-2));
     community := Some (js "Youth");
     languages := Some [js "English"];
     description := Some (list_to_map [
          (js "English", js "Youth and community programs.");
          (js "Mandarin", js "青年和社区项目。");
          (js "Cantonese", js "青年同社區計劃。");
          (js "Nepali", js "युवा र सामुदायिक कार्यक्रमहरू।");
          (js "Italian", js "Programmi per i giovani e la comunità.");
          (js "Greek", js "Προγράμματα για νέους και την κοινότητα.")]);
     address := Some (js "McCarthy Reserve, 9 Ador Avenue, Rockdale");
     phone := Some (js "(02) 9567 0408");
     email := Some (js "stgeorge@pcycnsw.org.au");
     website := Some (js "https://www.pcycnsw.org.au/st-george") |};
  {| name := Some (js "Headspace Hurstville");
     lat := Some (Decimal (-33967) (-3));
     lng := Some (Decimal 151104 (-3));
     community := Some (js "Health & Wellbeing");
     languages := Some [js "English"];
     description := Some (list_to_map [
          (js "English", js "Youth mental health services.");
          (js "Mandarin", js "青年心理健康服务。")]);
     address := Some (js "41 Dora Street, Hurstville");
     phone := Some (js "(02) 8048 3350");
     email := Some (js "headspace.hurstville@stride.com.au");
     website := Some (js "https://headspace.org.au/headspace-centres/hurstville/") |};
  {| name := Some (js "Lifeline");
     lat := Some (Decimal (-338688) (-4));
     lng := Some (Decimal 1512093 (-4));
     community := Some (js "Health & Wellbeing");
     languages := Some [js "English"];
     description := Some (list_to_map [
          (js "English", js "24/7 crisis support and suicide prevention.");
          (js "Mandarin", js "24/7 危机支持和自杀预防。")]);
     address := Some (js "National Service - Multiple Locations");
     phone := Some (js "13 11 14");
     email := Some (js "info@lifeline.org.au");
     website := Some (js "https://www.lifeline.org.au/") |};
  {| name := Some (js "Carers NSW");
     lat := Some (Decimal (-338394) (-4));
     lng := Some (Decimal 1512081 (-4));
     community := Some (js "Carers Support Services");
     languages := Some [js "English"];
     description := Some (list_to_map [
          (js "English", js "The peak non-government organisation for carers in NSW.");
          (js "Mandarin", js "新南威尔士州照顾者的最高非政府组织。")]);
     address := Some (js "Level 10/213 Miller St, North Sydney");
     phone := Some (js "(02) 9280 4744");
     email := Some (js "contact@carersnsw.org.au");
     website := Some (js "https://www.carersnsw.org.au/") |};
  {| name := Some (js "St George Family Support Services");
     lat := Some (Decimal (-33959) (-3));
     lng := Some (Decimal 151129 (-3));
     community := Some (js "Children & Families");
     languages := Some [js "English"];
     description := Some (list_to_map [
          (js "English", js "Provides support to vulnerable children, young people, and families.");
          (js "Mandarin", js "为弱势儿童、青少年和家庭提供支持。")]);
     address := Some (js "42 Jubilee Avenue, Carlton");
     phone := Some (js "(02) 9553 9100");
     email := Some (js "information@sgfss.org.au");
     website := Some (js "https://www.sgfss.org.au/") |};
  {| name := Some (js "Tresillian");
     lat := Some (Decimal (-338688) (-4));
     lng := Some (Decimal 1512093 (-4));
     community := Some (js "Children & Families");
     languages := Some [js "English"];
     description := Some (list_to_map [
          (js "English", js "Early parenting support for families with young children.");
          (js "Mandarin", js "为有幼儿的家庭提供早期育儿支持。")]);
     address := Some (js "Multiple Locations - Sydney Metro");
     phone := Some (js "1300 272 736");
     email := Some (js "enquiries@tresillian.org.au");
     website := Some (js "https://www.tresillian.org.au/") |};
  {| name := Some (js "3Bridges Community");
     lat := Some (Decimal (-33973) (-3));
     lng := Some (Decimal 15109 (-2));
     community := Some (js "Community Support");
     languages := Some [js "English"];
     description := Some (list_to_map [
          (js "English", js "Offers a wide range of services for all ages and cultures.");
          (js "Mandarin", js "为所有年龄和文化的人提供广泛的服务。")]);
     address := Some (js "643/643A King Georges Road, Penshurst");
     phone := Some (js "1300 327 434");
     email := Some (js "admin@3bridges.org.au");
     website := Some (js "https://3bridges.org.au/") |};
  {| name := Some (js "Northcott");
     lat := Some (Decimal (-33967) (-3));
     lng := Some (Decimal 151104 (-3));
     community := Some (js "Disability Services");
     languages := Some [js "English"];
     description := Some (list_to_map [
          (js "English", js "Supports people with disability to live the life they choose.");
          (js "Mandarin", js "支持残疾人士过上他们选择的生活。")]);
     address := Some (js "Level 2, Suite 2, 12 Butler Road, Hurstville");
     phone := Some (js "1800 818 286");
     email := Some (js "northcott@northcott.com.au");
     website := Some (js "https://northcott.com.au/") |};
  {| name := Some (js "1800RESPECT");
     lat := Some (Decimal (-338688) (-4));
     lng := Some (Decimal 1512093 (-4));
     community := Some (js "Domestic Violence");
     languages := Some [js "English"];
     description := Some (list_to_map [
          (js "English", js "National sexual assault, domestic family violence counselling service.");
          (js "Mandarin", js "国家性侵犯、家庭暴力咨询服务。")]);
     address := Some (js "National Service - Phone & Online");
     phone := Some (js "1800 737 732");
     email := Some (js "info@1800respect.org.au");
     website := Some (js "https://www.1800respect.org.au/") |};
  {| name := Some (js "Salvation Army Hurstville");
     lat := Some (Decimal (-33967) (-3));
     lng := Some (Decimal 151104 (-3));
     community := Some (js "Food & Emergency Support");
     languages := Some [js "English"];
     description := Some (list_to_map [
          (js "English", js "Emergency relief and community support.");
          (js "Mandarin", js "紧急救援和社区支持。")]);
     address := Some (js "Cnr Bond and Dore Streets, Hurstville");
     phone := Some (js "(02) 9570 2617");
     email := Some (js "hurstvillesalvos@salvationarmy.org.au");
     website := Some (js "https://www.salvationarmy.org.au/hurstville") |};
  {| name := Some (js "Bayside Council");
     lat := Some (Decimal (-3396) (-2));
     lng := Some (Decimal 15115 (-2));
     community := Some (js "Government Departments");
     languages := Some [js "English"];
     description := Some (list_to_map [
          (js "English", js "Local government services.");
          (js "Mandarin", js "地方政府服务。")]);
     address := Some (js "444-446 Princes Highway, Rockdale");
     phone := Some (js "1300 581 299");
     email := Some (js "council@bayside.nsw.gov.au");
     website := Some (js "https://www.bayside.nsw.gov.au/") |};
  {| name := Some (js "ACON");
     lat := Some (Decimal (-3388) (-2));
     lng := Some (Decimal 15121 (-2));
     community := Some (js "LGBTQIA+");
     languages := Some [js "English"];
     description := Some (list_to_map [
          (js "English", js "Health promotion organisation for LGBTQIA+ people.");
          (js "Mandarin", js "为 LGBTQIA+ 人士提供健康促进的组织。")]);
     address := Some (js "414 Elizabeth Street, Surry Hills");
     phone := Some (js "1800 063 060");
     email := Some (js "acon@acon.org.au");
     website := Some (js "https://www.acon.org.au/") |};
  {| name := Some (js "Advance Diversity Services");
     lat := Some (Decimal (-33967) (-3));
     lng := Some (Decimal 151104 (-3));
     community := Some (js "Multicultural");
     languages := Some [js "English"];
     description := Some (list_to_map [
          (js "English", js "Services for culturally and linguistically diverse communities.");
          (js "Mandarin", js "为文化和语言多样化的社区提供服务。")]);
     address := Some (js "Suite 231 & 232 (Building 2/Level 3), 7-11 The Avenue, Hurstville");
     phone := Some (js "(02) 9597 5455");
     email := Some (js "info@advancediversity.org.au");
     website := Some (js "https://www.advancediversity.org.au/") |}
].

(** The [translations] table of the page script. *)
Definition translations : gmap jsstring (gmap jsstring jsstring) :=
  list_to_map [
    (js "English", list_to_map [
        (js "titleFind", js "Find ");
        (js "titleResources", js " resources");
        (js "titleAtTheLibrary", js "at the library");
        (js "headingSelectLanguage", js "Select your language:");
        (js "headingChooseCategory", js "Choose a Category:");
        (js "listHeader", js "Service Directory");
        (js "labelAddress", js "Address:");
        (js "labelPhone", js "Phone:");
        (js "labelEmail", js "Email:");
        (js "noServicesFound", js "No services found for this category.");
        (js "catFirstNations", js "First Nations");
        (js "catArts", js "Arts");
        (js "catHealth", js "Health & Wellbeing");
        (js "catYouth", js "Youth");
        (js "catCarers", js "Carers Support Services");
        (js "catChildrenFamilies", js "Children & Families");
        (js "catCommunitySupport", js "Community Support");
        (js "catDisability", js "Disability Services");
        (js "catDomesticViolence", js "Domestic Violence");
        (js "catFood", js "Food & Emergency Support");
        (js "catGovernment", js "Government Departments");
        (js "catLgbtqia", js "LGBTQIA+");
        (js "catMulticultural", js "Multicultural");
        (js "clearAllFilters", js "Clear All Filters")]);
    (js "Mandarin", list_to_map [
        (js "titleFind", js "查找");
        (js "titleResources", js "资源");
        (js "titleAtTheLibrary", js "在图书馆");
        (js "headingSelectLanguage", js "选择你的语言:");
        (js "headingChooseCategory", js "选择一个类别:");
        (js "listHeader", js "服务目录");
        (js "labelAddress", js "地址:");
        (js "labelPhone", js "电话:");
        (js "labelEmail", js "电子邮件:");
        (js "noServicesFound", js "此类别未找到服务。");
        (js "catFirstNations", js "原住民服务");
        (js "catArts", js "艺术");
        (js "catHealth", js "健康与福祉");
        (js "catYouth", js "青年");
        (js "catCarers", js "照顾者支持服务");
        (js "catChildrenFamilies", js "儿童与家庭");
        (js "catCommunitySupport", js "社区支持");
        (js "catDisability", js "残疾人服务");
        (js "catDomesticViolence", js "家庭暴力");
        (js "catFood", js "食品和紧急支持");
        (js "catGovernment", js "政府部门");
        (js "catLgbtqia", js "LGBTQIA+ 社区");
        (js "catMulticultural", js "多元文化");
        (js "clearAllFilters", js "清除所有筛选")]);
    (js "Cantonese", list_to_map [
        (js "titleFind", js "搵");
        (js "titleResources", js "資源");
        (js "titleAtTheLibrary", js "喺圖書館");
        (js "headingSelectLanguage", js "選擇你的語言:");
        (js "headingChooseCategory", js "選擇一個類別:");
        (js "listHeader", js "服務目錄");
        (js "labelAddress", js "地址:");
        (js "labelPhone", js "電話:");
        (js "labelEmail", js "電子郵件:");
        (js "noServicesFound", js "呢個類別搵唔到服務。");
        (js "catFirstNations", js "原住民服務");
        (js "catArts", js "藝術");
        (js "catHealth", js "健康與福祉");
        (js "catYouth", js "青年");
        (js "catCarers", js "照顧者支援服務");
        (js "catChildrenFamilies", js "兒童與家庭");
        (js "catCommunitySupport", js "社區支援");
        (js "catDisability", js "殘疾人服務");
        (js "catDomesticViolence", js "家庭暴力");
        (js "catFood", js "食品和緊急支援");
        (js "catGovernment", js "政府部門");
        (js "catLgbtqia", js "LGBTQIA+ 社區");
        (js "catMulticultural", js "多元文化");
        (js "clearAllFilters", js "清除所有篩選")]);
    (js "Nepali", list_to_map [
        (js "titleFind", js "खोज्नुहोस्");
        (js "titleResources", js "स्रोतहरू");
        (js "titleAtTheLibrary", js "पुस्तकालयमा");
        (js "headingSelectLanguage", js "आफ्नो भाषा छान्नुहोस्:");
        (js "headingChooseCategory", js "एउटा श्रेणी छान्नुहोस्:");
        (js "listHeader", js "सेवा निर्देशिका");
        (js "labelAddress", js "ठेगाना:");
        (js "labelPhone", js "फोन:");
        (js "labelEmail", js "इमेल:");
        (js "noServicesFound", js "यस श्रेणीका लागि कुनै सेवाहरू फेला परेन।");
        (js "catFirstNations", js "प्रथम राष्ट्र");
        (js "catArts", js "कला");
        (js "catHealth", js "स्वास्थ्य र कल्याण");
        (js "catYouth", js "युवा");
        (js "catCarers", js "हेरचाहकर्ता समर्थन सेवाहरू");
        (js "catChildrenFamilies", js "बालबालिका र परिवारहरू");
        (js "catCommunitySupport", js "सामुदायिक समर्थन");
        (js "catDisability", js "अपाङ्गता सेवाहरू");
        (js "catDomesticViolence", js "घरेलु हिंसा");
        (js "catFood", js "खाद्य र आपतकालीन समर्थन");
        (js "catGovernment", js "सरकारी विभागहरू");
        (js "catLgbtqia", js "LGBTQIA+ समुदायहरू");
        (js "catMulticultural", js "बहुसांस्कृतिक");
        (js "clearAllFilters", js "सबै फिल्टरहरू हटाउनुहोस्")]);
    (js "Italian", list_to_map [
        (js "titleFind", js "Trova");
        (js "titleResources", js "risorse");
        (js "titleAtTheLibrary", js "in biblioteca");
        (js "headingSelectLanguage", js "Seleziona la tua lingua:");
        (js "headingChooseCategory", js "Scegli una categoria:");
        (js "listHeader", js "Elenco dei servizi");
        (js "labelAddress", js "Indirizzo:");
        (js "labelPhone", js "Telefono:");
        (js "labelEmail", js "E-mail:");
        (js "noServicesFound", js "Nessun servizio trovato per questa categoria.");
        (js "catFirstNations", js "Prime Nazioni");
        (js "catArts", js "Arte");
        (js "catHealth", js "Salute e benessere");
        (js "catYouth", js "Gioventù");
        (js "catCarers", js "Servizi di supporto per i caregiver");
        (js "catChildrenFamilies", js "Bambini e famiglie");
        (js "catCommunitySupport", js "Supporto comunitario");
        (js "catDisability", js "Servizi per la disabilità");
        (js "catDomesticViolence", js "Violenza domestica");
        (js "catFood", js "Cibo e supporto di emergenza");
        (js "catGovernment", js "Dipartimenti governativi");
        (js "catLgbtqia", js "Comunità LGBTQIA+");
        (js "catMulticultural", js "Multiculturale");
        (js "clearAllFilters", js "Cancella Tutti i Filtri")]);
    (js "Greek", list_to_map [
        (js "titleFind", js "Βρείτε");
        (js "titleResources", js "πόρους");
        (js "titleAtTheLibrary", js "στη βιβλιοθήκη");
        (js "headingSelectLanguage", js "Επιλέξτε τη γλώσσα σας:");
        (js "headingChooseCategory", js "Επιλέξτε μια κατηγορία:");
        (js "listHeader", js "Κατάλογος Υπηρεσιών");
        (js "labelAddress", js "Διεύθυνση:");
        (js "labelPhone", js "Τηλέφωνο:");
        (js "labelEmail", js "Ηλεκτρονική Διεύθυνση:");
        (js "noServicesFound", js "Δεν βρέθηκαν υπηρεσίες για αυτήν την κατηγορία.");
        (js "catFirstNations", js "Υπηρεσίες Πρώτων Εθνών");
        (js "catArts", js "Τέχνες");
        (js "catHealth", js "Υγεία & Ευεξία");
        (js "catYouth", js "Νεολαία");
        (js "catCarers", js "Υπηρεσίες Υποστήριξης Φροντιστών");
        (js "catChildrenFamilies", js "Παιδιά & Οικογένειες");
        (js "catCommunitySupport", js "Κοινοτική Υποστήριξη");
        (js "catDisability", js "Υπηρεσίες Αναπηρίας");
        (js "catDomesticViolence", js "Ενδοοικογενειακή Βία");
        (js "catFood", js "Τρόφιμα & Έκτακτη Ανάγκη");
        (js "catGovernment", js "Κυβερνητικές Υπηρεσίες");
        (js "catLgbtqia", js "Κοινότητες LGBTQIA+");
        (js "catMulticultural", js "Πολυπολιτισμικό");
        (js "clearAllFilters", js "Καθαρισμός Όλων των Φίλτρων")])
  ].

(** ** Exceptions *)

Inductive error :=
| TypeError (message : jsstring)
| Error (message : jsstring)
| HostError (message : jsstring).

Inductive completion (A : Type) :=
| Normal (a : A)
| Throw (e : error).

Arguments Normal {A} a.
Arguments Throw {A} e.

#[export] Instance completion_ret : MRet completion := fun A a => Normal a.

#[export] Instance completion_bind : MBind completion := fun A B k c =>
  match c with
  | Normal a => k a
  | Throw e => Throw e
  end.

(** [try { body } catch (e) { handler }] *)
Definition try_catch {A : Type} (body : completion A) (handler : error -> completion A)
    : completion A :=
  match body with
  | Normal a => Normal a
  | Throw e => handler e
  end.

(** ** Sanitizing the dataset ([sanitizePartnerData]) *)

Section SanitizeData.

Variable parseURL : jsstring -> option URL.

(** The callback of [partners.map]; [Object.keys(partner.description)]
    throws when the entry has no description. *)
Definition sanitizePartner : partner -> completion partner := fun partner =>
  match description partner with
  | None => Throw (TypeError (js "Cannot convert undefined or null to object"))
  | Some d =>
      Normal
        {| name := Some (sanitizeText (str_value (name partner)));
           lat := lat partner;
           lng := lng partner;
           community := community partner;
           languages := languages partner;
           description := Some ((fun text => sanitizeText (VStr text)) <$> d);
           address := Some (sanitizeText (str_value (address partner)));
           phone := Some (sanitizePhone (str_value (phone partner)));
           email := Some (sanitizeEmail (str_value (email partner)));
           website := Some (sanitizeURL parseURL (str_value (website partner))) |}
  end.

Definition sanitizePartnerData (partners : list partner) : completion (list partner) :=
  mapM sanitizePartner partners.

End SanitizeData.

(** ** DOM nodes

    An element is its tag, the properties assigned to it in order, and
    its children; [textContent] is kept as a text child. *)

#[warning="-register-all"] Inductive node :=
| Text (data : jsstring)
| Element (tagName : jsstring) (props : list (jsstring * jsstring)) (children : list node).

Definition createElement (tagName : string) : node := Element (js tagName) [] [].

Definition set_prop (key : string) (v : jsstring) (n : node) : node :=
  match n with
  | Element t props cs => Element t (props ++ [(js key, v)]) cs
  | Text _ => n
  end.

(** [n.textContent = v]; [undefined] and the empty string leave no child. *)
Definition set_textContent (v : option jsstring) (n : node) : node :=
  match n with
  | Element t props _ =>
      Element t props (match v with Some (c :: s) => [Text (c :: s)] | _ => [] end)
  | Text _ => n
  end.

Definition appendChild (child : node) (n : node) : node :=
  match n with
  | Element t props cs => Element t props (cs ++ [child])
  | Text _ => n
  end.

Definition clear_children (n : node) : node :=
  match n with
  | Element t props _ => Element t props []
  | Text _ => n
  end.

(** The last value assigned to a property. *)
Definition prop (key : string) (n : node) : option jsstring :=
  match n with
  | Element _ props _ => snd <$> last (filter (fun kv => fst kv = js key) props)
  | Text _ => None
  end.

Definition children_of (n : node) : list node :=
  match n with Element _ _ cs => cs | Text _ => [] end.

(** A template literal spanning several source lines. *)
Definition template (lines : list jsstring) : jsstring :=
  match lines with
  | [] => []
  | l :: ls => foldl (fun acc l => acc ++ [10] ++ l) l ls
  end.

(** ** QR generator ([generateQrCode]) *)

(** What the page reads from the object the QR library returns. *)
Record QRCode := { getModuleCount : nat; isDark : nat -> nat -> bool }.

Record fillRect := FillRect { fillStyle : jsstring; fx : nat; fy : nat; fw : nat; fh : nat }.

Record canvas := Canvas {
  canvas_width : nat;
  canvas_height : nat;
  canvas_style_width : jsstring;
  canvas_style_height : jsstring;
  drawn : list fillRect
}.

Definition placeholder_css : jsstring :=
  template [
    [];
    js "                width: 80px; ";
    js "                height: 80px; ";
    js "                background: #f0f0f0; ";
    js "                border: 2px dashed #ccc; ";
    js "                display: flex; ";
    js "                align-items: center; ";
    js "                justify-content: center; ";
    js "                font-size: 10px; ";
    js "                color: #666; ";
    js "                text-align: center;";
    js "                border-radius: 4px;";
    js "            "].

(** The fallback element built in the [catch] block. *)
Definition placeholder (url : option jsstring) : node :=
  let placeholder := createElement "div" in
  let placeholder := set_prop "style.cssText" placeholder_css placeholder in
  let placeholder := set_textContent (Some (js "QR Code")) placeholder in
  let placeholder := set_prop "title" (js "QR code for " ++ show url) placeholder in
  placeholder.

Section Page.

(** The browser and the libraries around the page script. *)

(** whether [security] holds a [SecurityManager] (else it is [null]) *)
Variable security : bool.
(** [new URL(s)] *)
Variable parseURL : jsstring -> option URL.
(** the global [qrcode], when the library is loaded: [qrcode(0, 'L')],
    [addData] and [make] on the given data *)
Variable qrcode : option (option jsstring -> completion QRCode).
(** whether [canvas.getContext('2d')] gives a context (else [null]) *)
Variable getContext2d : bool.
(** [canvas.toDataURL('image/png')] *)
Variable toDataURL : canvas -> completion jsstring.

Definition draw_modules (qr : QRCode) (cellSize margin : nat) : list fillRect :=
  let moduleCount := getModuleCount qr in
  flat_map
    (fun row =>
       flat_map
         (fun col =>
            if isDark qr row col
            then [FillRect (js "#000000") (col * cellSize + margin)
                    (row * cellSize + margin) cellSize cellSize]
            else [])
         (seq 0 moduleCount))
    (seq 0 moduleCount).

(** The [try] block of [generateQrCode]. *)
Definition generateQrCode_try (url : option jsstring) : completion node :=
  (* Sanitize URL if security manager is available *)
  sanitizedUrl ←
    (if security then
       let sanitizedUrl := sanitizeURL parseURL (str_value url) in
       if negb (truthy (VStr sanitizedUrl))
       then Throw (Error (js "Invalid URL provided"))
       else Normal (Some sanitizedUrl)
     else
       (* Basic URL validation without security manager *)
       _ ← try_catch
             (match parseURL (show url) with
              | Some _ => Normal tt
              | None => Throw (TypeError (js "Invalid URL"))
              end)
             (fun e => Throw (Error (js "Invalid URL provided")));
       Normal url);
  (* Check if qrcode function is available *)
  encode ← match qrcode with
           | None => Throw (Error (js "QR code library not loaded"))
           | Some encode => Normal encode
           end;
  qr ← encode sanitizedUrl;
  let moduleCount := getModuleCount qr in
  let cellSize := 4%nat in
  let margin := 8%nat in
  let size := (moduleCount * cellSize + margin * 2)%nat in
  _ ← (if getContext2d then Normal tt
       else Throw (TypeError (js "Cannot set properties of null")));
  let canvas :=
    Canvas size size (js "80px") (js "80px")
      (FillRect (js "#ffffff") 0 0 size size :: draw_modules qr cellSize margin) in
  (* Convert canvas to image *)
  src ← toDataURL canvas;
  let img := createElement "img" in
  let img := set_prop "src" src img in
  let img := set_prop "alt" (js "QR code for " ++ show sanitizedUrl) img in
  let img := set_prop "style.cssText" (js "width: 80px; height: 80px;") img in
  Normal img.

Definition generateQrCode (url : option jsstring) : completion node :=
  try_catch (generateQrCode_try url) (fun e => Normal (placeholder url)).

End Page.

(** ** Filter/projection and renderer ([updateDisplay]) *)

(** A Leaflet marker with its bound popup. *)
Record marker := Marker { latlng : number * number; popup : node }.

(** What the page script holds between events: the filter state, the
    dataset, and the parts of the document [updateDisplay] rebuilds
    ([None] when [getElementById] finds nothing, or the map was not
    initialised). *)
Record page := Page {
  selectedLanguage : jsstring;
  selectedCommunity : jsstring;
  sanitizedPartners : list partner;
  organisationList : option node;
  listHeader : option node;
  markerLayer : option (list marker)
}.

(** The callback given to [sanitizedPartners.filter]. *)
Definition filter_callback (selectedLanguage selectedCommunity : jsstring) (p : partner)
    : completion bool :=
  match languages p with
  | None => Throw (TypeError (js "Cannot read properties of undefined (reading 'includes')"))
  | Some langs =>
      let languageMatch := includes langs selectedLanguage || includes langs (js "English") in
      let communityMatch := bool_decide (community p = Some selectedCommunity) in
      Normal (languageMatch && communityMatch)
  end.

(** [array.filter(callback)] with a callback that may throw. *)
Fixpoint filterM {A : Type} (f : A -> completion bool) (l : list A) : completion (list A) :=
  match l with
  | [] => Normal []
  | x :: l' =>
      match f x with
      | Throw e => Throw e
      | Normal keep =>
          match filterM f l' with
          | Throw e => Throw e
          | Normal rest => Normal (if keep then x :: rest else rest)
          end
      end
  end.

Definition filteredPartners (sanitizedPartners : list partner)
    (selectedLanguage selectedCommunity : jsstring) : completion (list partner) :=
  filterM (filter_callback selectedLanguage selectedCommunity) sanitizedPartners.

(** [partner.description[selectedLanguage] || partner.description['English']] *)
Definition description_for (partner : partner) (selectedLanguage : jsstring)
    : completion property :=
  match description partner with
  | None => Throw (TypeError (js "Cannot read properties of undefined"))
  | Some d =>
      Normal (if property_truthy (describe d selectedLanguage)
              then describe d selectedLanguage
              else describe d (js "English"))
  end.

(** What [translations[language]] can be: a table of the page, or the
    member of [Object.prototype] of that name. *)
Inductive translation_set :=
| Table (labels : gmap jsstring jsstring)
| Builtin (name : jsstring).

(** [translations[language] || translations['English']]: a table and
    an inherited member are both truthy. *)
Definition translationSet_for (language : jsstring) : translation_set :=
  match translations !! language with
  | Some t => Table t
  | None =>
      if bool_decide (language ∈ Object_prototype) then Builtin language
      else Table (default ∅ (translations !! js "English"))
  end.

(** The labels [updateDisplay] reads from the translation set:
    [listHeader], [noServicesFound], [labelAddress], [labelPhone] and
    [labelEmail].  A table is read through its own properties, none of
    these names being a member of [Object.prototype]; a member of
    [Object.prototype] has no property of these names, so it is read
    as the empty table. *)
Definition labels_of (translationSet : translation_set) : gmap jsstring jsstring :=
  match translationSet with
  | Table t => t
  | Builtin _ => ∅
  end.

(** [currentTranslations] in [updateDisplay], as its labels. *)
Definition currentTranslations_for (selectedLanguage : jsstring) : gmap jsstring jsstring :=
  labels_of (translationSet_for selectedLanguage).

Definition with_class (className : string) (n : node) : node :=
  set_prop "className" (js className) n.

(** A paragraph made of a [strong] label and a text node. *)
Definition labelled (label : option jsstring) (text : jsstring) : node :=
  let p := createElement "p" in
  let strong := set_textContent label (createElement "strong") in
  let p := appendChild strong p in
  appendChild (Text text) p.

Definition email_paragraph (label : option jsstring) (email : jsstring) : node :=
  let emailP := createElement "p" in
  let emailLabel := set_textContent label (createElement "strong") in
  let emailP := appendChild emailLabel emailP in
  let emailP := appendChild (Text (js " ")) emailP in
  let emailLink := createElement "a" in
  let emailLink := set_prop "href" (js "mailto:" ++ email) emailLink in
  let emailLink := set_textContent (Some email) emailLink in
  appendChild emailLink emailP.

Definition has_email (partner : partner) : bool :=
  str_truthy (email partner) && negb (bool_decide (email partner = Some (js "N/A"))).

Section Renderer.

Variable security : bool.
Variable parseURL : jsstring -> option URL.
Variable qrcode : option (option jsstring -> completion QRCode).
Variable getContext2d : bool.
Variable toDataURL : canvas -> completion jsstring.
(** [String(Object.prototype[name])]: the text of an inherited member *)
Variable nativeText : jsstring -> jsstring.

(** The string a property value becomes when it is assigned to
    [textContent]; [None] is [undefined], which leaves no text. *)
Definition as_text (v : property) : option jsstring :=
  match v with
  | Own text => Some text
  | Inherited name => Some (nativeText name)
  | Absent => None
  end.

Definition qr_of (url : option jsstring) : completion node :=
  generateQrCode security parseURL qrcode getContext2d toDataURL url.

(** The list card of one entry; [description] is the text its
    description paragraph receives. *)
Definition list_card (partner : partner) (description : option jsstring)
    (currentTranslations : gmap jsstring jsstring) : completion node :=
  let listItem := with_class "organisation-item" (createElement "li") in
  let itemDetails := with_class "item-details" (createElement "div") in
  let title := set_textContent (name partner) (createElement "h3") in
  let itemDetails := appendChild title itemDetails in
  let descriptionP := with_class "item-description" (createElement "p") in
  let descriptionP := set_textContent description descriptionP in
  let itemDetails := appendChild descriptionP itemDetails in
  let itemDetails :=
    appendChild (labelled (currentTranslations !! js "labelAddress")
                   (js " " ++ show (address partner))) itemDetails in
  let itemDetails :=
    appendChild (labelled (currentTranslations !! js "labelPhone")
                   (js " " ++ show (phone partner))) itemDetails in
  let itemDetails :=
    if has_email partner
    then appendChild (email_paragraph (currentTranslations !! js "labelEmail")
                        (default [] (email partner))) itemDetails
    else itemDetails in
  let qrContainer := with_class "item-qr-code" (createElement "div") in
  qr ← qr_of (website partner);
  let qrContainer := appendChild qr qrContainer in
  let listItem := appendChild itemDetails listItem in
  let listItem := appendChild qrContainer listItem in
  Normal listItem.

(** The popup bound to the marker of one entry. *)
Definition popup_content (partner : partner) (description : option jsstring)
    (currentTranslations : gmap jsstring jsstring) : completion node :=
  let popupContainer := createElement "div" in
  let popupTitle := set_textContent (name partner) (createElement "h3") in
  let popupContainer := appendChild popupTitle popupContainer in
  let popupDesc := with_class "popup-description" (createElement "p") in
  let popupDesc := set_textContent description popupDesc in
  let popupContainer := appendChild popupDesc popupContainer in
  let popupDetails := with_class "popup-details" (createElement "div") in
  let popupDetails :=
    appendChild (labelled (currentTranslations !! js "labelAddress")
                   (js " " ++ show (address partner))) popupDetails in
  let popupDetails :=
    appendChild (labelled (currentTranslations !! js "labelPhone")
                   (js " " ++ show (phone partner))) popupDetails in
  let popupDetails :=
    if has_email partner
    then appendChild (email_paragraph (currentTranslations !! js "labelEmail")
                        (default [] (email partner))) popupDetails
    else popupDetails in
  let popupContainer := appendChild popupDetails popupContainer in
  let popupQr := with_class "popup-qr-code" (createElement "div") in
  qr ← qr_of (website partner);
  let popupQr := appendChild qr popupQr in
  let popupContainer := appendChild popupQr popupContainer in
  Normal popupContainer.

(** The two views being rebuilt: the list element and the markers of
    the marker layer. *)
Definition views : Type := node * list marker.

(** The body of [filteredPartners.forEach]. *)
Definition render_partner (selectedLanguage : jsstring)
    (currentTranslations : gmap jsstring jsstring) (partner : partner) (v : views)
    : views * option error :=
  match description_for partner selectedLanguage with
  | Throw e => (v, Some e)
  | Normal description =>
      match list_card partner (as_text description) currentTranslations with
      | Throw e => (v, Some e)
      | Normal listItem =>
          let v := (appendChild listItem (fst v), snd v) in
          match lat partner, lng partner with
          | Some la, Some ln =>
              if number_truthy la && number_truthy ln then
                match popup_content partner (as_text description) currentTranslations with
                | Throw e => (v, Some e)
                | Normal popupContainer =>
                    ((fst v, snd v ++ [Marker (la, ln) popupContainer]), None)
                end
              else (v, None)
          | _, _ => (v, None)
          end
      end
  end.

(** [forEach] stops at the first exception, keeping what was built. *)
Fixpoint render_all (selectedLanguage : jsstring)
    (currentTranslations : gmap jsstring jsstring) (ps : list partner) (v : views)
    : views * option error :=
  match ps with
  | [] => (v, None)
  | p :: ps' =>
      match render_partner selectedLanguage currentTranslations p v with
      | (v', None) => render_all selectedLanguage currentTranslations ps' v'
      | (v', Some e) => (v', Some e)
      end
  end.

Definition no_results_item (currentTranslations : gmap jsstring jsstring) : node :=
  let noResultsItem := with_class "organisation-item" (createElement "li") in
  let noResultsText :=
    set_textContent (currentTranslations !! js "noServicesFound") (createElement "p") in
  appendChild noResultsText noResultsItem.

(** [updateDisplay()]: the page afterwards, and the exception that
    ended it, if any. *)
Definition updateDisplay (pg : page) : page * option error :=
  match organisationList pg, markerLayer pg with
  | Some organisationList, Some _ =>
      (* markerLayer.clearLayers(); clear list safely *)
      let organisationList := clear_children organisationList in
      let currentTranslations := currentTranslations_for (selectedLanguage pg) in
      let header :=
        set_textContent (currentTranslations !! js "listHeader") <$> listHeader pg in
      let rebuilt (v : views) :=
        Page (selectedLanguage pg) (selectedCommunity pg) (sanitizedPartners pg)
          (Some (fst v)) header (Some (snd v)) in
      match filteredPartners (sanitizedPartners pg) (selectedLanguage pg)
              (selectedCommunity pg) with
      | Throw e => (rebuilt (organisationList, []), Some e)
      | Normal filteredPartners =>
          if bool_decide (length filteredPartners = 0%nat)
          then
            (rebuilt (appendChild (no_results_item currentTranslations) organisationList,
                      []), None)
          else
            let '(v, e) :=
              render_all (selectedLanguage pg) currentTranslations filteredPartners
                (organisationList, []) in
            (rebuilt v, e)
      end
  | _, _ => (pg, None)
  end.

End Renderer.

(** ** Offline cache manager (service worker) *)

(** A cache maps request URLs to stored responses; cache storage maps
    cache names to caches. *)
Record worker := Worker {
  caches : gmap jsstring (gmap jsstring jsstring);
  clients_claimed : bool
}.

Definition community_resources_v1 : jsstring := js "community-resources-v1".

Section ServiceWorker.

(** The current version tag; [community_resources_v1] in the source. *)
Variable CACHE_NAME : jsstring.

(** [caches.keys()] *)
Definition caches_keys (c : gmap jsstring (gmap jsstring jsstring)) : list jsstring :=
  (map_to_list c).*1.

(** [caches.delete(cacheName)] *)
Definition caches_delete (cacheName : jsstring) (c : gmap jsstring (gmap jsstring jsstring))
    : gmap jsstring (gmap jsstring jsstring) :=
  delete cacheName c.

(** The [activate] handler: the promise chain run to completion. *)
Definition activate (w : worker) : worker :=
  let cacheNames := caches_keys (caches w) in
  let stale := filter (fun cacheName => cacheName ≠ CACHE_NAME) cacheNames in
  let c := foldl (fun c cacheName => caches_delete cacheName c) (caches w) stale in
  Worker c true.

End ServiceWorker.

(** ** A small browser to run the definitions on

    These stand in for the built-in URL parser, the QR library and the
    canvas when a statement is evaluated on concrete data. *)

Definition lower (c : N) : N := if in_range 65 90 c then c + 32 else c.

Definition is_alpha (c : N) : bool := in_range 65 90 c || in_range 97 122 c.

Definition is_scheme_char (c : N) : bool :=
  is_alpha c || is_digit c || (c =? chr "+") || (c =? chr "-") || (c =? chr ".").

Fixpoint scan_scheme (s acc : jsstring) : option jsstring :=
  match s with
  | [] => None
  | c :: s' =>
      if c =? chr ":" then Some (reverse acc)
      else if is_scheme_char c then scan_scheme s' (lower c :: acc)
      else None
  end.

(** Reads the scheme of an absolute URL the way the URL parser does and
    takes the input as its own serialisation; input without a scheme is
    rejected. *)
Definition scheme_parser (s : jsstring) : option URL :=
  match s with
  | c :: _ =>
      if is_alpha c then
        match scan_scheme s [] with
        | Some scheme => Some {| protocol := scheme ++ js ":"; href := s |}
        | None => None
        end
      else None
  | [] => None
  end.

Definition checker_qr (data : option jsstring) : completion QRCode :=
  Normal {| getModuleCount := 21; isDark := fun row col => Nat.even (row + col) |}.

Definition png_stub (c : canvas) : completion jsstring :=
  Normal (js "data:image/png;base64,").

(** The text of an inherited member, in the form browsers print a
    built-in function. *)
Definition native_code (name : jsstring) : jsstring :=
  js "function " ++ name ++ js "() { [native code] }".


(** The entry of the scenario in the specification. *)
Definition test_org : partner :=
  {| name := Some (js "Test Org");
     lat := Some (Decimal (-339) (-1));
     lng := Some (Decimal 1511 (-1));
     community := Some (js "Arts");
     languages := Some [js "English"];
     description := Some {[ js "English" := js "desc" ]};
     address := Some (js "1 St");
     phone := Some (js "123");
     email := Some (js "a@b.com");
     website := Some (js "https://example.org") |}.

Definition without_email (p : partner) : partner :=
  Partner (name p) (lat p) (lng p) (community p) (languages p) (description p)
    (address p) (phone p) None (website p).

(** ** Predicates used by the statements *)

Definition is_string (v : value) : bool :=
  match v with VStr _ => true | _ => false end.

Definition http_or_https (u : URL) : Prop :=
  protocol u = js "http:" ∨ protocol u = js "https:".

(** The entry has a [languages] array. *)
Definition has_languages (p : partner) : bool :=
  match languages p with Some _ => true | None => false end.

(** The inclusion rule, as a test on one entry. *)
Definition keepb (language category : jsstring) (p : partner) : bool :=
  match languages p with
  | Some langs =>
      (includes langs language || includes langs (js "English"))
      && bool_decide (community p = Some category)
  | None => false
  end.

(** A description is present when it is there and not empty; the page
    treats an empty field as missing throughout. *)
Definition present (o : option jsstring) : Prop := ∃ s, o = Some s ∧ s ≠ [].

(** An own property, or none, as the value read. *)
Definition own (o : option jsstring) : property :=
  match o with Some text => Own text | None => Absent end.

(** The checks of the validator other than the presence of the
    required fields. *)
Definition contents_ok (parseURL : jsstring -> option URL) (p : partner) : bool :=
  bool_decide (community p ∈ Some <$> validCommunities)
  && (negb (str_truthy (email p)) || test_anchored re_email (default [] (email p)))
  && bool_decide (is_Some (parseURL (default [] (website p))))
  && match description p with
     | Some d => property_truthy (describe d (js "English"))
     | None => false
     end.

(** A well-formed entry: every required field is there and every check
    of the validator passes. *)
Definition well_formed (parseURL : jsstring -> option URL) (p : partner) : bool :=
  forallb (fun field => truthy (get p field)) requiredFields
  && contents_ok parseURL p.

(** An entry without the [email] field that is well-formed otherwise. *)
Definition lacks_email_only (parseURL : jsstring -> option URL) (p : partner) : bool :=
  bool_decide (email p = None)
  && forallb (fun field => truthy (get p field))
       (filter (fun field => field ≠ js "email") requiredFields)
  && contents_ok parseURL p.

Definition duplicate_prefix : jsstring := js "Duplicate names found: ".

(** The warning is the aggregated one about duplicate names. *)
Definition is_duplicate_warning (w : jsstring) : bool := starts_with duplicate_prefix w.

(** The computation ends in an exception. *)
Definition throws {A : Type} (c : completion A) : Prop := ∃ e, c = Throw e.

(** [n.textContent] *)
Definition textContent (n : node) : jsstring :=
  flat_map (fun c => match c with Text s => s | Element _ _ _ => [] end) (children_of n).

(** ** Predicates for the further properties *)

(** The class [[\d\+\(\)\-\s]] kept by [sanitizePhone]. *)
Definition is_phone_char (c : N) : bool :=
  is_digit c || (c =? chr "+") || (c =? chr "(") || (c =? chr ")") || (c =? chr "-")
  || is_space c.

(** The class [[^\s@]] of the email pattern. *)
Definition plain (c : N) : bool := negb (is_space c || (c =? chr "@")).

(** What the email pattern describes: [local@domain.tld], the three
    parts non-empty and free of white space and of [@]. *)
Definition email_shape (s : jsstring) : Prop :=
  ∃ a b c, s = a ++ chr "@" :: b ++ chr "." :: c
           ∧ a ≠ [] ∧ b ≠ [] ∧ c ≠ []
           ∧ Forall (λ x, plain x = true) (a ++ b ++ c).

(** Neither end of the string is white space. *)
Definition trimmed (s : jsstring) : Prop :=
  (∀ c, head s = Some c → is_space c = false)
  ∧ (∀ c, last s = Some c → is_space c = false).

Definition no_angle (s : jsstring) : Prop := (LESS_THAN ∉ s) ∧ (GREATER_THAN ∉ s).

(** The value is empty or the serialisation of a URL the parser gives
    for some string, of scheme http or https. *)
Definition safe_url (parseURL : jsstring -> option URL) (v : jsstring) : Prop :=
  v = [] ∨ ∃ s u, parseURL s = Some u ∧ http_or_https u ∧ v = href u.

(** [s.endsWith(suffix)] *)
Definition ends_with (suffix s : jsstring) : bool :=
  starts_with (reverse suffix) (reverse s).

(** The errors and the warnings one entry adds at its index. *)
Definition entry_errors (parseURL : jsstring -> option URL) (p : partner) (index : nat)
    : list jsstring :=
  log_errors (check_partner parseURL p index (Log [] [])).

Definition entry_warnings (parseURL : jsstring -> option URL) (p : partner) (index : nat)
    : list jsstring :=
  log_warnings (check_partner parseURL p index (Log [] [])).

(** The entry has no [languages] array or an empty one. *)
Definition no_languages (p : partner) : bool :=
  match languages p with Some (_ :: _) => false | _ => true end.

(** Both coordinates are there and truthy: the entry gets a marker. *)
Definition has_marker (p : partner) : bool :=
  match lat p, lng p with
  | Some la, Some ln => number_truthy la && number_truthy ln
  | _, _ => false
  end.

Definition has_description (p : partner) : bool :=
  match description p with Some _ => true | None => false end.


(** The errors of the required-field loop for one entry. *)
Definition required_errors (p : partner) (index : nat) : list jsstring :=
  flat_map
    (λ field,
       if negb (truthy (get p field))
       then [Partner_prefix index
               (if str_truthy (name p) then show (name p) else js "Unknown")
             ++ js "Missing " ++ field]
       else [])
    requiredFields.

(** The message starts with the index of entry [index]. *)
Definition tagged (index : nat) (message : jsstring) : Prop :=
  starts_with (js "Partner " ++ index_to_string index ++ js " (") message = true.

(** Two strings differ at a position they both have. *)
Fixpoint mismatch (p s : jsstring) : bool :=
  match p, s with
  | a :: p', b :: s' => negb (a =? b) || mismatch p' s'
  | _, _ => false
  end.

(** The entry of the scenario with an email that is no address. *)
Definition bad_email_org : partner :=
  Partner (name test_org) (lat test_org) (lng test_org) (community test_org)
    (languages test_org) (description test_org) (address test_org) (phone test_org)
    (Some (js "not an address")) (website test_org).

(** ** What the renderer draws for one entry *)

Section Drawn.

Variable security : bool.
Variable parseURL : jsstring -> option URL.
Variable qrcode : option (option jsstring -> completion QRCode).
Variable getContext2d : bool.
Variable toDataURL : canvas -> completion jsstring.
Variable nativeText : jsstring -> jsstring.

(** [item] is the card of entry [p] in the list. *)
Definition is_card (language : jsstring) (p : partner) (item : node) : Prop :=
  ∃ shown,
    description_for p language = Normal shown
    ∧ list_card security parseURL qrcode getContext2d toDataURL p
        (as_text nativeText shown) (currentTranslations_for language) = Normal item.

(** [m] is the marker of entry [p] on the map, with its popup. *)
Definition is_marker (language : jsstring) (p : partner) (m : marker) : Prop :=
  ∃ shown la ln content,
    description_for p language = Normal shown
    ∧ lat p = Some la ∧ lng p = Some ln
    ∧ popup_content security parseURL qrcode getContext2d toDataURL p
        (as_text nativeText shown) (currentTranslations_for language) = Normal content
    ∧ m = Marker (la, ln) content.

End Drawn.

(** The scenario with an entry that lost its [languages] array. *)
Definition no_languages_org : partner :=
  Partner (name test_org) (lat test_org) (lng test_org) (community test_org)
    None (description test_org) (address test_org) (phone test_org)
    (email test_org) (website test_org).

(** ** Installing and serving (service worker)

    The worker's handlers on the cache storage of [worker].  A response
    is the stored text; the network and URL resolution belong to the
    browser. *)

Definition STATIC_ASSETS : list jsstring := [
  js "/";
  js "/index.html";
  js "/script.js";
  js "/styles.css";
  js "/security-implementation.js";
  js "/lib/leaflet.js";
  js "/lib/leaflet.css";
  js "/lib/qrcode.js";
  js "/lib/work-sans.css";
  js "/assets/images/logo.png"
].

(** What the [fetch] handler reads from [event.request]. *)
Record request := Request { request_url : jsstring; request_destination : jsstring }.

(** The outcome of the [install] handler: the storage, whether
    [skipWaiting] was called, and the rejection passed to [waitUntil]. *)
Record installation := Installation {
  installed : gmap jsstring (gmap jsstring jsstring);
  skipped_waiting : bool;
  rejected : option error
}.

Section Offline.

Variable CACHE_NAME : jsstring.
(** the URL of the request made for a path of the worker's site *)
Variable resolve : jsstring -> jsstring.
(** the network: [fetch(url)] gives a response or rejects *)
Variable fetch : jsstring -> completion jsstring.
(** [response.ok] *)
Variable ok : jsstring -> bool.

(** [caches.open(cacheName)]: a missing cache is created. *)
Definition caches_open (cacheName : jsstring) (c : gmap jsstring (gmap jsstring jsstring))
    : gmap jsstring (gmap jsstring jsstring) :=
  match c !! cacheName with
  | Some _ => c
  | None => <[ cacheName := ∅ ]> c
  end.

(** [cache.addAll(requests)]: every request is fetched and must get an
    ok response; only then are the responses stored. *)
Definition addAll (requests : list jsstring) (cache : gmap jsstring jsstring)
    : completion (gmap jsstring jsstring) :=
  responses ←
    mapM (fun request =>
            response ← fetch (resolve request);
            if ok response then Normal (resolve request, response)
            else Throw (TypeError (js "Request failed")))
      requests;
  Normal (foldl (fun cache entry => <[ fst entry := snd entry ]> cache) cache responses).

(** The [install] handler: the promise chain run to completion. *)
Definition install (c : gmap jsstring (gmap jsstring jsstring)) : installation :=
  let c := caches_open CACHE_NAME c in
  match addAll STATIC_ASSETS (default ∅ (c !! CACHE_NAME)) with
  | Normal cache => Installation (<[ CACHE_NAME := cache ]> c) true None
  | Throw e => Installation c false (Some e)
  end.

(** [caches.match(url)]: the response of the first cache, in the order
    of [caches.keys()], that holds the request. *)
Definition caches_match (c : gmap jsstring (gmap jsstring jsstring)) (url : jsstring)
    : option jsstring :=
  head (omap (fun cacheName => c !! cacheName ≫= fun cache => cache !! url)
          (caches_keys c)).

(** The [fetch] handler: the response given to [respondWith];
    [None] is [undefined], a network error for the page. *)
Definition on_fetch (c : gmap jsstring (gmap jsstring jsstring)) (request : request)
    : option jsstring :=
  match caches_match c (request_url request) with
  | Some response => Some response
  | None =>
      match fetch (request_url request) with
      | Normal response => Some response
      | Throw _ =>
          (* Fallback for offline HTML requests *)
          if streq (request_destination request) (js "document")
          then caches_match c (resolve (js "/index.html"))
          else None
      end
  end.

End Offline.

(** A network that is down, and one that serves every URL. *)
Definition offline (url : jsstring) : completion jsstring :=
  Throw (TypeError (js "Failed to fetch")).

Definition online (url : jsstring) : completion jsstring :=
  Normal (js "content of " ++ url).

(** ** Filter buttons and translated texts ([setupFilterButtons],
    [applyTranslations])

    A filter button is seen through its [data-filter] attribute and
    whether its class list holds [active]; an element with a
    [data-translate-key] through that key and its text.  A container of
    filter buttons is the list of its buttons, in document order, each
    with a [data-filter] attribute. *)

Record button := Button { data_filter : jsstring; active : bool }.

Record document := Document {
  view : page;
  translatable : list (jsstring * jsstring);
  languageFilters : option (list button);
  communityFilters : option (list button)
}.

(** [container.querySelectorAll('.active').forEach(btn => btn.classList.remove('active'))] *)
Definition deactivate (buttons : list button) : list button :=
  (fun btn => Button (data_filter btn) false) <$> buttons.

(** The reset of one container by the clear-all button: the first
    element with the given [data-filter], if any, becomes active. *)
Definition reset_buttons (filter_value : jsstring) (buttons : list button) : list button :=
  let buttons := deactivate buttons in
  match list_find (fun btn => data_filter btn = filter_value) buttons with
  | Some (i, btn) => <[ i := Button (data_filter btn) true ]> buttons
  | None => buttons
  end.

Section Handlers.

Variable security : bool.
Variable parseURL : jsstring -> option URL.
Variable qrcode : option (option jsstring -> completion QRCode).
Variable getContext2d : bool.
Variable toDataURL : canvas -> completion jsstring.
(** [String(Object.prototype[name])]: the text of an inherited member *)
Variable nativeText : jsstring -> jsstring.
(** [String(member[key])] for the member of [Object.prototype] named
    [member], when [member[key]] is truthy *)
Variable nativeRead : jsstring -> jsstring -> option jsstring.

(** [translationSet[key]] when it is truthy, as the text [innerText]
    receives: on a table an own text or an inherited member, on a
    member of [Object.prototype] what that member has. *)
Definition translation (translationSet : translation_set) (key : jsstring)
    : option jsstring :=
  match translationSet with
  | Table t =>
      let value := read t key in
      if property_truthy value then as_text nativeText value else None
  | Builtin member => nativeRead member key
  end.

(** The body of the loop of [applyTranslations] for one element. *)
Definition translate (translationSet : translation_set) (el : jsstring * jsstring)
    : jsstring * jsstring :=
  let key := fst el in
  match translation translationSet key with
  | Some text => (key, text)
  | None => el
  end.

(** [updateDisplay()] on the page of the document. *)
Definition redisplay (d : document) : document * option error :=
  let '(pg, e) :=
    updateDisplay security parseURL qrcode getContext2d toDataURL nativeText (view d) in
  (Document pg (translatable d) (languageFilters d) (communityFilters d), e).

Definition applyTranslations (language : jsstring) (d : document) : document * option error :=
  let translationSet := translationSet_for language in
  redisplay
    (Document (view d) (translate translationSet <$> translatable d)
       (languageFilters d) (communityFilters d)).

(** The click listener of [languageFilters], for a click on its
    [i]-th button; a click that is on no button does nothing. *)
Definition language_click (i : nat) (d : document) : document * option error :=
  match languageFilters d with
  | None => (d, None)
  | Some buttons =>
      match buttons !! i with
      | None => (d, None)
      | Some btn =>
          let filterValue := data_filter btn in
          let buttons := <[ i := Button filterValue true ]> (deactivate buttons) in
          let pg :=
            Page filterValue (selectedCommunity (view d)) (sanitizedPartners (view d))
              (organisationList (view d)) (listHeader (view d)) (markerLayer (view d)) in
          applyTranslations filterValue
            (Document pg (translatable d) (Some buttons) (communityFilters d))
      end
  end.

(** The click listener of [communityFilters]. *)
Definition community_click (i : nat) (d : document) : document * option error :=
  match communityFilters d with
  | None => (d, None)
  | Some buttons =>
      match buttons !! i with
      | None => (d, None)
      | Some btn =>
          let filterValue := data_filter btn in
          let buttons := <[ i := Button filterValue true ]> (deactivate buttons) in
          let pg :=
            Page (selectedLanguage (view d)) filterValue (sanitizedPartners (view d))
              (organisationList (view d)) (listHeader (view d)) (markerLayer (view d)) in
          redisplay (Document pg (translatable d) (languageFilters d) (Some buttons))
      end
  end.

(** The click listener of the clear-all button. *)
Definition clear_all_click (d : document) : document * option error :=
  (* Reset to default values *)
  let pg :=
    Page (js "English") (js "First Nations") (sanitizedPartners (view d))
      (organisationList (view d)) (listHeader (view d)) (markerLayer (view d)) in
  let d :=
    Document pg (translatable d)
      (reset_buttons (js "English") <$> languageFilters d)
      (reset_buttons (js "First Nations") <$> communityFilters d) in
  (* Apply changes *)
  match applyTranslations (js "English") d with
  | (d, Some e) => (d, Some e)
  | (d, None) => redisplay d
  end.

End Handlers.

(** ** The rotating category of the title ([startScrollingCategory]) *)

Definition categories : list jsstring := [
  js "community"; js "health"; js "arts"; js "youth"; js "family"; js "support";
  js "cultural"; js "disability"; js "emergency"; js "government"
].

Record scroller := Scroller { currentIndex : nat; scrollingElement : node }.

(** The state when the interval is set; without the element there is
    no interval. *)
Definition startScrollingCategory (scrollingElement : option node) : option scroller :=
  match scrollingElement with
  | None => None
  | Some scrollingElement => Some (Scroller 0 scrollingElement)
  end.

(** The callback of [setInterval]. *)
Definition tick (s : scroller) : scroller :=
  let currentIndex := ((currentIndex s + 1) mod length categories)%nat in
  Scroller currentIndex (set_textContent (categories !! currentIndex) (scrollingElement s)).

(** ** Elements made by the security manager ([createSecureElement]) *)

(** ASCII lower case, as the DOM applies it to the tag name and the
    attribute names of an HTML element. *)
Definition ascii_lowercase (name : jsstring) : jsstring := lower <$> name.

(** Setting the attribute [name] in a list of attributes: an
    attribute of that name takes the value where it stands, a new
    attribute comes last. *)
Definition set_named (name value : jsstring) (props : list (jsstring * jsstring))
    : list (jsstring * jsstring) :=
  if bool_decide (name ∈ props.*1)
  then (fun attribute =>
          if bool_decide (attribute.1 = name) then (name, value) else attribute)
       <$> props
  else props ++ [(name, value)].

(** [element.setAttribute(name, value)] on an HTML element: the name
    is lower-cased. *)
Definition setAttribute (name value : jsstring) (n : node) : node :=
  match n with
  | Element t props cs => Element t (set_named (ascii_lowercase name) value props) cs
  | Text _ => n
  end.

Definition attributes_of (n : node) : list (jsstring * jsstring) :=
  match n with Element _ props _ => props | Text _ => [] end.

Section SecureElement.

Variable parseURL : jsstring -> option URL.
(** whether the DOM accepts the string as a tag or attribute name *)
Variable is_name : jsstring -> bool.

(** [attributes] is the object's keys, in the order of [Object.keys],
    with their values. *)
Definition createSecureElement (tagName : jsstring) (attributes : list (jsstring * value))
    (textContent : value) : completion node :=
  element ← (if is_name tagName then Normal (Element (ascii_lowercase tagName) [] [])
             else Throw (HostError (js "InvalidCharacterError")));
  (* Set attributes safely *)
  element ←
    foldl (fun acc attribute =>
             element ← acc;
             let key := fst attribute in
             let sanitized :=
               if streq key (js "href") && truthy (snd attribute)
               then sanitizeURL parseURL (snd attribute)
               else if streq key (js "src") && truthy (snd attribute)
               then sanitizeURL parseURL (snd attribute)
               else sanitizeText (snd attribute) in
             if is_name key then Normal (setAttribute key sanitized element)
             else Throw (HostError (js "InvalidCharacterError")))
      (Normal element) attributes;
  (* Set text content safely *)
  Normal (if truthy textContent
          then set_textContent (Some (sanitizeText textContent)) element
          else element).

(** The value [createSecureElement] gives to [setAttribute] for one
    attribute. *)
Definition secured (attribute : jsstring * value) : jsstring :=
  if streq (fst attribute) (js "href") && truthy (snd attribute)
  then sanitizeURL parseURL (snd attribute)
  else if streq (fst attribute) (js "src") && truthy (snd attribute)
  then sanitizeURL parseURL (snd attribute)
  else sanitizeText (snd attribute).

End SecureElement.

(** The attribute that sets [name] last, its key taken in lower case. *)
Definition last_setting (name : jsstring) (attributes : list (jsstring * value))
    : option (jsstring * value) :=
  last (filter (fun attribute => ascii_lowercase attribute.1 = name) attributes).

(** A stand-in for what the members of [Object.prototype] have: the
    constructor [Object] has the name [Object], and nothing else is
    read. *)
Definition native_members (member key : jsstring) : option jsstring :=
  if streq member (js "constructor") && streq key (js "name")
  then Some (js "Object") else None.

(** The keys of a translation table whose text is not empty. *)
Definition truthy_keys (t : gmap jsstring jsstring) : gset jsstring :=
  dom (filter (fun kv => kv.2 ≠ []) t).

(** A table of [translations]: it translates the keys the English
    table translates, and has no property named like a member of
    [Object.prototype]. *)
Definition page_table (t : gmap jsstring jsstring) : Prop :=
  truthy_keys t = truthy_keys (currentTranslations_for (js "English"))
  ∧ Forall (λ name, t !! name = None) Object_prototype.

(** * Properties *)

(** ** Sanitizer *)

Lemma replace_go_elem r k s x : x ∈ replace_go r k s → x ∈ s.
Proof.
  revert k. induction s as [|y s IH]; intros k; simpl; [done|].
  destruct k as [|k].
  - destruct (rmatch r (y :: s)) as [rest|].
    + destruct (_ - _)%nat.
      * rewrite !elem_of_cons. intros [->|H]; eauto.
      * intros H. right. eauto.
    + rewrite !elem_of_cons. intros [->|H]; eauto.
  - intros H. right. eauto.
Qed.

Lemma replace_all_elem r s x : x ∈ replace_all r s → x ∈ s.
Proof. apply replace_go_elem. Qed.

Lemma trimStart_elem s x : x ∈ trimStart s → x ∈ s.
Proof.
  induction s as [|y s IH]; simpl; [done|].
  destruct (is_space y); [|done]. intros H. right. auto.
Qed.

Lemma trim_elem s x : x ∈ trim s → x ∈ s.
Proof.
  unfold trim, trimEnd. rewrite elem_of_reverse. intros H.
  apply trimStart_elem in H. rewrite elem_of_reverse in H.
  by apply trimStart_elem.
Qed.

Lemma replace_angle_go k s x :
  x ∈ replace_go re_angle k s → x ≠ LESS_THAN ∧ x ≠ GREATER_THAN.
Proof.
  revert k. induction s as [|y s IH]; intros k; simpl.
  - by intros ?%elem_of_nil.
  - destruct k as [|k]; [|by eauto].
    destruct ((y =? LESS_THAN) || (y =? GREATER_THAN)) eqn:E.
    + replace (S (length s) - length s)%nat with 1%nat by lia. eauto.
    + rewrite elem_of_cons. intros [->|H]; [|by eauto].
      apply orb_false_iff in E as [E1 E2].
      apply N.eqb_neq in E1, E2. done.
Qed.

(** [sanitizeText] only ever removes characters. *)
Lemma sanitizeText_elem s x :
  x ∈ sanitizeText (VStr s) → x ∈ replace_all re_angle s.
Proof.
  simpl. intros H. apply trim_elem in H.
  apply replace_all_elem in H. by apply replace_all_elem in H.
Qed.

(** C6. The output of [sanitizeText] on a string holds neither [<] nor
    [>]; on ["<img onerror=x>"] it holds neither of them nor the
    substring ["onerror="]; on anything that is not a string it is the
    empty string. *)
Theorem sanitizeText_strips_markup :
  (∀ s : jsstring,
      (LESS_THAN ∉ sanitizeText (VStr s)) ∧ (GREATER_THAN ∉ sanitizeText (VStr s)))
  ∧ (let out := sanitizeText (VStr (js "<img onerror=x>")) in
     out = js "img x"
     ∧ (LESS_THAN ∉ out) ∧ (GREATER_THAN ∉ out)
     ∧ str_includes out (js "onerror=") = false)
  ∧ (∀ v : value, is_string v = false → sanitizeText v = []).
Proof.
  assert (Hgen : ∀ s, (LESS_THAN ∉ sanitizeText (VStr s))
                      ∧ (GREATER_THAN ∉ sanitizeText (VStr s))).
  { intros s. split; intros H; apply sanitizeText_elem, replace_angle_go in H;
      destruct H; congruence. }
  split; [exact Hgen|]. split.
  - destruct (Hgen (js "<img onerror=x>")) as [H1 H2].
    split; [by vm_compute|]. split; [exact H1|]. split; [exact H2|by vm_compute].
  - intros [] Hv; try reflexivity. discriminate.
Qed.

Lemma sanitizeText_strips_markup_witness :
  is_string (VNum NaN) = false ∧ sanitizeText (VNum NaN) = [].
Proof.
  split; [reflexivity|].
  apply (proj2 (proj2 sanitizeText_strips_markup) (VNum NaN)). reflexivity.
Defined.

(** A single pass is made: text removed by one replacement can bring
    the two halves of a handler together. *)
Example sanitizeText_single_pass :
  sanitizeText (VStr (js "oonclick=nclick=x")) = js "onclick=x".
Proof. by vm_compute. Qed.

Section SanitizeURL.

Variable parseURL : jsstring -> option URL.

Lemma allowed_protocol u :
  includes [js "http:"; js "https:"] (protocol u) = true ↔ http_or_https u.
Proof.
  unfold http_or_https, includes. rewrite bool_decide_eq_true.
  rewrite !elem_of_cons, elem_of_nil. tauto.
Qed.

(** C2. [sanitizeURL] gives a non-empty string only for a string that
    parses as a URL whose scheme is http or https, and then it gives the
    serialisation of the parsed URL; for any other scheme, for input
    that does not parse and for input that is not a string it gives the
    empty string. *)
Theorem sanitizeURL_http_only (v : value) :
  (sanitizeURL parseURL v ≠ [] →
     ∃ s u, v = VStr s ∧ parseURL s = Some u ∧ http_or_https u
            ∧ sanitizeURL parseURL v = href u)
  ∧ (∀ s u, v = VStr s → parseURL s = Some u → http_or_https u →
       sanitizeURL parseURL v = href u)
  ∧ (∀ s u, v = VStr s → parseURL s = Some u → ¬ http_or_https u →
       sanitizeURL parseURL v = [])
  ∧ (∀ s, v = VStr s → parseURL s = None → sanitizeURL parseURL v = [])
  ∧ (is_string v = false → sanitizeURL parseURL v = []).
Proof.
  repeat split.
  - destruct v as [| | | |s| |]; unfold sanitizeURL; try done.
    destruct (parseURL s) as [u|] eqn:Hp; [|done].
    destruct (includes _ (protocol u)) eqn:E; simpl; [|done].
    intros _. exists s, u. by rewrite <- allowed_protocol.
  - intros s u -> Hp Hu. unfold sanitizeURL. rewrite Hp.
    apply allowed_protocol in Hu. by rewrite Hu.
  - intros s u -> Hp Hu. unfold sanitizeURL. rewrite Hp.
    destruct (includes _ (protocol u)) eqn:E; [|done].
    by apply allowed_protocol in E.
  - intros s -> Hp. unfold sanitizeURL. by rewrite Hp.
  - by destruct v.
Qed.

End SanitizeURL.

Lemma sanitizeURL_http_only_witness :
  sanitizeURL scheme_parser (VStr (js "https://example.org/")) = js "https://example.org/"
  ∧ sanitizeURL scheme_parser (VStr (js "javascript:alert(1)")) = []
  ∧ sanitizeURL scheme_parser (VStr (js "not a url")) = []
  ∧ sanitizeURL scheme_parser VUndefined = [].
Proof.
  pose proof (sanitizeURL_http_only scheme_parser) as H.
  split; [|split; [|split]].
  - destruct (H (VStr (js "https://example.org/"))) as (_ & H2 & _).
    apply (H2 (js "https://example.org/") (Build_URL (js "https:") (js "https://example.org/")));
      [reflexivity|by vm_compute|by right].
  - destruct (H (VStr (js "javascript:alert(1)"))) as (_ & _ & H3 & _).
    apply (H3 (js "javascript:alert(1)") (Build_URL (js "javascript:") (js "javascript:alert(1)")));
      [reflexivity|by vm_compute|].
    intros [E|E]; vm_compute in E; discriminate E.
  - destruct (H (VStr (js "not a url"))) as (_ & _ & _ & H4 & _).
    apply (H4 (js "not a url")); [reflexivity|by vm_compute].
  - destruct (H VUndefined) as (_ & _ & _ & _ & H5). by apply H5.
Defined.

(** ** Filter/projection *)

Lemma keepb_spec language category p :
  keepb language category p = true ↔
  community p = Some category
  ∧ ∃ langs, languages p = Some langs ∧ (language ∈ langs ∨ js "English" ∈ langs).
Proof.
  unfold keepb, includes. destruct (languages p) as [langs|].
  - rewrite andb_true_iff, orb_true_iff, !bool_decide_eq_true. split.
    + intros [H1 H2]. eauto.
    + intros [H2 (? & [= <-] & H1)]. eauto.
  - split; [done|]. by intros [_ (? & ? & _)].
Qed.

Lemma filter_callback_keepb language category p :
  has_languages p = true →
  filter_callback language category p = Normal (keepb language category p).
Proof.
  unfold has_languages, filter_callback, keepb. by destruct (languages p).
Qed.

Lemma filteredPartners_filter dataset language category :
  forallb has_languages dataset = true →
  filteredPartners dataset language category
  = Normal (filter (λ p, keepb language category p = true) dataset).
Proof.
  unfold filteredPartners. induction dataset as [|p ds IH]; simpl; [done|].
  rewrite andb_true_iff. intros [Hp Hds].
  rewrite (filter_callback_keepb _ _ _ Hp), (IH Hds), filter_cons.
  destruct (keepb language category p); by case_decide.
Qed.

(** An entry without a [languages] array makes the filter throw. *)
Lemma filteredPartners_throws dataset language category :
  forallb has_languages dataset = false →
  ∃ e, filteredPartners dataset language category = Throw e.
Proof.
  unfold filteredPartners. induction dataset as [|p ds IH]; simpl; [done|].
  destruct (has_languages p) eqn:Hp; simpl.
  - intros [e He]%IH. rewrite (filter_callback_keepb _ _ _ Hp), He. eauto.
  - intros _. unfold has_languages in Hp. unfold filter_callback.
    destruct (languages p); [done|]. eauto.
Qed.

(** C1. The projection holds exactly the entries of the dataset whose
    category is the selected one and whose languages hold the selected
    language or English; so an entry for English only, in category
    Youth, is in the projection for Greek and Youth and not in the one
    for Greek and Arts. *)
Theorem projection_inclusion (dataset : list partner) (language category : jsstring) :
  forallb has_languages dataset = true →
  ∃ projection,
    filteredPartners dataset language category = Normal projection
    ∧ (∀ p, p ∈ projection ↔
            p ∈ dataset ∧ community p = Some category
            ∧ ∃ langs, languages p = Some langs
                       ∧ (language ∈ langs ∨ js "English" ∈ langs))
    ∧ (∀ p, p ∈ dataset → languages p = Some [js "English"] →
            community p = Some (js "Youth") → language = js "Greek" →
            (category = js "Youth" → p ∈ projection)
            ∧ (category = js "Arts" → p ∉ projection)).
Proof.
  intros Hl. eexists. split; [by apply filteredPartners_filter|].
  assert (Hin : ∀ p, p ∈ filter (λ p, keepb language category p = true) dataset ↔
                     p ∈ dataset ∧ community p = Some category
                     ∧ ∃ langs, languages p = Some langs
                                ∧ (language ∈ langs ∨ js "English" ∈ langs)).
  { intros p. rewrite list_elem_of_filter, keepb_spec. tauto. }
  split; [exact Hin|].
  intros p Hp Hlangs Hc ->. split.
  - intros ->. apply Hin. split; [done|]. split; [done|].
    exists [js "English"]. split; [done|]. right. by left.
  - intros -> [_ [Hc' _]]%Hin. rewrite Hc in Hc'. by vm_compute in Hc'.
Qed.

Lemma projection_inclusion_witness :
  forallb has_languages partners = true
  ∧ ∃ projection,
      filteredPartners partners (js "Greek") (js "Youth") = Normal projection
      ∧ ∀ p, p ∈ partners → languages p = Some [js "English"] →
             community p = Some (js "Youth") → p ∈ projection.
Proof.
  split; [by vm_compute|].
  destruct (projection_inclusion partners (js "Greek") (js "Youth"))
    as (projection & Hp & _ & Hyouth); [by vm_compute|].
  exists projection. split; [exact Hp|].
  intros p H1 H2 H3. by apply (Hyouth p H1 H2 H3).
Defined.

(** The projection run on the hardcoded dataset. *)
Example partners_greek_youth :
  ∃ youth arts,
    filteredPartners partners (js "Greek") (js "Youth") = Normal youth
    ∧ name <$> youth = [Some (js "PCYC St George")]
    ∧ filteredPartners partners (js "Greek") (js "Arts") = Normal arts
    ∧ name <$> arts = [Some (js "Shopfront Arts Co-op"); Some (js "Bus Stop Films")].
Proof.
  do 2 eexists. split; [by vm_compute|]. split; [by vm_compute|].
  split; by vm_compute.
Qed.

(** ** QR generator *)

Section QrGenerator.

Variable security : bool.
Variable parseURL : jsstring -> option URL.
Variable qrcode : option (option jsstring -> completion QRCode).
Variable getContext2d : bool.
Variable toDataURL : canvas -> completion jsstring.

Local Abbreviation generate :=
  (generateQrCode security parseURL qrcode getContext2d toDataURL).
Local Abbreviation attempt :=
  (generateQrCode_try security parseURL qrcode getContext2d toDataURL).

Lemma generateQrCode_cases url :
  (∃ img, attempt url = Normal img ∧ generate url = Normal img)
  ∨ (throws (attempt url) ∧ generate url = Normal (placeholder url)).
Proof.
  unfold generateQrCode, try_catch, throws.
  destruct (generateQrCode_try _ _ _ _ _ url) as [img|e]; eauto.
Qed.

Lemma generateQrCode_returns url : ∃ el, generate url = Normal el.
Proof. destruct (generateQrCode_cases url) as [(img & _ & H)|[_ H]]; eauto. Qed.

Lemma placeholder_title url :
  prop "title" (placeholder url) = Some (js "QR code for " ++ show url).
Proof. by vm_compute. Qed.

Lemma invalid_url_throws url :
  (security = true ∧ sanitizeURL parseURL (str_value url) = [])
  ∨ (security = false ∧ parseURL (show url) = None) →
  throws (attempt url).
Proof.
  unfold generateQrCode_try, throws.
  intros [[-> H]|[-> H]]; rewrite H; simpl; eauto.
Qed.

Lemma encoder_failure_throws url :
  qrcode = None
  ∨ (∃ encode, qrcode = Some encode ∧ ∀ data, throws (encode data))
  ∨ getContext2d = false
  ∨ (∀ c, throws (toDataURL c)) →
  throws (attempt url).
Proof.
  unfold generateQrCode_try, throws. intros H.
  destruct (if security then _ else _) as [sanitizedUrl|e]; simpl; [|by eauto].
  destruct qrcode as [encode|]; simpl; [|by eauto].
  destruct (encode sanitizedUrl) as [qr|e] eqn:Henc; simpl; [|by eauto].
  destruct H as [H|[(enc & [= <-] & H)|H]]; [done| |].
  { destruct (H sanitizedUrl) as [e He]. congruence. }
  destruct getContext2d; simpl; [|by eauto].
  destruct H as [H|H]; [done|].
  destruct (toDataURL _) as [src|e] eqn:Hsrc; simpl; [|by eauto].
  match type of Hsrc with
  | toDataURL ?c = _ => destruct (H c) as [e He]
  end.
  rewrite He in Hsrc. discriminate Hsrc.
Qed.

(** C4, as the code has it. [generateQrCode] always returns an element
    and never throws.  The returned element is the placeholder, whose
    title carries the raw URL, whenever the body fails: when the
    sanitizer is installed and rejects the URL, when no sanitizer is
    installed and the URL does not parse, when the QR library is
    missing or its encoder throws, when the canvas gives no context or
    cannot be exported. *)
Theorem generateQrCode_never_throws (url : option jsstring) :
  ∃ el,
    generate url = Normal el
    ∧ (throws (attempt url) → el = placeholder url)
    ∧ (security = true → sanitizeURL parseURL (str_value url) = [] →
       el = placeholder url)
    ∧ (security = false → parseURL (show url) = None → el = placeholder url)
    ∧ (qrcode = None
       ∨ (∃ encode, qrcode = Some encode ∧ ∀ data, throws (encode data))
       ∨ getContext2d = false
       ∨ (∀ c, throws (toDataURL c)) →
       el = placeholder url)
    ∧ prop "title" (placeholder url) = Some (js "QR code for " ++ show url)
    ∧ textContent (placeholder url) = js "QR Code".
Proof.
  assert (Hthrow : ∀ el, generate url = Normal el → throws (attempt url) →
                         el = placeholder url).
  { intros el Hel [e He].
    destruct (generateQrCode_cases url) as [(img & Himg & _)|[_ H]]; congruence. }
  destruct (generateQrCode_returns url) as [el Hel]. exists el.
  split; [done|]. split; [by apply Hthrow|].
  split; [intros; apply Hthrow, invalid_url_throws; auto|].
  split; [intros; apply Hthrow, invalid_url_throws; auto|].
  split; [intros; by apply Hthrow, encoder_failure_throws|].
  split; [apply placeholder_title|by vm_compute].
Qed.

End QrGenerator.

Lemma generateQrCode_never_throws_witness :
  ∃ el,
    generateQrCode true scheme_parser (Some checker_qr) true png_stub
      (Some (js "javascript:alert(1)")) = Normal el
    ∧ el = placeholder (Some (js "javascript:alert(1)"))
    ∧ prop "title" el = Some (js "QR code for javascript:alert(1)").
Proof.
  destruct (generateQrCode_never_throws true scheme_parser (Some checker_qr) true
              png_stub (Some (js "javascript:alert(1)")))
    as (el & Hel & _ & Hsan & _ & _ & Htitle & _).
  exists el. split; [exact Hel|].
  assert (E : el = placeholder (Some (js "javascript:alert(1)"))).
  { apply Hsan; [reflexivity|by vm_compute]. }
  split; [exact E|]. rewrite E. exact Htitle.
Defined.

(** Without a [SecurityManager] the URL is only parsed, not sanitized:
    a URL the sanitizer rejects is then encoded all the same. *)
Lemma generateQrCode_without_sanitizer :
  ¬ (∀ security parseURL qrcode getContext2d toDataURL (url : jsstring),
       sanitizeURL parseURL (VStr url) = [] →
       generateQrCode security parseURL qrcode getContext2d toDataURL (Some url)
       = Normal (placeholder (Some url))).
Proof.
  intros H.
  specialize (H false scheme_parser (Some checker_qr) true png_stub
                (js "javascript:alert(1)")).
  assert (E := H ltac:(by vm_compute)). vm_compute in E. discriminate E.
Qed.

Example generateQrCode_without_sanitizer_image :
  ∃ img,
    generateQrCode false scheme_parser (Some checker_qr) true png_stub
      (Some (js "javascript:alert(1)")) = Normal img
    ∧ prop "alt" img = Some (js "QR code for javascript:alert(1)")
    ∧ prop "title" img = None.
Proof. eexists. split; [by vm_compute|]. split; by vm_compute. Qed.

(** ** Renderer *)

Lemma clear_children_twice n : clear_children (clear_children n) = clear_children n.
Proof. by destruct n. Qed.

Lemma clear_appendChild c n : clear_children (appendChild c n) = clear_children n.
Proof. by destruct n. Qed.

Lemma set_textContent_twice v n :
  set_textContent v (set_textContent v n) = set_textContent v n.
Proof. by destruct n. Qed.

Section Display.

Variable security : bool.
Variable parseURL : jsstring -> option URL.
Variable qrcode : option (option jsstring -> completion QRCode).
Variable getContext2d : bool.
Variable toDataURL : canvas -> completion jsstring.
Variable nativeText : jsstring -> jsstring.

Local Abbreviation redraw :=
  (updateDisplay security parseURL qrcode getContext2d toDataURL nativeText).
Local Abbreviation card_of :=
  (list_card security parseURL qrcode getContext2d toDataURL).
Local Abbreviation render :=
  (render_all security parseURL qrcode getContext2d toDataURL nativeText).

Local Abbreviation render_one :=
  (render_partner security parseURL qrcode getContext2d toDataURL nativeText).

(** Rendering entries only appends to the list element. *)
Lemma render_partner_clear language tr p v :
  clear_children (render_one language tr p v).1.1 = clear_children v.1.
Proof.
  unfold render_partner.
  destruct (description_for p language) as [description|]; [|done].
  destruct (list_card _ _ _ _ _ _ _ _) as [listItem|]; [|done].
  destruct (lat p) as [la|], (lng p) as [ln|]; simpl; try apply clear_appendChild.
  destruct (number_truthy la && number_truthy ln); [|apply clear_appendChild].
  destruct (popup_content _ _ _ _ _ _ _ _); apply clear_appendChild.
Qed.

Lemma render_all_clear language tr ps v :
  clear_children (render language tr ps v).1.1 = clear_children v.1.
Proof.
  revert v. induction ps as [|p ps IH]; intros v; simpl; [done|].
  pose proof (render_partner_clear language tr p v) as Hp.
  destruct (render_partner _ _ _ _ _ _ _ _ p v) as [v' [e|]]; simpl in *; [done|].
  by rewrite IH.
Qed.

(** [updateDisplay] leaves the filter state and the dataset alone. *)
Lemma updateDisplay_state pg :
  selectedLanguage (redraw pg).1 = selectedLanguage pg
  ∧ selectedCommunity (redraw pg).1 = selectedCommunity pg
  ∧ sanitizedPartners (redraw pg).1 = sanitizedPartners pg.
Proof.
  unfold updateDisplay.
  destruct (organisationList pg), (markerLayer pg); try done.
  destruct (filteredPartners _ _ _) as [fp|e]; [|done].
  destruct (bool_decide _); [done|]. by destruct (render_all _ _ _ _ _ _ _ _ _ _).
Qed.

(** Redrawing replaces the previous views: a second call changes
    nothing. *)
Lemma updateDisplay_idempotent pg :
  redraw (redraw pg).1 = redraw pg.
Proof.
  unfold updateDisplay.
  destruct pg as [lang cat ds [ol|] hd [ml|]]; simpl; try done.
  assert (Hhd : ∀ v, set_textContent v <$> (set_textContent v <$> hd)
                     = set_textContent v <$> hd).
  { intros v. destruct hd; simpl; [|done]. by rewrite set_textContent_twice. }
  destruct (filteredPartners ds lang cat) as [fp|e] eqn:Hfp; simpl.
  - destruct (bool_decide (length fp = 0%nat)) eqn:Hlen; simpl.
    + by rewrite Hfp, Hlen, clear_appendChild, clear_children_twice, Hhd.
    + destruct (render_all _ _ _ _ _ _ _ _ _ _) as [v e] eqn:Hv. simpl.
      assert (Hclear : clear_children v.1 = clear_children ol).
      { pose proof (render_all_clear lang (currentTranslations_for lang) fp
                      (clear_children ol, [])) as H.
        rewrite Hv in H. simpl in H. by rewrite H, clear_children_twice. }
      by rewrite Hfp, Hlen, Hclear, Hv, Hhd.
  - by rewrite Hfp, clear_children_twice, Hhd.
Qed.

(** C7. The projection is the dataset filtered in place: a sublist of
    the dataset in its original order.  It is a function of the dataset
    and the selection, which drawing the page does not change: run
    again after [updateDisplay] it gives the same result, and a second
    [updateDisplay] gives the same page. *)
Theorem projection_stable :
  (∀ (dataset : list partner) (language category : jsstring),
      forallb has_languages dataset = true →
      ∃ projection,
        filteredPartners dataset language category = Normal projection
        ∧ projection `sublist_of` dataset
        ∧ projection = filter (λ p, keepb language category p = true) dataset)
  ∧ (∀ pg : page,
       filteredPartners (sanitizedPartners (redraw pg).1)
         (selectedLanguage (redraw pg).1) (selectedCommunity (redraw pg).1)
       = filteredPartners (sanitizedPartners pg) (selectedLanguage pg)
           (selectedCommunity pg)
       ∧ redraw (redraw pg).1 = redraw pg).
Proof.
  split.
  - intros dataset language category Hl.
    eexists. split; [by apply filteredPartners_filter|].
    split; [apply sublist_filter|done].
  - intros pg. destruct (updateDisplay_state pg) as (-> & -> & ->).
    split; [done|apply updateDisplay_idempotent].
Qed.

(** The description paragraph of a card. *)
Lemma list_card_paragraph p description currentTranslations :
  ∃ card details,
    card_of p description currentTranslations = Normal card
    ∧ children_of card !! 0%nat = Some details
    ∧ children_of details !! 1%nat
      = Some (set_textContent description
                (with_class "item-description" (createElement "p"))).
Proof.
  unfold list_card, qr_of.
  destruct (generateQrCode_returns security parseURL qrcode getContext2d toDataURL
              (website p)) as [qr ->].
  cbn [mbind completion_bind].
  destruct (has_email p); do 2 eexists; (split; [reflexivity|]); split; reflexivity.
Qed.

Lemma description_paragraph_text description :
  let paragraph :=
    set_textContent description (with_class "item-description" (createElement "p")) in
  prop "className" paragraph = Some (js "item-description")
  ∧ textContent paragraph = default [] description.
Proof.
  destruct description as [[|c s]|]; (split; [by vm_compute|]); try done.
  unfold textContent. simpl. by rewrite app_nil_r.
Qed.

Lemma describe_own d language :
  is_Some (d !! language) ∨ language ∉ Object_prototype →
  describe d language = own (d !! language).
Proof.
  unfold describe, read, own. intros [[text ->]|H]; [done|].
  destruct (d !! language); [done|]. by rewrite bool_decide_eq_false_2.
Qed.

Lemma describe_inherited d language :
  d !! language = None → language ∈ Object_prototype →
  describe d language = Inherited language.
Proof. unfold describe, read. intros -> H. by rewrite bool_decide_eq_true_2. Qed.

Lemma English_not_inherited : js "English" ∉ Object_prototype.
Proof.
  assert (H : bool_decide (js "English" ∈ Object_prototype) = false) by by vm_compute.
  by apply bool_decide_eq_false_1 in H.
Qed.

Lemma describe_present d language :
  present (d !! language) ↔ ∃ text, describe d language = Own text ∧ text ≠ [].
Proof.
  unfold present, describe, read. destruct (d !! language) as [s|].
  - split; intros (t & [= <-] & H); eauto.
  - split; [by intros (t & ? & _)|]. intros (t & H & _). by case_bool_decide.
Qed.


End Display.

Lemma projection_stable_witness :
  ∃ projection,
    filteredPartners partners (js "English") (js "Arts") = Normal projection
    ∧ projection `sublist_of` partners
    ∧ name <$> projection = [Some (js "Shopfront Arts Co-op"); Some (js "Bus Stop Films")].
Proof.
  destruct (proj1 (projection_stable true scheme_parser (Some checker_qr) true png_stub
                     native_code)
              partners (js "English") (js "Arts"))
    as (projection & Hp & Hsub & Hf); [by vm_compute|].
  exists projection. split; [exact Hp|]. split; [exact Hsub|].
  rewrite Hf. by vm_compute.
Defined.



Example description_inherited_member_shown :
  description_for test_org (js "constructor") = Normal (Inherited (js "constructor"))
  ∧ as_text native_code (Inherited (js "constructor"))
    = Some (js "function constructor() { [native code] }").
Proof. split; by vm_compute. Qed.

(** With an empty description for the selected language the English one
    is shown. *)
Example description_empty_falls_back :
  description_for
    (Partner (name test_org) (lat test_org) (lng test_org) (community test_org)
       (languages test_org) (Some (<[ js "Greek" := [] ]> {[ js "English" := js "desc" ]}))
       (address test_org) (phone test_org) (email test_org) (website test_org))
    (js "Greek") = Normal (Own (js "desc")).
Proof. by vm_compute. Qed.

(** ** Offline cache manager *)

Lemma caches_keys_elem (c : gmap jsstring (gmap jsstring jsstring)) cacheName :
  cacheName ∈ caches_keys c ↔ is_Some (c !! cacheName).
Proof.
  unfold caches_keys. rewrite list_elem_of_fmap. split.
  - intros ([k v] & Hk & H). simpl in Hk. subst k.
    apply elem_of_map_to_list in H. eauto.
  - intros [v H]. exists (cacheName, v). by rewrite elem_of_map_to_list.
Qed.

Lemma delete_all_lookup (names : list jsstring)
    (c : gmap jsstring (gmap jsstring jsstring)) cacheName :
  foldl (λ c cacheName, caches_delete cacheName c) c names !! cacheName
  = if decide (cacheName ∈ names) then None else c !! cacheName.
Proof.
  revert c. induction names as [|k names IH]; intros c; cbn [foldl].
  - rewrite decide_False; [done|]. apply not_elem_of_nil.
  - rewrite IH. unfold caches_delete.
    destruct (decide (cacheName ∈ names)) as [Hin|Hin].
    + rewrite decide_True; [done|]. by right.
    + destruct (decide (cacheName = k)) as [->|Hne].
      * rewrite lookup_delete_eq, decide_True; [done|]. by left.
      * rewrite lookup_delete_ne by done. rewrite decide_False; [done|].
        rewrite elem_of_cons. tauto.
Qed.

Lemma activate_lookup (CACHE_NAME : jsstring) (w : worker) cacheName :
  caches (activate CACHE_NAME w) !! cacheName
  = if decide (cacheName = CACHE_NAME) then caches w !! cacheName else None.
Proof.
  unfold activate. simpl. rewrite delete_all_lookup.
  destruct (decide (cacheName = CACHE_NAME)) as [->|Hne].
  - rewrite decide_False; [done|]. rewrite list_elem_of_filter. tauto.
  - case_decide as Hin; [done|].
    rewrite list_elem_of_filter, caches_keys_elem in Hin.
    destruct (caches w !! cacheName) eqn:E; [|done]. destruct Hin. eauto.
Qed.

Lemma activate_dom (CACHE_NAME : jsstring) (w : worker) :
  dom (caches (activate CACHE_NAME w)) = dom (caches w) ∩ {[ CACHE_NAME ]}.
Proof.
  apply set_eq. intros n.
  rewrite elem_of_intersection, elem_of_singleton, !elem_of_dom, activate_lookup.
  case_decide; [tauto|]. split; [by intros [??]|tauto].
Qed.

(** C5. After [activate], the caches left in storage are those of the
    storage before whose name is the current version tag: every other
    cache is deleted, the current one is kept as it was, and the worker
    has claimed its clients. *)
Theorem activate_prunes_stale_caches (CACHE_NAME : jsstring) (w : worker) :
  dom (caches (activate CACHE_NAME w)) = dom (caches w) ∩ {[ CACHE_NAME ]}
  ∧ dom (caches (activate CACHE_NAME w)) ⊆ {[ CACHE_NAME ]}
  ∧ (∀ cacheName,
       caches (activate CACHE_NAME w) !! cacheName
       = if decide (cacheName = CACHE_NAME) then caches w !! cacheName else None)
  ∧ clients_claimed (activate CACHE_NAME w) = true.
Proof.
  split; [apply activate_dom|]. split; [|split; [apply activate_lookup|done]].
  rewrite activate_dom. apply intersection_subseteq_r.
Qed.

(** The storage [{v1, v2-current}] under the tag [v2-current], and a
    stale cache next to the tag of the source. *)
Example activate_v1_v2 :
  dom (caches (activate (js "v2-current")
                 (Worker (<[ js "v1" := {[ js "/" := js "old" ]} ]>
                            {[ js "v2-current" := {[ js "/" := js "new" ]} ]}) false)))
  = {[ js "v2-current" ]}
  ∧ dom (caches (activate community_resources_v1
                   (Worker (<[ js "community-resources-v0" := ∅ ]>
                              {[ community_resources_v1 := {[ js "/" := js "page" ]} ]})
                      false)))
    = {[ community_resources_v1 ]}.
Proof.
  split.
  - rewrite activate_dom. simpl.
    rewrite dom_insert_L, dom_singleton_L. apply set_eq. intros n.
    rewrite elem_of_intersection, elem_of_union, !elem_of_singleton.
    split; [tauto|]. intros ->. tauto.
  - rewrite activate_dom. simpl.
    rewrite dom_insert_L, dom_singleton_L. apply set_eq. intros n.
    rewrite elem_of_intersection, elem_of_union, !elem_of_singleton.
    split; [tauto|]. intros ->. tauto.
Qed.

(** ** Data validator *)

Lemma get_name p : get p (js "name") = str_value (name p).
Proof. reflexivity. Qed.
Lemma get_lat p : get p (js "lat") = num_value (lat p).
Proof. reflexivity. Qed.
Lemma get_lng p : get p (js "lng") = num_value (lng p).
Proof. reflexivity. Qed.
Lemma get_email p : get p (js "email") = str_value (email p).
Proof. reflexivity. Qed.
Lemma get_website p : get p (js "website") = str_value (website p).
Proof. reflexivity. Qed.

Lemma required_but_email :
  filter (fun field => field ≠ js "email") requiredFields
  = [js "name"; js "lat"; js "lng"; js "community"; js "languages";
     js "description"; js "address"; js "phone"; js "website"].
Proof. by vm_compute. Qed.

Lemma num_truthy_is_Some (o : option number) :
  truthy (num_value o) = true → bool_decide (is_Some o) = true.
Proof. destruct o; [|done]. intros _. apply bool_decide_eq_true. eauto. Qed.

Section ValidatorProperties.

Variable parseURL : jsstring -> option URL.

Local Abbreviation check := (check_partner parseURL).
Local Abbreviation validate := (validatePartnerData parseURL).

(** The checks after the required fields, for an entry that passes
    them, leave the errors as they are. *)
Lemma contents_ok_no_error p index l :
  contents_ok parseURL p = true →
  bool_decide (is_Some (lat p)) = true → bool_decide (is_Some (lng p)) = true →
  log_errors (check p index l) = log_errors (check_required p index l).
Proof.
  unfold contents_ok, check_partner. rewrite !andb_true_iff.
  intros [[[Hc He] Hw] Hd] Hlat Hlng.
  rewrite Hlat, Hlng, Hc, Hw. cbn [negb orb andb when].
  rewrite andb_false_r. cbn [when].
  replace (str_truthy (email p) && negb (test_anchored re_email (default [] (email p))))
    with false by (destruct (str_truthy (email p)), (test_anchored _ _); done).
  cbn [when].
  destruct (description p) as [d|]; [|done]. rewrite Hd. cbn [negb when].
  by destruct (match languages p with Some _ => _ | None => _ end).
Qed.

Lemma check_required_all p index l :
  forallb (fun field => truthy (get p field)) requiredFields = true →
  check_required p index l = l.
Proof.
  unfold check_required, forEach. generalize 0%nat. revert l.
  induction requiredFields as [|field fields IH]; intros l k; simpl; [done|].
  rewrite andb_true_iff. intros [-> H]. simpl. by apply IH.
Qed.

Lemma well_formed_no_error p index l :
  well_formed parseURL p = true → log_errors (check p index l) = log_errors l.
Proof.
  unfold well_formed. rewrite andb_true_iff. intros [Hreq Hok].
  assert (Hreq' := Hreq). unfold requiredFields in Hreq'. cbn [forallb] in Hreq'.
  rewrite !andb_true_iff, get_lat, get_lng in Hreq'.
  destruct Hreq' as (_ & Hlat%num_truthy_is_Some & Hlng%num_truthy_is_Some & _).
  by rewrite contents_ok_no_error, check_required_all.
Qed.

(** The one error of an entry that lacks [email] only. *)
Lemma lacks_email_one_error p index l :
  lacks_email_only parseURL p = true →
  log_errors (check p index l)
  = log_errors l ++ [Partner_prefix index (show (name p)) ++ js "Missing " ++ js "email"].
Proof.
  unfold lacks_email_only. rewrite !andb_true_iff, bool_decide_eq_true.
  intros [[Hemail Hreq] Hok]. rewrite required_but_email in Hreq.
  cbn [forallb] in Hreq. rewrite !andb_true_iff in Hreq.
  destruct Hreq as (Hname & Hlat & Hlng & Hcom & Hlangs & Hdesc & Haddr & Hphone
                    & Hweb & _).
  rewrite contents_ok_no_error; [|done|..].
  - unfold check_required, forEach, requiredFields. cbn [forEach_from].
    rewrite Hname, Hlat, Hlng, Hcom, Hlangs, Hdesc, Haddr, Hphone, Hweb.
    rewrite get_email, Hemail. cbn [negb when str_value truthy push_error log_errors].
    rewrite get_name in Hname. unfold str_truthy. by rewrite Hname.
  - rewrite get_lat in Hlat. by apply num_truthy_is_Some.
  - rewrite get_lng in Hlng. by apply num_truthy_is_Some.
Qed.

Lemma forEach_from_app {A St : Type} (f : A → nat → St → St) index xs ys s :
  forEach_from f index (xs ++ ys) s
  = forEach_from f (index + length xs) ys (forEach_from f index xs s).
Proof.
  revert index s. induction xs as [|x xs IH]; intros index s; simpl.
  - by rewrite Nat.add_0_r.
  - rewrite IH. f_equal. lia.
Qed.

Lemma well_formed_all_no_error ps index l :
  forallb (well_formed parseURL) ps = true →
  log_errors (forEach_from check index ps l) = log_errors l.
Proof.
  revert index l. induction ps as [|p ps IH]; intros index l; simpl; [done|].
  rewrite andb_true_iff. intros [Hp Hps].
  by rewrite IH, well_formed_no_error.
Qed.

(** The duplicate check only ever adds a warning. *)
Lemma validate_errors partners :
  errors (validate partners) = log_errors (forEach check partners (Log [] [])).
Proof. unfold validatePartnerData. simpl. by destruct (0 <? _)%nat. Qed.

Lemma validate_isValid partners :
  isValid (validate partners) = bool_decide (errors (validate partners) = []).
Proof.
  rewrite validate_errors. unfold validatePartnerData. simpl.
  destruct (0 <? _)%nat; simpl;
    by destruct (log_errors (forEach check partners (Log [] []))).
Qed.

(** C3. When one entry of the dataset lacks [email] and the entries
    are well-formed otherwise, the validator reports exactly one error,
    which names the index of that entry, its name and the field
    [email], and [isValid] is false; whatever the dataset, [isValid] is
    true exactly when the list of errors is empty. *)
Theorem missing_email_one_error :
  (∀ (before after : list partner) (p : partner),
      forallb (well_formed parseURL) before = true →
      lacks_email_only parseURL p = true →
      forallb (well_formed parseURL) after = true →
      errors (validate (before ++ p :: after))
      = [js "Partner " ++ index_to_string (length before) ++ js " (" ++ show (name p)
         ++ js "): " ++ js "Missing " ++ js "email"]
      ∧ isValid (validate (before ++ p :: after)) = false)
  ∧ (∀ dataset : list partner,
       isValid (validate dataset) = true ↔ errors (validate dataset) = []).
Proof.
  split.
  - intros before after p Hbefore Hp Hafter.
    assert (He : errors (validate (before ++ p :: after))
                 = [Partner_prefix (length before) (show (name p))
                    ++ js "Missing " ++ js "email"]).
    { rewrite validate_errors. unfold forEach. rewrite forEach_from_app. simpl.
      rewrite well_formed_all_no_error by done.
      rewrite lacks_email_one_error by done.
      by rewrite well_formed_all_no_error. }
    split.
    + rewrite He. unfold Partner_prefix. by rewrite <- !app_assoc.
    + by rewrite validate_isValid, He.
  - intros dataset. by rewrite validate_isValid, bool_decide_eq_true.
Qed.

(** The validator consults the URL parser on the websites of the
    entries only. *)
Lemma validate_parser_ext (parseURL' : jsstring -> option URL) partners :
  Forall (λ p, is_Some (parseURL (default [] (website p)))
               ↔ is_Some (parseURL' (default [] (website p)))) partners →
  validate partners = validatePartnerData parseURL' partners.
Proof.
  intros H. unfold validatePartnerData.
  assert (E : ∀ index l, forEach_from check index partners l
                         = forEach_from (check_partner parseURL') index partners l).
  { induction H as [|p ps Hp Hps IH]; intros index l; simpl; [done|].
    rewrite IH. f_equal. unfold check_partner.
    by rewrite (bool_decide_ext _ _ Hp). }
  unfold forEach. by rewrite E.
Qed.

End ValidatorProperties.

Lemma missing_email_one_error_witness :
  errors (validatePartnerData scheme_parser
            (take 5 partners ++ without_email test_org :: drop 5 partners))
  = [js "Partner 5 (Test Org): Missing email"].
Proof.
  refine (eq_trans
            (proj1 (proj1 (missing_email_one_error scheme_parser) _ _ _ _ _ _)) _);
    by vm_compute.
Defined.

Example index_to_string_zero : index_to_string 0 = js "0".
Proof. reflexivity. Qed.

(** An empty string counts as a missing field too. *)
Example empty_email_is_missing :
  errors (validatePartnerData scheme_parser
            [Partner (name test_org) (lat test_org) (lng test_org) (community test_org)
               (languages test_org) (description test_org) (address test_org)
               (phone test_org) (Some []) (website test_org)])
  = [js "Partner 0 (Test Org): Missing email"].
Proof. by vm_compute. Qed.

Lemma partners_static_checks :
  Forall (λ p, is_Some (scheme_parser (default [] (website p)))
               ∧ well_formed scheme_parser p = true) partners.
Proof. apply (bool_decide_eq_true_1 _). by vm_compute. Qed.

Lemma well_formed_parser_ext (parseURL parseURL' : jsstring -> option URL) p :
  (is_Some (parseURL (default [] (website p)))
   ↔ is_Some (parseURL' (default [] (website p)))) →
  well_formed parseURL p = well_formed parseURL' p.
Proof.
  intros H. unfold well_formed, contents_ok. by rewrite (bool_decide_ext _ _ H).
Qed.

(** C10. The hardcoded dataset of eighteen entries passes validation
    with no error and no warning, once the browser's URL parser accepts
    the eighteen website addresses: every entry is well-formed and has
    a language, the names are pairwise distinct, and the categories are
    among the thirteen known ones. *)
Theorem partners_pass_validation (parseURL : jsstring -> option URL) :
  Forall (λ p, is_Some (parseURL (default [] (website p)))) partners →
  validatePartnerData parseURL partners = Validation [] [] true
  ∧ length partners = 18%nat
  ∧ forallb (well_formed parseURL) partners = true
  ∧ forallb (λ p, match languages p with Some (_ :: _) => true | _ => false end)
      partners = true
  ∧ NoDup (name <$> partners)
  ∧ length validCommunities = 13%nat.
Proof.
  intros H. pose proof partners_static_checks as Hs.
  rewrite Forall_forall in H, Hs.
  assert (Hext : ∀ p, p ∈ partners →
                      is_Some (parseURL (default [] (website p)))
                      ↔ is_Some (scheme_parser (default [] (website p)))).
  { intros p Hp. split; intros _; [by apply Hs|by apply H]. }
  split; [|split; [done|split; [|split; [by vm_compute|split; [|done]]]]].
  - rewrite (validate_parser_ext _ scheme_parser); [by vm_compute|].
    by apply Forall_forall.
  - apply forallb_forall. intros p Hp%list_elem_of_In.
    rewrite (well_formed_parser_ext parseURL scheme_parser) by auto.
    rewrite (proj2 (Hs p Hp)). done.
  - apply (bool_decide_eq_true_1 _). by vm_compute.
Qed.

Lemma partners_pass_validation_witness :
  validatePartnerData scheme_parser partners = Validation [] [] true.
Proof.
  apply (partners_pass_validation scheme_parser).
  apply (bool_decide_eq_true_1 _). by vm_compute.
Defined.

(** ** Duplicate names *)

Lemma indexOf_first (l : list (option jsstring)) x j :
  l !! j = Some x →
  ∃ i, indexOf l x = Z.of_nat i ∧ (i ≤ j)%nat ∧ l !! i = Some x
       ∧ ∀ k, (k < i)%nat → l !! k ≠ Some x.
Proof.
  revert j. induction l as [|y l IH]; intros j Hj; [done|]. simpl.
  case_bool_decide as Hy.
  - subst y. exists 0%nat. repeat split; [lia|]. intros k Hk. lia.
  - destruct j as [|j]; [simpl in Hj; congruence|].
    destruct (IH j Hj) as (i & Hi & Hle & Hx & Hmin). exists (S i).
    rewrite Hi. replace (Z.of_nat i <? 0)%Z with false by lia.
    repeat split; [lia|lia|done|].
    intros [|k] Hk; simpl; [congruence|]. apply Hmin. lia.
Qed.

Lemma filter_from_elem {A : Type} (f : A → nat → bool) index l x :
  x ∈ filter_from f index l ↔ ∃ j, l !! j = Some x ∧ f x (index + j)%nat = true.
Proof.
  revert index. induction l as [|y l IH]; intros index; simpl.
  - rewrite elem_of_nil. split; [done|]. by intros (j & ? & _).
  - assert (Hstep : (x = y ∧ f y index = true) ∨ x ∈ filter_from f (S index) l
                    ↔ ∃ j, (y :: l) !! j = Some x ∧ f x (index + j)%nat = true).
    { rewrite IH. split.
      + intros [[-> Hf]|(j & Hj & Hf)].
        * exists 0%nat. by rewrite Nat.add_0_r.
        * exists (S j). by rewrite Nat.add_succ_r.
      + intros ([|j] & Hj & Hf).
        * left. simpl in Hj. injection Hj as ->. by rewrite Nat.add_0_r in Hf.
        * right. exists j. by rewrite Nat.add_succ_r in Hf. }
    rewrite <- Hstep. destruct (f y index) eqn:Hf.
    + rewrite elem_of_cons. tauto.
    + split; [tauto|]. intros [[_ ?]|?]; [done|tauto].
Qed.

(** A name is among the duplicates exactly when two entries bear it. *)
Lemma duplicates_of_elem (names : list (option jsstring)) n :
  n ∈ duplicates_of names ↔
  ∃ i j, (i < j)%nat ∧ names !! i = Some n ∧ names !! j = Some n.
Proof.
  unfold duplicates_of. rewrite filter_from_elem. split.
  - intros (j & Hj & Hf). destruct (indexOf_first names n j Hj) as (i & Hi & Hle & Hx & _).
    rewrite Hi in Hf. exists i, j. split; [|done].
    apply negb_true_iff, Z.eqb_neq in Hf. simpl in Hf. lia.
  - intros (i & j & Hij & Hi & Hj). exists j. split; [done|].
    destruct (indexOf_first names n j Hj) as (i0 & Hi0 & Hle & _ & Hmin).
    rewrite Hi0. apply negb_true_iff, Z.eqb_neq. simpl.
    intros E. assert (i0 = j) by lia. subst i0. by apply (Hmin i).
Qed.

Lemma set_from_elem seen l x : x ∈ set_from seen l ↔ x ∈ l ∧ x ∉ seen.
Proof.
  revert seen. induction l as [|y l IH]; intros seen; simpl.
  - rewrite elem_of_nil. tauto.
  - case_bool_decide as Hy.
    + rewrite IH, elem_of_cons. split; [tauto|].
      intros [[->|?] ?]; [done|tauto].
    + rewrite !elem_of_cons, IH, elem_of_cons. split.
      * intros [->|[? ?]]; [tauto|]. split; [tauto|]. tauto.
      * intros [[->|?] ?]; [tauto|]. destruct (decide (x = y)); tauto.
Qed.

Lemma set_from_NoDup seen l : NoDup (set_from seen l).
Proof.
  revert seen. induction l as [|y l IH]; intros seen; simpl; [constructor|].
  case_bool_decide; [done|]. constructor; [|done].
  rewrite set_from_elem, elem_of_cons. tauto.
Qed.

Lemma filter_none {A : Type} (b : A → bool) (l : list A) :
  Forall (λ x, b x = false) l → filter (λ x, b x = true) l = [].
Proof.
  induction 1 as [|x l Hx Hl IH]; [done|].
  rewrite filter_cons_False; [done|]. by rewrite Hx.
Qed.

Lemma starts_with_app p s : starts_with p (p ++ s) = true.
Proof. induction p as [|c p IH]; simpl; [done|]. by rewrite N.eqb_refl. Qed.

Lemma Partner_prefix_not_duplicate index shown rest :
  is_duplicate_warning (Partner_prefix index shown ++ rest) = false.
Proof. reflexivity. Qed.

Section DuplicateNames.

Variable parseURL : jsstring -> option URL.

Local Abbreviation check := (check_partner parseURL).
Local Abbreviation validate := (validatePartnerData parseURL).

Lemma check_required_warnings p index l :
  log_warnings (check_required p index l) = log_warnings l.
Proof.
  unfold check_required, forEach. generalize 0%nat. revert l.
  induction requiredFields as [|field fields IH]; intros l k; simpl; [done|].
  rewrite IH. by destruct (negb _).
Qed.

Lemma when_error_warnings b msg l :
  log_warnings (when b (push_error msg) l) = log_warnings l.
Proof. by destruct b. Qed.

(** The warnings of the entries are none of them the aggregated one. *)
Lemma check_warnings p index l :
  Forall (λ w, is_duplicate_warning w = false) (log_warnings l) →
  Forall (λ w, is_duplicate_warning w = false) (log_warnings (check p index l)).
Proof.
  intros H. unfold check_partner.
  destruct (match languages p with Some _ => _ | None => _ end); cbn [when].
  - unfold push_warning. cbn [log_warnings].
    rewrite !when_error_warnings, check_required_warnings.
    apply Forall_app. split; [done|]. constructor; [|done].
    apply Partner_prefix_not_duplicate.
  - by rewrite !when_error_warnings, check_required_warnings.
Qed.

Lemma forEach_warnings ps index l :
  Forall (λ w, is_duplicate_warning w = false) (log_warnings l) →
  Forall (λ w, is_duplicate_warning w = false)
    (log_warnings (forEach_from check index ps l)).
Proof.
  revert index l. induction ps as [|p ps IH]; intros index l H; simpl; [done|].
  by apply IH, check_warnings.
Qed.

(** C9. When two entries of the dataset bear the same name, the
    warnings of the validator end with one aggregated warning about
    duplicate names, and no other warning is of that kind; it lists,
    once each, the names borne by two or more entries. *)
Theorem duplicate_names_one_warning (dataset : list partner) :
  (∃ i j p q, (i < j)%nat ∧ dataset !! i = Some p ∧ dataset !! j = Some q
              ∧ name p = name q) →
  ∃ entry_warnings listed,
    warnings (validate dataset)
    = entry_warnings ++ [js "Duplicate names found: " ++ join (js ", ") listed]
    ∧ Forall (λ w, is_duplicate_warning w = false) entry_warnings
    ∧ length (filter (λ w, is_duplicate_warning w = true) (warnings (validate dataset)))
      = 1%nat
    ∧ NoDup listed
    ∧ ∀ n, n ∈ listed ↔
           ∃ i j, (i < j)%nat ∧ (name <$> dataset) !! i = Some n
                  ∧ (name <$> dataset) !! j = Some n.
Proof.
  intros (i & j & p & q & Hij & Hi & Hj & Hpq).
  assert (Hdup : name p ∈ duplicates_of (name <$> dataset)).
  { apply duplicates_of_elem. exists i, j. rewrite !list_lookup_fmap, Hi, Hj. simpl.
    by rewrite Hpq. }
  exists (log_warnings (forEach check dataset (Log [] []))),
         (set_from [] (duplicates_of (name <$> dataset))).
  assert (Hw : warnings (validate dataset)
               = log_warnings (forEach check dataset (Log [] []))
                 ++ [js "Duplicate names found: "
                     ++ join (js ", ") (set_from [] (duplicates_of (name <$> dataset)))]).
  { unfold validatePartnerData. cbn [warnings].
    destruct (duplicates_of (name <$> dataset)) as [|d ds] eqn:E.
    - by apply elem_of_nil in Hdup.
    - reflexivity. }
  assert (Hentries : Forall (λ w, is_duplicate_warning w = false)
                       (log_warnings (forEach check dataset (Log [] [])))).
  { by apply forEach_warnings. }
  split; [exact Hw|]. split; [exact Hentries|]. split; [|split].
  - rewrite Hw, filter_app, (filter_none _ _ Hentries).
    rewrite filter_cons_True; [done|]. apply starts_with_app.
  - apply set_from_NoDup.
  - intros n. rewrite set_from_elem, duplicates_of_elem, elem_of_nil. tauto.
Qed.

End DuplicateNames.

Lemma duplicate_names_one_warning_witness :
  ∃ entry_warnings listed,
    warnings (validatePartnerData scheme_parser [test_org; test_org; test_org])
    = entry_warnings ++ [js "Duplicate names found: " ++ join (js ", ") listed]
    ∧ NoDup listed.
Proof.
  destruct (duplicate_names_one_warning scheme_parser [test_org; test_org; test_org])
    as (entry_warnings & listed & Hw & _ & _ & Hnodup & _).
  - exists 0%nat, 1%nat, test_org, test_org. split; [lia|]. by repeat split.
  - exists entry_warnings, listed. split; [exact Hw|exact Hnodup].
Defined.

(** Three entries with one name: one warning, naming it once. *)
Example three_namesakes_one_warning :
  warnings (validatePartnerData scheme_parser [test_org; test_org; test_org])
  = [js "Duplicate names found: Test Org"].
Proof. by vm_compute. Qed.

(** ** The page on concrete data *)

(** An encoder that rejects its data, as the QR library does when the
    data is too long. *)
Definition overflowing_qr (data : option jsstring) : completion QRCode :=
  Throw (HostError (js "code length overflow")).

Example generateQrCode_encoder_failure :
  generateQrCode true scheme_parser (Some overflowing_qr) true png_stub
    (Some (js "https://example.org"))
  = Normal (placeholder (Some (js "https://example.org"))).
Proof. by vm_compute. Qed.

(** Sanitizing leaves the hardcoded dataset as it is. *)
Example partners_already_clean :
  sanitizePartnerData scheme_parser partners = Normal partners.
Proof. by vm_compute. Qed.

Definition scenario (category : string) : page :=
  Page (js "English") (js category) [test_org]
    (Some (createElement "ul")) (Some (createElement "h2")) (Some []).

(** The scenario of the specification: one card and one marker for
    Arts; for Youth no marker and the "no services" item. *)
Example scenario_arts :
  let pg := (updateDisplay true scheme_parser (Some checker_qr) true png_stub native_code
               (scenario "Arts")).1 in
  (length ∘ children_of <$> organisationList pg) = Some 1%nat
  ∧ (length <$> markerLayer pg) = Some 1%nat
  ∧ (textContent <$> listHeader pg) = Some (js "Service Directory").
Proof. by vm_compute. Qed.

Example scenario_youth :
  let pg := (updateDisplay true scheme_parser (Some checker_qr) true png_stub native_code
               (scenario "Youth")).1 in
  let item := no_results_item (currentTranslations_for (js "English")) in
  (children_of <$> organisationList pg) = Some [item]
  ∧ markerLayer pg = Some []
  ∧ (textContent <$> children_of item !! 0%nat)
    = Some (js "No services found for this category.").
Proof. by vm_compute. Qed.


(** * Further properties *)

(** ** The matcher against the patterns it runs *)

Lemma rmatch_one c r x s :
  rmatch (One c :: r) (x :: s) = if c x then rmatch r s else None.
Proof. reflexivity. Qed.

Lemma rmatch_plus c r x s :
  rmatch (Plus c :: r) (x :: s)
  = if c x then
      match rmatch (Plus c :: r) s with
      | Some rest => Some rest
      | None => rmatch r s
      end
    else None.
Proof. reflexivity. Qed.

Lemma rmatch_plus_false c r x s : c x = false → rmatch (Plus c :: r) (x :: s) = None.
Proof. intros H. by rewrite rmatch_plus, H. Qed.

Lemma rmatch_plus_true c r x s :
  c x = true →
  rmatch (Plus c :: r) (x :: s)
  = match rmatch (Plus c :: r) s with
    | Some rest => Some rest
    | None => rmatch r s
    end.
Proof. intros H. by rewrite rmatch_plus, H. Qed.

Lemma not_is_Some_None {A : Type} : ¬ is_Some (@None A).
Proof. by intros [? [=]]. Qed.

(** [Plus] finds a match exactly when some non-empty run of the class
    can be followed by a match of the rest. *)
Lemma rmatch_plus_Some c r s :
  is_Some (rmatch (Plus c :: r) s) ↔
  ∃ run s', s = run ++ s' ∧ run ≠ [] ∧ Forall (λ x, c x = true) run
            ∧ is_Some (rmatch r s').
Proof.
  induction s as [|x s IH].
  - split; [by intros ?%not_is_Some_None|]. intros (run & s' & H & Hne & _).
    by destruct run.
  - split.
    + destruct (c x) eqn:Hx.
      * rewrite rmatch_plus_true by done.
        destruct (rmatch (Plus c :: r) s) as [rest|] eqn:Hs.
        -- intros _. destruct (proj1 IH) as (run & s' & -> & _ & Hrun & Hr); [by eauto|].
           exists (x :: run), s'. repeat split; [done|by constructor|done].
        -- intros Hr. exists [x], s. repeat split; [done|by repeat constructor|done].
      * rewrite rmatch_plus_false by done. by intros ?%not_is_Some_None.
    + intros (run & s' & H & Hne & Hrun & Hr). destruct run as [|y run]; [done|].
      simpl in H. injection H as <- ->. inversion Hrun as [|?? Hy Hrun']; subst.
      rewrite rmatch_plus_true by done. destruct run as [|z run].
      * simpl app. by destruct (rmatch (Plus c :: r) s').
      * destruct (proj2 IH) as [rest ->]; [|by eauto].
        exists (z :: run), s'. by repeat split.
Qed.

Lemma rmatch_one_Some c r s :
  is_Some (rmatch (One c :: r) s) ↔ ∃ x s', s = x :: s' ∧ c x = true ∧ is_Some (rmatch r s').
Proof.
  destruct s as [|x s].
  - split; [by intros ?%not_is_Some_None|]. by intros (? & ? & [=] & _).
  - rewrite rmatch_one. destruct (c x) eqn:Hx.
    + split; [by eauto|]. by intros (? & ? & [= <- <-] & _ & ?).
    + split; [by intros ?%not_is_Some_None|]. intros (? & ? & [= <- <-] & ? & _).
      congruence.
Qed.

Lemma rmatch_end_Some s : is_Some (rmatch [AtEnd] s) ↔ s = [].
Proof.
  destruct s; simpl.
  - split; [done|]. by eauto.
  - split; [by intros ?%not_is_Some_None|done].
Qed.

(** The email pattern accepts exactly the strings of the shape
    [local@domain.tld]. *)
Lemma re_email_shape s : test_anchored re_email s = true ↔ email_shape s.
Proof.
  unfold test_anchored, re_email, email_shape.
  change (fun c : N => negb (is_space c || (c =? chr "@"))) with plain.
  transitivity (is_Some (rmatch
    [Plus plain; One (lit (chr "@")); Plus plain; One (lit (chr ".")); Plus plain; AtEnd] s)).
  { destruct (rmatch _ s).
    - split; [by eauto|done].
    - split; [done|by intros ?%not_is_Some_None]. }
  rewrite rmatch_plus_Some. split.
  - intros (a & s1 & -> & Ha & Hpa & H).
    apply rmatch_one_Some in H as (x & s2 & -> & Hx%N.eqb_eq & H). subst x.
    apply rmatch_plus_Some in H as (b & s3 & -> & Hb & Hpb & H).
    apply rmatch_one_Some in H as (y & s4 & -> & Hy%N.eqb_eq & H). subst y.
    apply rmatch_plus_Some in H as (c & s5 & -> & Hc & Hpc & H).
    apply rmatch_end_Some in H as ->. rewrite app_nil_r.
    exists a, b, c. repeat split; try done. by rewrite !Forall_app.
  - intros (a & b & c & -> & Ha & Hb & Hc & Hp).
    rewrite !Forall_app in Hp. destruct Hp as (Hpa & Hpb & Hpc).
    exists a, (chr "@" :: b ++ chr "." :: c).
    split; [done|]. split; [done|]. split; [done|].
    apply rmatch_one_Some. exists (chr "@"), (b ++ chr "." :: c).
    split; [done|]. split; [apply N.eqb_refl|].
    apply rmatch_plus_Some. exists b, (chr "." :: c).
    split; [done|]. split; [done|]. split; [done|].
    apply rmatch_one_Some. exists (chr "."), c.
    split; [done|]. split; [apply N.eqb_refl|].
    apply rmatch_plus_Some. exists c, []. rewrite app_nil_r.
    split; [done|]. split; [done|]. split; [done|].
    by apply rmatch_end_Some.
Qed.

(** A pattern of one character class: replacing all its matches drops
    the characters of the class. *)
Lemma replace_all_one (c : N → bool) (s : jsstring) :
  replace_all [One c] s = filter (λ x, c x = false) s.
Proof.
  unfold replace_all. induction s as [|x s IH]; [done|].
  cbn [replace_go]. rewrite rmatch_one. cbn [rmatch].
  destruct (c x) eqn:Hx.
  - replace (length (x :: s) - length s)%nat with 1%nat by (simpl; lia).
    rewrite filter_cons_False; [done|]. by rewrite Hx.
  - rewrite filter_cons_True by done. by rewrite IH.
Qed.

(** ** Sanitizer: phone, email and text *)

(** X1. [sanitizePhone] keeps, in their order, exactly the characters
    that are digits, [+], [(], [)], [-] or white space; so it changes
    nothing in its own output, and anything but a string gives the
    empty string. *)
Theorem sanitizePhone_keeps_phone_characters :
  (∀ s : jsstring,
      sanitizePhone (VStr s) = filter (λ c, is_phone_char c = true) s
      ∧ Forall (λ c, is_phone_char c = true) (sanitizePhone (VStr s))
      ∧ sanitizePhone (VStr (sanitizePhone (VStr s))) = sanitizePhone (VStr s))
  ∧ (∀ v : value, is_string v = false → sanitizePhone v = []).
Proof.
  assert (H : ∀ s, sanitizePhone (VStr s) = filter (λ c, is_phone_char c = true) s).
  { intros s. unfold sanitizePhone, re_not_phone. rewrite replace_all_one.
    apply list_filter_iff. intros c. unfold is_phone_char.
    by rewrite negb_false_iff. }
  split.
  - intros s. split; [apply H|]. split.
    + rewrite H. apply Forall_forall. by intros c [Hc _]%list_elem_of_filter.
    + rewrite !H. apply list_filter_filter_l. auto.
  - by intros [].
Qed.

Lemma sanitizePhone_keeps_phone_characters_witness :
  is_string VNull = false ∧ sanitizePhone VNull = [].
Proof.
  split; [reflexivity|].
  by apply (proj2 sanitizePhone_keeps_phone_characters).
Defined.

Lemma sanitizeEmail_cases s :
  (email_shape s ∧ sanitizeEmail (VStr s) = s)
  ∨ (¬ email_shape s ∧ sanitizeEmail (VStr s) = []).
Proof.
  unfold sanitizeEmail. destruct (test_anchored re_email s) eqn:E.
  - left. by rewrite <- re_email_shape.
  - right. split; [|done]. rewrite <- re_email_shape. congruence.
Qed.

Lemma plain_no_at l :
  Forall (λ x, plain x = true) l →
  filter (λ c, c = chr "@") l = [] ∧ Forall (λ c, is_space c = false) l.
Proof.
  induction 1 as [|x l Hx Hl [IH1 IH2]]; [done|].
  unfold plain in Hx. apply negb_true_iff, orb_false_iff in Hx as [Hs Hat].
  apply N.eqb_neq in Hat. split.
  - by rewrite filter_cons_False.
  - by constructor.
Qed.

(** X2. [sanitizeEmail] returns its input when the input has the shape
    [local@domain.tld] (three non-empty parts without white space or
    [@]) and the empty string otherwise; a string it lets through holds
    exactly one [@] and no white space; it changes nothing in its own
    output. *)
Theorem sanitizeEmail_accepts_addresses (s : jsstring) :
  (email_shape s → sanitizeEmail (VStr s) = s)
  ∧ (¬ email_shape s → sanitizeEmail (VStr s) = [])
  ∧ (sanitizeEmail (VStr s) ≠ [] →
     length (filter (λ c, c = chr "@") s) = 1%nat
     ∧ Forall (λ c, is_space c = false) s)
  ∧ sanitizeEmail (VStr (sanitizeEmail (VStr s))) = sanitizeEmail (VStr s).
Proof.
  destruct (sanitizeEmail_cases s) as [[Hs E]|[Hs E]].
  - split; [done|]. split; [done|]. split; [|by rewrite !E].
    intros _. destruct Hs as (a & b & c & -> & _ & _ & _ & Hp).
    rewrite !Forall_app in Hp. destruct Hp as (Ha & Hb & Hc).
    destruct (plain_no_at a Ha) as [Ha1 Ha2], (plain_no_at b Hb) as [Hb1 Hb2],
      (plain_no_at c Hc) as [Hc1 Hc2].
    split.
    + rewrite filter_app, Ha1, filter_cons_True by done.
      rewrite filter_app, Hb1, filter_cons_False by done. by rewrite Hc1.
    + rewrite Forall_app, Forall_cons, Forall_app, Forall_cons. by repeat split.
  - split; [done|]. split; [done|]. rewrite E. split; [done|].
    destruct (sanitizeEmail_cases []) as [[(a & b & c & H & _) _]|[_ E']]; [|done].
    by destruct a.
Qed.

Lemma sanitizeEmail_accepts_addresses_witness :
  sanitizeEmail (VStr (js "a@b.com")) = js "a@b.com"
  ∧ sanitizeEmail (VStr (js "a@b")) = [].
Proof.
  split.
  - apply (proj1 (sanitizeEmail_accepts_addresses (js "a@b.com"))).
    exists (js "a"), (js "b"), (js "com"). repeat split; try done.
    apply (bool_decide_eq_true_1 _). by vm_compute.
  - apply (proj1 (proj2 (sanitizeEmail_accepts_addresses (js "a@b")))).
    rewrite <- re_email_shape. by vm_compute.
Defined.

Lemma replace_go_sublist r k s : replace_go r k s `sublist_of` s.
Proof.
  revert k. induction s as [|y s IH]; intros k; [done|]. cbn [replace_go].
  destruct k as [|k]; [|by apply sublist_cons].
  destruct (rmatch r (y :: s)) as [rest|]; [|by apply sublist_skip].
  destruct (_ - _)%nat; [by apply sublist_skip|by apply sublist_cons].
Qed.

Lemma trimStart_split s :
  ∃ spaces, s = spaces ++ trimStart s ∧ Forall (λ c, is_space c = true) spaces.
Proof.
  induction s as [|x s (spaces & IH & Hsp)]; [by exists []|]. simpl.
  destruct (is_space x) eqn:Hx; [|by exists []].
  exists (x :: spaces). split; [by rewrite IH at 1|by constructor].
Qed.

Lemma trimStart_head s c : head (trimStart s) = Some c → is_space c = false.
Proof.
  induction s as [|x s IH]; [done|]. simpl.
  destruct (is_space x) eqn:Hx; [done|]. by intros [= <-].
Qed.

Lemma trimEnd_split s :
  ∃ spaces, s = trimEnd s ++ spaces ∧ Forall (λ c, is_space c = true) spaces.
Proof.
  unfold trimEnd. destruct (trimStart_split (reverse s)) as (spaces & H & Hsp).
  exists (reverse spaces). split; [|by apply Forall_reverse].
  rewrite <- reverse_app, <- H. by rewrite reverse_involutive.
Qed.

Lemma trim_sublist s : trim s `sublist_of` s.
Proof.
  unfold trim. destruct (trimStart_split s) as (sp1 & H1 & _).
  destruct (trimEnd_split (trimStart s)) as (sp2 & H2 & _).
  rewrite H1 at 2. apply sublist_inserts_l. rewrite H2 at 2.
  by apply sublist_inserts_r.
Qed.

Lemma trim_trimmed s : trimmed (trim s).
Proof.
  unfold trim. split.
  - intros c Hc. destruct (trimEnd_split (trimStart s)) as (spaces & H & Hsp).
    destruct (trimEnd (trimStart s)) as [|x t] eqn:E; [done|].
    simpl in Hc. injection Hc as ->. apply (trimStart_head s). by rewrite H.
  - intros c Hc. unfold trimEnd in Hc. rewrite last_reverse in Hc.
    by apply trimStart_head in Hc.
Qed.

(** X3. [sanitizeText] only removes characters: its output is a
    subsequence of the input, in the same order, and neither end of it
    is white space. *)
Theorem sanitizeText_subsequence (s : jsstring) :
  sanitizeText (VStr s) `sublist_of` s ∧ trimmed (sanitizeText (VStr s)).
Proof.
  split; [|apply trim_trimmed]. unfold sanitizeText.
  etrans; [apply trim_sublist|]. unfold replace_all.
  etrans; [apply replace_go_sublist|].
  etrans; [apply replace_go_sublist|]. apply replace_go_sublist.
Qed.

(** ** Sanitizing the dataset *)

Lemma mapM_Normal {A B : Type} (f : A → completion B) l k :
  mapM f l = Normal k ↔ Forall2 (λ x y, f x = Normal y) l k.
Proof.
  revert k. induction l as [|x l IH]; intros k; simpl.
  - split; [intros [= <-]; constructor|by inversion 1].
  - unfold mbind, completion_bind, mret, completion_ret.
    destruct (f x) as [y|e] eqn:Hx.
    + destruct (mapM f l) as [k'|e] eqn:Hl.
      * split.
        -- intros [= <-]. constructor; [done|]. by apply IH.
        -- inversion 1 as [|???? Hy Hk]; subst. apply IH in Hk. congruence.
      * split; [done|]. inversion 1 as [|???? Hy Hk]; subst. by apply IH in Hk.
    + split; [done|]. inversion 1; congruence.
Qed.

Lemma mapM_Throw {A B : Type} (f : A → completion B) l e :
  mapM f l = Throw e → ∃ x, x ∈ l ∧ f x = Throw e.
Proof.
  induction l as [|x l IH]; simpl; [done|].
  unfold mbind, completion_bind, mret, completion_ret.
  destruct (f x) as [y|e'] eqn:Hx.
  - destruct (mapM f l) as [k'|e'] eqn:Hl; [done|]. intros [= <-].
    destruct IH as (x' & ? & ?); [done|]. exists x'. split; [by right|done].
  - intros [= <-]. exists x. split; [by left|done].
Qed.

Lemma sanitizePartner_Normal parseURL p q :
  sanitizePartner parseURL p = Normal q →
  ∃ d, description p = Some d
       ∧ q = {| name := Some (sanitizeText (str_value (name p)));
                lat := lat p; lng := lng p; community := community p;
                languages := languages p;
                description := Some ((λ text, sanitizeText (VStr text)) <$> d);
                address := Some (sanitizeText (str_value (address p)));
                phone := Some (sanitizePhone (str_value (phone p)));
                email := Some (sanitizeEmail (str_value (email p)));
                website := Some (sanitizeURL parseURL (str_value (website p))) |}.
Proof.
  unfold sanitizePartner. destruct (description p) as [d|]; [|done].
  intros [= <-]. by exists d.
Qed.

Lemma sanitizePartner_description parseURL p :
  has_description p = true ↔ ∃ q, sanitizePartner parseURL p = Normal q.
Proof.
  unfold has_description, sanitizePartner. destruct (description p).
  - split; [by eauto|done].
  - split; [done|]. by intros [? ?].
Qed.



Lemma sanitizeText_no_angle v : no_angle (sanitizeText v).
Proof.
  destruct v as [| | | |s| |]; try (split; apply not_elem_of_nil).
  split; intros H; apply sanitizeText_elem, replace_angle_go in H; destruct H; congruence.
Qed.

Lemma sanitizeURL_cases parseURL v :
  sanitizeURL parseURL v = []
  ∨ ∃ s u, v = VStr s ∧ parseURL s = Some u ∧ http_or_https u
           ∧ sanitizeURL parseURL v = href u.
Proof.
  destruct v as [| | | |s| |]; try (by left). unfold sanitizeURL.
  destruct (parseURL s) as [u|] eqn:Hp; [|by left].
  destruct (includes _ (protocol u)) eqn:E; simpl; [|by left].
  right. exists s, u. by rewrite <- allowed_protocol.
Qed.

Lemma sanitizePhone_chars v : Forall (λ c, is_phone_char c = true) (sanitizePhone v).
Proof.
  destruct v as [| | | |s| |]; try by constructor.
  unfold sanitizePhone, re_not_phone. rewrite replace_all_one.
  apply Forall_forall. intros c [Hc _]%list_elem_of_filter.
  unfold is_phone_char. by apply negb_false_iff in Hc.
Qed.

Lemma sanitizeEmail_shape v :
  sanitizeEmail v = [] ∨ email_shape (sanitizeEmail v).
Proof.
  destruct v as [| | | |s| |]; try (by left).
  destruct (sanitizeEmail_cases s) as [[Hs ->]|[_ ->]]; [by right|by left].
Qed.

(** X5. Every entry [sanitizePartnerData] returns comes from an entry
    of the dataset and has all its text fields as strings: name,
    address and every description without [<] or [>], a phone of phone
    characters only, an email that is empty or the email of the raw
    entry, which then has the shape of an address, and a website that
    is empty or the serialisation of the URL the parser gives for the
    website of the raw entry, of scheme http or https. *)
Theorem sanitizePartnerData_clean (parseURL : jsstring -> option URL)
    (partners out : list partner) (q : partner) :
  sanitizePartnerData parseURL partners = Normal out →
  q ∈ out →
  ∃ p n a ph e w d,
    p ∈ partners
    ∧ name q = Some n ∧ no_angle n
    ∧ address q = Some a ∧ no_angle a
    ∧ phone q = Some ph ∧ Forall (λ c, is_phone_char c = true) ph
    ∧ email q = Some e ∧ (e = [] ∨ (email_shape e ∧ email p = Some e))
    ∧ website q = Some w
    ∧ (w = [] ∨ ∃ s u, website p = Some s ∧ parseURL s = Some u
                       ∧ http_or_https u ∧ w = href u)
    ∧ safe_url parseURL w
    ∧ description q = Some d ∧ map_Forall (λ _ text, no_angle text) d.
Proof.
  unfold sanitizePartnerData. intros E%mapM_Normal Hq.
  apply list_elem_of_lookup in Hq as [i Hi].
  destruct (Forall2_lookup_r _ _ _ _ _ E Hi) as (p & Hp & Hs).
  apply sanitizePartner_Normal in Hs as (d & Hd & ->). simpl.
  exists p. do 6 eexists. split; [by apply list_elem_of_lookup_2 in Hp|].
  split; [done|]. split; [apply sanitizeText_no_angle|].
  split; [done|]. split; [apply sanitizeText_no_angle|].
  split; [done|]. split; [apply sanitizePhone_chars|].
  split; [done|]. split.
  { destruct (email p) as [e|]; [|by left]. cbn [str_value].
    destruct (sanitizeEmail_cases e) as [[He ->]|[_ ->]]; [by right|by left]. }
  split; [done|]. split.
  { destruct (sanitizeURL_cases parseURL (str_value (website p)))
      as [->|(s & u & Hv & Hparse & Hu & ->)]; [by left|].
    right. exists s, u. destruct (website p) as [s'|]; [|done].
    injection Hv as ->. done. }
  split.
  { destruct (sanitizeURL_cases parseURL (str_value (website p)))
      as [->|(s & u & _ & Hparse & Hu & ->)]; [by left|right; eauto]. }
  split; [done|]. intros lang text.
  rewrite lookup_fmap. destruct (d !! lang) as [t|]; [|done]. intros [= <-].
  apply (sanitizeText_no_angle (VStr t)).
Qed.

(** The entry of the scenario with a script for a website. *)
Lemma sanitizePartnerData_clean_witness :
  let script_org :=
    Partner (name test_org) (lat test_org) (lng test_org) (community test_org)
      (languages test_org) (description test_org) (address test_org) (phone test_org)
      (email test_org) (Some (js "javascript:alert(1)")) in
  ∃ clean_org dirty_org,
    sanitizePartnerData scheme_parser [test_org; script_org]
    = Normal [clean_org; dirty_org]
    ∧ website clean_org = Some (js "https://example.org")
    ∧ website dirty_org = Some []
    ∧ safe_url scheme_parser (js "https://example.org")
    ∧ ¬ safe_url scheme_parser (js "javascript:alert(1)").
Proof.
  intros script_org. do 2 eexists. split; [by vm_compute|].
  split; [by vm_compute|]. split; [by vm_compute|]. split.
  - destruct (sanitizePartnerData_clean scheme_parser [test_org; script_org] _ test_org
                eq_refl ltac:(by left))
      as (p & n & a & ph & e & w & d & _ & _ & _ & _ & _ & _ & _ & _ & _ & Hw & _ & Hsafe & _).
    assert (Ew : Some w = Some (js "https://example.org"))
      by (rewrite <- Hw; by vm_compute).
    injection Ew as Ew. rewrite <- Ew. exact Hsafe.
  - intros [H|(s & u & Hp & [Hu|Hu] & Hh)]; [done| |].
    + unfold scheme_parser in Hp. destruct s as [|c s]; [done|].
      destruct (is_alpha c); [|done]. destruct (scan_scheme (c :: s) []) eqn:Hs; [|done].
      injection Hp as <-. cbn [protocol href] in *. rewrite <- Hh in Hs.
      vm_compute in Hs. injection Hs as <-. by vm_compute in Hu.
    + unfold scheme_parser in Hp. destruct s as [|c s]; [done|].
      destruct (is_alpha c); [|done]. destruct (scan_scheme (c :: s) []) eqn:Hs; [|done].
      injection Hp as <-. cbn [protocol href] in *. rewrite <- Hh in Hs.
      vm_compute in Hs. injection Hs as <-. by vm_compute in Hu.
Defined.

(** Sanitizing does not change what the filter looks at. *)
Lemma sanitizePartner_filter_callback parseURL p q language category :
  sanitizePartner parseURL p = Normal q →
  filter_callback language category q = filter_callback language category p.
Proof. by intros (d & _ & ->)%sanitizePartner_Normal. Qed.

(** X6. Sanitizing and projecting commute: the projection of the
    sanitized dataset is the sanitized projection of the dataset, with
    the same exception when an entry has no [languages] array. *)
Theorem sanitize_then_project (parseURL : jsstring -> option URL)
    (partners out : list partner) (language category : jsstring) :
  sanitizePartnerData parseURL partners = Normal out →
  filteredPartners out language category
  = filteredPartners partners language category ≫= sanitizePartnerData parseURL.
Proof.
  unfold sanitizePartnerData, filteredPartners. intros E%mapM_Normal.
  induction E as [|p q ps qs Hpq _ IH]; [done|]. cbn [filterM].
  rewrite (sanitizePartner_filter_callback _ _ _ _ _ Hpq), IH.
  destruct (filter_callback language category p) as [keep|e]; [|done].
  destruct (filterM (filter_callback language category) ps) as [rest|e]; [|done].
  cbn [mbind completion_bind].
  destruct keep; [|by destruct (mapM (sanitizePartner parseURL) rest)].
  cbn [mapM mbind completion_bind]. rewrite Hpq.
  by destruct (mapM (sanitizePartner parseURL) rest).
Qed.

Lemma sanitize_then_project_witness :
  filteredPartners partners (js "Greek") (js "Youth")
  = filteredPartners partners (js "Greek") (js "Youth")
    ≫= sanitizePartnerData scheme_parser.
Proof.
  apply (sanitize_then_project scheme_parser partners partners). by vm_compute.
Defined.


(** ** The report of the validator, entry by entry *)

Lemma when_push_error_log b msg l :
  when b (push_error msg) l
  = Log (log_errors l ++ (if b then [msg] else [])) (log_warnings l).
Proof. destruct b, l; simpl; [done|]. by rewrite app_nil_r. Qed.

Lemma when_push_warning_log b msg l :
  when b (push_warning msg) l
  = Log (log_errors l) (log_warnings l ++ (if b then [msg] else [])).
Proof. destruct b, l; simpl; [done|]. by rewrite app_nil_r. Qed.

Section Report.

Variable parseURL : jsstring -> option URL.

Local Abbreviation check := (check_partner parseURL).
Local Abbreviation validate := (validatePartnerData parseURL).
Local Abbreviation errors_of := (entry_errors parseURL).
Local Abbreviation warnings_of := (entry_warnings parseURL).

Lemma check_required_log p index l :
  check_required p index l = Log (log_errors l ++ required_errors p index) (log_warnings l).
Proof.
  unfold check_required, required_errors, forEach. generalize 0%nat. revert l.
  induction requiredFields as [|field fields IH]; intros l k; cbn [forEach_from flat_map].
  - destruct l. simpl. by rewrite app_nil_r.
  - rewrite IH, when_push_error_log. cbn [log_errors log_warnings].
    by rewrite <- app_assoc.
Qed.

(** The checks of one entry, as the lists they add. *)
Lemma check_partner_log p index l :
  check p index l
  = Log (log_errors l
         ++ required_errors p index
         ++ (if negb (bool_decide (is_Some (lat p)))
                || negb (bool_decide (is_Some (lng p)))
             then [Partner_prefix index (show (name p)) ++ js "Invalid coordinates"]
             else [])
         ++ (if negb (bool_decide (community p ∈ Some <$> validCommunities))
             then [Partner_prefix index (show (name p)) ++ js "Invalid community '"
                   ++ show (community p) ++ js "'"]
             else [])
         ++ (if str_truthy (email p)
                && negb (test_anchored re_email (default [] (email p)))
             then [Partner_prefix index (show (name p)) ++ js "Invalid email format"]
             else [])
         ++ (if str_truthy (website p)
                && negb (bool_decide (is_Some (parseURL (default [] (website p)))))
             then [Partner_prefix index (show (name p)) ++ js "Invalid website URL"]
             else [])
         ++ (if match description p with
                | Some d => negb (property_truthy (describe d (js "English")))
                | None => true
                end
             then [Partner_prefix index (show (name p))
                   ++ js "Missing English description"]
             else []))
      (log_warnings l
       ++ (if no_languages p
           then [Partner_prefix index (show (name p)) ++ js "No languages specified"]
           else [])).
Proof.
  unfold check_partner. cbv zeta.
  rewrite when_push_warning_log, !when_push_error_log, check_required_log.
  cbn [log_errors log_warnings]. rewrite <- !app_assoc. f_equal. f_equal.
  unfold no_languages. by destruct (languages p) as [[|??]|].
Qed.

Lemma check_partner_entry p index l :
  check p index l
  = Log (log_errors l ++ errors_of p index) (log_warnings l ++ warnings_of p index).
Proof.
  unfold entry_errors, entry_warnings. by rewrite !check_partner_log.
Qed.

Lemma forEach_check_log ps index l :
  forEach_from check index ps l
  = Log (log_errors l ++ concat (imap (λ i p, errors_of p (index + i)) ps))
      (log_warnings l ++ concat (imap (λ i p, warnings_of p (index + i)) ps)).
Proof.
  revert index l. induction ps as [|p ps IH]; intros index l; cbn [forEach_from imap concat].
  - destruct l. simpl. by rewrite !app_nil_r.
  - assert (E1 : imap (λ i p, errors_of p (S index + i)) ps
                 = imap ((λ i p, errors_of p (index + i)) ∘ S) ps).
    { apply imap_ext. intros i q _. simpl. f_equal. lia. }
    assert (E2 : imap (λ i p, warnings_of p (S index + i)) ps
                 = imap ((λ i p, warnings_of p (index + i)) ∘ S) ps).
    { apply imap_ext. intros i q _. simpl. f_equal. lia. }
    rewrite IH, check_partner_entry. cbn [log_errors log_warnings].
    by rewrite E1, E2, <- !app_assoc, Nat.add_0_r.
Qed.

Lemma validate_errors_entries ps :
  errors (validate ps) = concat (imap (λ i p, errors_of p i) ps).
Proof.
  rewrite validate_errors. unfold forEach. by rewrite forEach_check_log.
Qed.

Lemma starts_with_app_l p s t : starts_with p s = true → starts_with p (s ++ t) = true.
Proof.
  revert s. induction p as [|a p IH]; intros [|b s]; simpl; try done.
  rewrite !andb_true_iff. intros [? ?]. eauto.
Qed.

Lemma Partner_prefix_tagged index shown rest :
  tagged index (Partner_prefix index shown ++ rest).
Proof.
  unfold tagged, Partner_prefix.
  replace ((js "Partner " ++ index_to_string index ++ js " (" ++ shown ++ js "): ") ++ rest)
    with ((js "Partner " ++ index_to_string index ++ js " (") ++ shown ++ js "): " ++ rest)
    by (by rewrite <- !app_assoc).
  apply starts_with_app.
Qed.

Lemma required_errors_tagged p index :
  Forall (tagged index) (required_errors p index).
Proof.
  unfold required_errors. induction requiredFields as [|field fields IH]; simpl; [done|].
  destruct (negb _); [|done]. constructor; [|done]. apply Partner_prefix_tagged.
Qed.

Lemma entry_errors_tagged p index : Forall (tagged index) (errors_of p index).
Proof.
  unfold entry_errors. rewrite check_partner_log. cbn [log_errors app].
  rewrite !Forall_app. split; [apply required_errors_tagged|].
  repeat split.
  all: match goal with |- Forall _ (if ?b then _ else _) => destruct b end.
  all: try done.
  all: constructor; [|done].
  all: apply Partner_prefix_tagged.
Qed.

(** X7. The errors of the validator are those of its entries, entry
    after entry in the order of the dataset, and every error of the
    entry at index [i] starts with [Partner i (]; validating a longer
    dataset keeps the errors of the shorter one in front. *)
Theorem validator_errors_by_entry (partners : list partner) :
  errors (validate partners) = concat (imap (λ i p, errors_of p i) partners)
  ∧ (∀ i p, Forall (tagged i) (errors_of p i))
  ∧ (∀ more, errors (validate (partners ++ more))
             = errors (validate partners)
               ++ concat (imap (λ i p, errors_of p (length partners + i)) more)).
Proof.
  split; [apply validate_errors_entries|]. split; [intros; apply entry_errors_tagged|].
  intros more. rewrite !validate_errors_entries, imap_app, concat_app. done.
Qed.

Lemma flat_map_nil_forallb {A B : Type} (c : A → bool) (m : A → B) (l : list A) :
  flat_map (λ x, if negb (c x) then [m x] else []) l = [] ↔ forallb c l = true.
Proof.
  induction l as [|x l IH]; simpl; [done|].
  destruct (c x); simpl; [done|]. split; done.
Qed.

Lemma if_singleton_nil {A : Type} (b : bool) (x : A) :
  (if b then [x] else []) = [] ↔ b = false.
Proof. destruct b; split; done. Qed.

(** An entry adds no error exactly when it is well-formed. *)
Lemma entry_errors_nil p index :
  errors_of p index = [] ↔ well_formed parseURL p = true.
Proof.
  split.
  - unfold entry_errors. rewrite check_partner_log. cbn [log_errors app].
    rewrite !app_nil, !if_singleton_nil. unfold required_errors.
    rewrite flat_map_nil_forallb.
    intros (Hreq & Hcoord & Hcom & Hemail & Hweb & Hdesc).
    unfold well_formed, contents_ok. rewrite Hreq. cbn [andb].
    apply negb_false_iff in Hcom. rewrite Hcom. cbn [andb].
    assert (Hreq' := Hreq). unfold requiredFields in Hreq'. cbn [forallb] in Hreq'.
    rewrite !andb_true_iff, get_website in Hreq'.
    destruct Hreq' as (_ & _ & _ & _ & _ & _ & _ & _ & _ & Hw & _).
    change (truthy (str_value (website p))) with (str_truthy (website p)) in Hw.
    rewrite Hw in Hweb. cbn [andb] in Hweb. apply negb_false_iff in Hweb.
    rewrite Hweb.
    destruct (str_truthy (email p)); cbn [andb negb orb] in *.
    + apply negb_false_iff in Hemail. rewrite Hemail.
      destruct (description p); [by apply negb_false_iff in Hdesc|done].
    + destruct (description p); [by apply negb_false_iff in Hdesc|done].
  - intros H. unfold entry_errors.
    by rewrite (well_formed_no_error parseURL p index (Log [] []) H).
Qed.

Lemma concat_imap_nil {A B : Type} (f : nat → A → list B) (l : list A) :
  concat (imap f l) = [] ↔ ∀ i x, l !! i = Some x → f i x = [].
Proof.
  revert f. induction l as [|x l IH]; intros f; cbn [imap concat].
  - split; [by intros _ i x|done].
  - rewrite app_nil, IH. split.
    + intros [H0 H] [|i] y Hi; [by injection Hi as <-|by apply (H i)].
    + intros H. split; [by apply (H 0%nat)|]. intros i y Hi. by apply (H (S i)).
Qed.

(** X8. The validator finds the dataset valid exactly when every entry
    is well-formed: every required field truthy, the community one of
    the known ones, the email matching the pattern, the website
    accepted by the URL parser, and an English description; warnings
    play no part. *)
Theorem valid_iff_well_formed (partners : list partner) :
  isValid (validate partners) = true ↔ forallb (well_formed parseURL) partners = true.
Proof.
  rewrite validate_isValid, bool_decide_eq_true, validate_errors_entries.
  rewrite concat_imap_nil, forallb_forall. split.
  - intros H p Hp%list_elem_of_In. apply list_elem_of_lookup in Hp as [i Hi].
    apply (entry_errors_nil p i). by apply H.
  - intros H i p Hi. apply entry_errors_nil, H, list_elem_of_In.
    by eapply list_elem_of_lookup_2.
Qed.

Lemma duplicates_of_nil (names : list (option jsstring)) :
  duplicates_of names = [] ↔ NoDup names.
Proof.
  rewrite NoDup_alt. split.
  - intros H i j n Hi Hj. destruct (Nat.lt_trichotomy i j) as [Hlt|[->|Hlt]]; [|done|].
    + assert (Hn : n ∈ duplicates_of names) by (apply duplicates_of_elem; eauto).
      rewrite H in Hn. by apply elem_of_nil in Hn.
    + assert (Hn : n ∈ duplicates_of names) by (apply duplicates_of_elem; eauto).
      rewrite H in Hn. by apply elem_of_nil in Hn.
  - intros H. apply elem_of_nil_inv. intros n (i & j & Hij & Hi & Hj)%duplicates_of_elem.
    specialize (H i j n Hi Hj). lia.
Qed.

(** X9. The warnings of the validator are, in the order of the
    dataset, one warning for each entry without languages (no array, or
    an empty one), followed by the warning about duplicate names
    exactly when the names are not pairwise distinct. *)
Theorem validator_warnings (partners : list partner) :
  warnings (validate partners)
  = concat (imap (λ i p, if no_languages p
                         then [Partner_prefix i (show (name p))
                               ++ js "No languages specified"]
                         else []) partners)
    ++ (if bool_decide (NoDup (name <$> partners)) then []
        else [js "Duplicate names found: "
              ++ join (js ", ") (set_from [] (duplicates_of (name <$> partners)))]).
Proof.
  unfold validatePartnerData, forEach. cbn [warnings].
  rewrite forEach_check_log, when_push_warning_log. cbn [log_warnings app].
  assert (E : ∀ i p, warnings_of p (0 + i)
                     = if no_languages p
                       then [Partner_prefix i (show (name p)) ++ js "No languages specified"]
                       else []).
  { intros i p. unfold entry_warnings. by rewrite check_partner_log. }
  rewrite (imap_ext _ _ _ (λ i p _, E i p)). f_equal.
  destruct (duplicates_of (name <$> partners)) as [|d ds] eqn:Hd.
  - rewrite bool_decide_eq_true_2 by (by apply duplicates_of_nil). done.
  - rewrite bool_decide_eq_false_2; [done|].
    intros H%duplicates_of_nil. congruence.
Qed.

(** X10. An entry whose latitude is a number that is not truthy (zero,
    or not a number) is reported as missing [lat], and the dataset is
    not valid. *)
Theorem falsy_latitude_reported_missing (before after : list partner) (p : partner)
    (n : number) :
  lat p = Some n → number_truthy n = false →
  Partner_prefix (length before)
    (if str_truthy (name p) then show (name p) else js "Unknown")
  ++ js "Missing " ++ js "lat"
  ∈ errors (validate (before ++ p :: after))
  ∧ isValid (validate (before ++ p :: after)) = false.
Proof.
  intros Hlat Hn.
  assert (Hin : Partner_prefix (length before)
                  (if str_truthy (name p) then show (name p) else js "Unknown")
                ++ js "Missing " ++ js "lat"
                ∈ errors (validate (before ++ p :: after))).
  { rewrite validate_errors_entries, imap_app, concat_app. cbn [imap concat].
    rewrite !elem_of_app. right. left. rewrite Nat.add_0_r.
    unfold entry_errors. rewrite check_partner_log. cbn [log_errors app].
    rewrite elem_of_app. left. unfold required_errors, requiredFields.
    cbn [flat_map]. rewrite get_lat, Hlat. cbn [num_value truthy]. rewrite Hn.
    cbn [negb]. rewrite elem_of_app. right. by left. }
  split; [done|]. rewrite validate_isValid. apply bool_decide_eq_false_2.
  intros E. rewrite E in Hin. by apply elem_of_nil in Hin.
Qed.

End Report.

Lemma falsy_latitude_reported_missing_witness :
  js "Partner 0 (Test Org): Missing lat"
  ∈ errors (validatePartnerData scheme_parser
              [Partner (name test_org) (Some (Decimal 0 0)) (lng test_org)
                 (community test_org) (languages test_org) (description test_org)
                 (address test_org) (phone test_org) (email test_org)
                 (website test_org)]).
Proof.
  apply (proj1 (falsy_latitude_reported_missing scheme_parser [] []
                  (Partner (name test_org) (Some (Decimal 0 0)) (lng test_org)
                     (community test_org) (languages test_org) (description test_org)
                     (address test_org) (phone test_org) (email test_org)
                     (website test_org))
                  (Decimal 0 0) eq_refl eq_refl)).
Defined.

(** ** Validating the sanitized dataset *)

Lemma mismatch_starts_with p s t : mismatch p s = true → starts_with p (s ++ t) = false.
Proof.
  revert s. induction p as [|a p IH]; intros [|b s]; simpl; try done.
  destruct (a =? b); simpl; [|done]. apply IH.
Qed.

Lemma ends_with_mismatch suffix a b :
  mismatch (reverse suffix) (reverse b) = true → ends_with suffix (a ++ b) = false.
Proof. intros H. unfold ends_with. rewrite reverse_app. by apply mismatch_starts_with. Qed.

Lemma Forall_concat_imap {A B : Type} (P : B → Prop) (f : nat → A → list B) (l : list A) :
  (∀ i x, l !! i = Some x → Forall P (f i x)) → Forall P (concat (imap f l)).
Proof.
  revert f. induction l as [|x l IH]; intros f H; cbn [imap concat]; [done|].
  apply Forall_app. split; [by apply (H 0%nat)|].
  apply IH. intros i y Hi. by apply (H (S i)).
Qed.

Section Sanitized.

Variable parseURL : jsstring -> option URL.

(** The errors of one entry that cannot end in [suffix], once the two
    format checks are known not to fire or to end otherwise. *)
Lemma entry_errors_suffix (suffix : jsstring) p index :
  forallb (λ field, mismatch (reverse suffix) (reverse (js "Missing " ++ field)))
    requiredFields = true →
  mismatch (reverse suffix) (reverse (js "Invalid coordinates")) = true →
  mismatch (reverse suffix) (reverse (js "'")) = true →
  mismatch (reverse suffix) (reverse (js "Missing English description")) = true →
  str_truthy (email p) && negb (test_anchored re_email (default [] (email p))) = false
  ∨ mismatch (reverse suffix) (reverse (js "Invalid email format")) = true →
  str_truthy (website p)
  && negb (bool_decide (is_Some (parseURL (default [] (website p))))) = false
  ∨ mismatch (reverse suffix) (reverse (js "Invalid website URL")) = true →
  Forall (λ e, ends_with suffix e = false) (entry_errors parseURL p index).
Proof.
  intros Hreq Hcoord Hquote Hdesc Hemail Hweb.
  unfold entry_errors. rewrite check_partner_log. cbn [log_errors app].
  rewrite !Forall_app. split; [|split; [|split; [|split; [|split]]]].
  - unfold required_errors. revert Hreq.
    induction requiredFields as [|field fields IH]; cbn [flat_map forallb]; [done|].
    rewrite andb_true_iff. intros [Hf Hfs].
    apply Forall_app. split; [|by apply IH].
    destruct (negb (truthy (get p field))); [|by constructor].
    constructor; [|by constructor]. by apply ends_with_mismatch.
  - repeat case_match; try (by constructor).
    all: constructor; [|by constructor]; by apply ends_with_mismatch.
  - repeat case_match; try (by constructor).
    all: constructor; [|by constructor]; rewrite !app_assoc; by apply ends_with_mismatch.
  - destruct Hemail as [->|H]; [by constructor|].
    repeat case_match; try (by constructor).
    all: constructor; [|by constructor]; by apply ends_with_mismatch.
  - destruct Hweb as [->|H]; [by constructor|].
    repeat case_match; try (by constructor).
    all: constructor; [|by constructor]; by apply ends_with_mismatch.
  - repeat case_match; try (by constructor).
    all: constructor; [|by constructor]; by apply ends_with_mismatch.
Qed.

Lemma sanitized_entry partners out i q :
  sanitizePartnerData parseURL partners = Normal out → out !! i = Some q →
  ∃ p, email q = Some (sanitizeEmail (str_value (email p)))
       ∧ website q = Some (sanitizeURL parseURL (str_value (website p))).
Proof.
  unfold sanitizePartnerData. intros E%mapM_Normal Hi.
  destruct (Forall2_lookup_r _ _ _ _ _ E Hi) as (p & _ & Hs).
  apply sanitizePartner_Normal in Hs as (d & Hd & ->). by exists p.
Qed.

(** X11. On a sanitized dataset the validator never reports an invalid
    email format: the sanitizer has emptied every email that does not
    match the pattern, which the validator then reports as missing. *)
Theorem sanitized_never_invalid_email (partners out : list partner) :
  sanitizePartnerData parseURL partners = Normal out →
  Forall (λ e, ends_with (js "Invalid email format") e = false)
    (errors (validatePartnerData parseURL out))
  ∧ ∀ i p q, partners !! i = Some p → out !! i = Some q →
      email_shape (default [] (email p)) ∨ email q = Some [].
Proof.
  intros Hout. split.
  - rewrite validate_errors_entries. apply Forall_concat_imap. intros i q Hq.
    destruct (sanitized_entry _ _ _ _ Hout Hq) as (p & He & _).
    apply entry_errors_suffix; try by vm_compute.
    + left. rewrite He. cbn [from_option id].
      destruct (sanitizeEmail_shape (str_value (email p))) as [->|Hs]; [done|].
      apply re_email_shape in Hs. rewrite Hs. by rewrite andb_false_r.
    + right. by vm_compute.
  - intros i p q Hp Hq. unfold sanitizePartnerData in Hout.
    apply mapM_Normal in Hout.
    destruct (Forall2_lookup_l _ _ _ _ _ Hout Hp) as (q' & Hq' & Hs).
    assert (q' = q) as -> by congruence.
    apply sanitizePartner_Normal in Hs as (d & Hd & ->). cbn [email].
    destruct (email p) as [e|]; cbn [str_value from_option id]; [|by right].
    destruct (sanitizeEmail_cases e) as [[Hs _]|[_ ->]]; [by left|by right].
Qed.

(** X12. When the URL parser accepts its own serialisations, the
    validator never reports an invalid website on a sanitized dataset:
    a website is then empty or the serialisation of a parsed URL. *)
Theorem sanitized_never_invalid_website (partners out : list partner) :
  (∀ s u, parseURL s = Some u → is_Some (parseURL (href u))) →
  sanitizePartnerData parseURL partners = Normal out →
  Forall (λ e, ends_with (js "Invalid website URL") e = false)
    (errors (validatePartnerData parseURL out)).
Proof.
  intros Hser Hout.
  rewrite validate_errors_entries. apply Forall_concat_imap. intros i q Hq.
  destruct (sanitized_entry _ _ _ _ Hout Hq) as (p & _ & Hw).
  apply entry_errors_suffix; try by vm_compute.
  - right. by vm_compute.
  - left. rewrite Hw. cbn [from_option id].
    destruct (sanitizeURL_cases parseURL (str_value (website p)))
      as [->|(s & u & _ & Hp & _ & ->)]; [done|].
    rewrite (bool_decide_eq_true_2 _ (Hser s u Hp)). by rewrite andb_false_r.
Qed.

End Sanitized.

Lemma sanitized_never_invalid_email_witness :
  errors (validatePartnerData scheme_parser [bad_email_org])
  = [js "Partner 0 (Test Org): Invalid email format"]
  ∧ ∃ out, sanitizePartnerData scheme_parser [bad_email_org] = Normal out
           ∧ errors (validatePartnerData scheme_parser out)
             = [js "Partner 0 (Test Org): Missing email"]
           ∧ Forall (λ e, ends_with (js "Invalid email format") e = false)
               (errors (validatePartnerData scheme_parser out)).
Proof.
  split; [by vm_compute|]. eexists. split; [by vm_compute|]. split; [by vm_compute|].
  apply (proj1 (sanitized_never_invalid_email scheme_parser [bad_email_org] _ eq_refl)).
Defined.

Lemma sanitized_never_invalid_website_witness :
  ∃ out, sanitizePartnerData scheme_parser [bad_email_org] = Normal out
         ∧ Forall (λ e, ends_with (js "Invalid website URL") e = false)
             (errors (validatePartnerData scheme_parser out)).
Proof.
  eexists. split; [by vm_compute|].
  apply (sanitized_never_invalid_website scheme_parser [bad_email_org] _).
  - intros s u Hp. unfold scheme_parser in Hp.
    destruct s as [|c s]; [done|]. destruct (is_alpha c) eqn:Hc; [|done].
    destruct (scan_scheme (c :: s) []) eqn:Hs; [|done]. injection Hp as <-.
    cbn [href]. unfold scheme_parser. rewrite Hc, Hs. eauto.
  - by vm_compute.
Defined.


(** ** The filter over languages and categories *)

Lemma keepb_English category p :
  keepb (js "English") category p = true → ∀ language, keepb language category p = true.
Proof.
  intros H language. apply keepb_spec in H as (Hc & langs & Hl & H).
  apply keepb_spec. split; [done|]. exists langs. split; [done|]. right. tauto.
Qed.

Lemma filter_sublist_weaken {A : Type} (P Q : A → Prop) `{!∀ x, Decision (P x)}
    `{!∀ x, Decision (Q x)} (l : list A) :
  (∀ x, P x → Q x) → filter P l `sublist_of` filter Q l.
Proof.
  intros HPQ. induction l as [|x l IH]; [done|].
  rewrite !filter_cons. destruct (decide (P x)) as [HP|HP].
  - rewrite decide_True by auto. by constructor.
  - destruct (decide (Q x)); [by constructor|done].
Qed.

Lemma filter_ext_elem {A : Type} (P Q : A → Prop) `{!∀ x, Decision (P x)}
    `{!∀ x, Decision (Q x)} (l : list A) :
  (∀ x, x ∈ l → P x ↔ Q x) → filter P l = filter Q l.
Proof.
  induction l as [|x l IH]; intros Hext; [done|].
  rewrite !filter_cons.
  assert (Hl : filter P l = filter Q l).
  { apply IH. intros y Hy. apply Hext. by right. }
  destruct (decide (P x)) as [HP|HP].
  - rewrite decide_True by (apply Hext; [by left|done]). by rewrite Hl.
  - rewrite decide_False; [done|]. intros HQ. apply HP, Hext; [by left|done].
Qed.

(** X13. English is the baseline of the language filter: whatever
    language is selected, the entries shown hold, in the same order,
    all the entries shown for English in that category; the additional
    ones list the selected language and not English; and an entry is
    never shown under two categories. *)
Theorem english_baseline (dataset : list partner) (language category : jsstring) :
  forallb has_languages dataset = true →
  ∃ base selected,
    filteredPartners dataset (js "English") category = Normal base
    ∧ filteredPartners dataset language category = Normal selected
    ∧ base `sublist_of` selected
    ∧ (∀ p, p ∈ selected → p ∉ base →
         ∃ langs, languages p = Some langs ∧ language ∈ langs ∧ js "English" ∉ langs)
    ∧ ((∀ p langs, p ∈ dataset → languages p = Some langs →
          language ∈ langs → js "English" ∈ langs) → selected = base)
    ∧ (∀ other rest, other ≠ category →
         filteredPartners dataset language other = Normal rest →
         ∀ p, p ∈ selected → p ∉ rest).
Proof.
  intros Hl. do 2 eexists.
  split; [by apply filteredPartners_filter|]. split; [by apply filteredPartners_filter|].
  split; [|split; [|split]].
  - apply filter_sublist_weaken. intros p Hp. by apply keepb_English.
  - intros p [Hk Hin]%list_elem_of_filter Hbase.
    apply keepb_spec in Hk as (Hc & langs & Hlangs & H).
    exists langs. split; [done|].
    assert (HE : js "English" ∉ langs).
    { intros HE. apply Hbase, list_elem_of_filter. split; [|done].
      apply keepb_spec. split; [done|]. exists langs. tauto. }
    split; [tauto|done].
  - intros H. apply filter_ext_elem. intros p Hp. split.
    + intros Hk. apply keepb_spec in Hk as (Hc & langs & Hlangs & Hor).
      apply keepb_spec. split; [done|]. exists langs. split; [done|].
      right. destruct Hor as [Hin|Hin]; [by apply (H p langs)|done].
    + intros Hk. by apply keepb_English.
  - intros other rest Hne Hrest p [Hk _]%list_elem_of_filter.
    rewrite (filteredPartners_filter _ _ _ Hl) in Hrest. injection Hrest as <-.
    intros [Hk' _]%list_elem_of_filter.
    apply keepb_spec in Hk as [Hc _]. apply keepb_spec in Hk' as [Hc' _]. congruence.
Qed.

Lemma english_baseline_witness :
  ∃ base selected,
    filteredPartners partners (js "English") (js "Arts") = Normal base
    ∧ filteredPartners partners (js "Greek") (js "Arts") = Normal selected
    ∧ base `sublist_of` selected.
Proof.
  destruct (english_baseline partners (js "Greek") (js "Arts"))
    as (base & selected & Hb & Hs & Hsub & _); [by vm_compute|].
  exists base, selected. split; [exact Hb|]. split; [exact Hs|exact Hsub].
Defined.

(** ** What [updateDisplay] draws *)

Section Drawing.

Variable security : bool.
Variable parseURL : jsstring -> option URL.
Variable qrcode : option (option jsstring -> completion QRCode).
Variable getContext2d : bool.
Variable toDataURL : canvas -> completion jsstring.
Variable nativeText : jsstring -> jsstring.

Local Abbreviation draw :=
  (updateDisplay security parseURL qrcode getContext2d toDataURL nativeText).
Local Abbreviation card :=
  (list_card security parseURL qrcode getContext2d toDataURL).
Local Abbreviation popup_of :=
  (popup_content security parseURL qrcode getContext2d toDataURL).
Local Abbreviation draw_all :=
  (render_all security parseURL qrcode getContext2d toDataURL nativeText).
Local Abbreviation draw_one :=
  (render_partner security parseURL qrcode getContext2d toDataURL nativeText).

Local Abbreviation is_card_of :=
  (is_card security parseURL qrcode getContext2d toDataURL nativeText).
Local Abbreviation is_marker_of :=
  (is_marker security parseURL qrcode getContext2d toDataURL nativeText).

Lemma list_card_returns p shown tr : ∃ item, card p shown tr = Normal item.
Proof.
  unfold list_card, qr_of.
  destruct (generateQrCode_returns security parseURL qrcode getContext2d toDataURL
              (website p)) as [qr ->].
  cbn [mbind completion_bind]. eauto.
Qed.

Lemma popup_content_returns p shown tr : ∃ content, popup_of p shown tr = Normal content.
Proof.
  unfold popup_content, qr_of.
  destruct (generateQrCode_returns security parseURL qrcode getContext2d toDataURL
              (website p)) as [qr ->].
  cbn [mbind completion_bind]. eauto.
Qed.

Lemma render_partner_described language p tag props items markers :
  has_description p = true →
  ∃ item added,
    draw_one language (currentTranslations_for language) p
      (Element tag props items, markers)
    = ((Element tag props (items ++ [item]), markers ++ added), None)
    ∧ is_card_of language p item
    ∧ Forall2 (is_marker_of language) (filter (λ p, has_marker p = true) [p]) added.
Proof.
  unfold has_description, render_partner, description_for. intros Hd.
  destruct (description p) as [d|] eqn:Ed; [|done].
  set (shown := if property_truthy (describe d language) then _ else _).
  destruct (list_card_returns p (as_text nativeText shown) (currentTranslations_for language))
    as [item Hitem].
  destruct (popup_content_returns p (as_text nativeText shown)
              (currentTranslations_for language)) as [content Hcontent].
  rewrite Hitem. exists item.
  assert (Hcard : is_card_of language p item).
  { exists shown. unfold description_for. by rewrite Ed. }
  rewrite filter_cons, filter_nil. unfold has_marker.
  destruct (lat p) as [la|] eqn:Ela, (lng p) as [ln|] eqn:Eln; cbn [fst snd appendChild].
  - destruct (number_truthy la && number_truthy ln) eqn:Et.
    + rewrite Hcontent. exists [Marker (la, ln) content].
      rewrite decide_True by done. split; [done|]. split; [done|].
      constructor; [|constructor]. exists shown, la, ln, content.
      unfold description_for. by rewrite Ed.
    + exists []. rewrite decide_False by done. rewrite app_nil_r.
      split; [done|]. split; [done|constructor].
  - exists []. rewrite decide_False by done. rewrite app_nil_r.
    split; [done|]. split; [done|constructor].
  - exists []. rewrite decide_False by done. rewrite app_nil_r.
    split; [done|]. split; [done|constructor].
  - exists []. rewrite decide_False by done. rewrite app_nil_r.
    split; [done|]. split; [done|constructor].
Qed.

Lemma render_all_described language ps tag props items markers :
  forallb has_description ps = true →
  ∃ cards added,
    draw_all language (currentTranslations_for language) ps
      (Element tag props items, markers)
    = ((Element tag props (items ++ cards), markers ++ added), None)
    ∧ Forall2 (is_card_of language) ps cards
    ∧ Forall2 (is_marker_of language) (filter (λ p, has_marker p = true) ps) added.
Proof.
  revert items markers. induction ps as [|p ps IH]; intros items markers Hd.
  - exists [], []. cbn [render_all]. rewrite !app_nil_r. by repeat constructor.
  - cbn [forallb] in Hd. apply andb_true_iff in Hd as [Hp Hps].
    destruct (render_partner_described language p tag props items markers Hp)
      as (item & added & Hone & Hcard & Hmark).
    destruct (IH (items ++ [item]) (markers ++ added) Hps)
      as (cards & more & Hall & Hcards & Hmarks).
    exists (item :: cards), (added ++ more).
    cbn [render_all]. rewrite Hone, Hall, <- !app_assoc. split; [done|].
    split; [by constructor|].
    change (p :: ps) with ([p] ++ ps). rewrite filter_app. by apply Forall2_app.
Qed.

(** The first entry without a description ends the loop: the entries
    before it are drawn, nothing after it is. *)
Lemma render_all_undescribed language before p after tag props items markers :
  forallb has_description before = true →
  description p = None →
  ∃ cards added e,
    draw_all language (currentTranslations_for language) (before ++ p :: after)
      (Element tag props items, markers)
    = ((Element tag props (items ++ cards), markers ++ added), Some e)
    ∧ Forall2 (is_card_of language) before cards
    ∧ Forall2 (is_marker_of language) (filter (λ p, has_marker p = true) before) added.
Proof.
  revert items markers. induction before as [|q before IH]; intros items markers Hd Hp.
  - exists [], []. cbn [app render_all]. unfold render_partner, description_for.
    rewrite Hp, !app_nil_r. eexists. split; [done|]. split; constructor.
  - cbn [forallb] in Hd. apply andb_true_iff in Hd as [Hq Hbefore].
    destruct (render_partner_described language q tag props items markers Hq)
      as (item & added & Hone & Hcard & Hmark).
    destruct (IH (items ++ [item]) (markers ++ added) Hbefore Hp)
      as (cards & more & e & Hall & Hcards & Hmarks).
    exists (item :: cards), (added ++ more), e.
    cbn [app render_all]. rewrite Hone, Hall, <- !app_assoc. split; [done|].
    split; [by constructor|].
    change (q :: before) with ([q] ++ before). rewrite filter_app. by apply Forall2_app.
Qed.

(** X14. With a list element and a marker layer, and a dataset whose
    entries all have languages and descriptions, [updateDisplay] ends
    without an exception and replaces what was shown: the list holds one
    card for each filtered entry, in order, or the single "no services"
    item when there is none; the layer holds one marker, with its
    popup, for each filtered entry whose coordinates are both truthy. *)
Theorem updateDisplay_shows_projection (pg : page) (tag : jsstring)
    (props : list (jsstring * jsstring)) (old : list node) (layer : list marker) :
  organisationList pg = Some (Element tag props old) →
  markerLayer pg = Some layer →
  forallb has_languages (sanitizedPartners pg) = true →
  forallb has_description (sanitizedPartners pg) = true →
  ∃ projection cards markers,
    filteredPartners (sanitizedPartners pg) (selectedLanguage pg) (selectedCommunity pg)
    = Normal projection
    ∧ draw pg
      = (Page (selectedLanguage pg) (selectedCommunity pg) (sanitizedPartners pg)
           (Some (Element tag props
                    (if bool_decide (projection = [])
                     then [no_results_item (currentTranslations_for (selectedLanguage pg))]
                     else cards)))
           (set_textContent
              (currentTranslations_for (selectedLanguage pg) !! js "listHeader")
            <$> listHeader pg)
           (Some markers),
         None)
    ∧ Forall2 (is_card_of (selectedLanguage pg)) projection cards
    ∧ Forall2 (is_marker_of (selectedLanguage pg))
        (filter (λ p, has_marker p = true) projection) markers.
Proof.
  intros Hlist Hlayer Hl Hd.
  pose proof (filteredPartners_filter _ (selectedLanguage pg) (selectedCommunity pg) Hl)
    as Hf.
  set (projection := filter _ _) in Hf.
  assert (Hdp : forallb has_description projection = true).
  { apply forallb_forall. intros p Hp%list_elem_of_In.
    apply list_elem_of_filter in Hp as [_ Hp].
    rewrite forallb_forall in Hd. by apply Hd, list_elem_of_In. }
  destruct (render_all_described (selectedLanguage pg) projection tag props [] [] Hdp)
    as (cards & markers & Hall & Hcards & Hmarks).
  exists projection, cards, markers. split; [exact Hf|].
  split; [|split; [exact Hcards|exact Hmarks]].
  unfold updateDisplay. rewrite Hlist, Hlayer, Hf. cbn [clear_children].
  destruct projection as [|p ps] eqn:E.
  - rewrite !bool_decide_eq_true_2 by done.
    inversion Hmarks. by cbn [fst snd appendChild app].
  - rewrite !bool_decide_eq_false_2 by done. by rewrite Hall.
Qed.

(** X15. What [updateDisplay] does when it cannot draw: without the
    list element or without the marker layer it changes nothing; when an
    entry of the dataset has no [languages] array it ends with an
    exception, the list and the layer emptied; and when a filtered entry
    has no [description] it ends with an exception at that entry, the
    entries before it drawn and none after it. *)
Theorem updateDisplay_failures (pg : page) :
  (organisationList pg = None ∨ markerLayer pg = None → draw pg = (pg, None))
  ∧ (∀ list layer,
       organisationList pg = Some list → markerLayer pg = Some layer →
       forallb has_languages (sanitizedPartners pg) = false →
       ∃ e, draw pg
            = (Page (selectedLanguage pg) (selectedCommunity pg) (sanitizedPartners pg)
                 (Some (clear_children list))
                 (set_textContent
                    (currentTranslations_for (selectedLanguage pg) !! js "listHeader")
                  <$> listHeader pg)
                 (Some []),
               Some e))
  ∧ (∀ tag props old layer before p after,
       organisationList pg = Some (Element tag props old) → markerLayer pg = Some layer →
       filteredPartners (sanitizedPartners pg) (selectedLanguage pg) (selectedCommunity pg)
       = Normal (before ++ p :: after) →
       forallb has_description before = true → description p = None →
       ∃ cards markers e,
         draw pg
         = (Page (selectedLanguage pg) (selectedCommunity pg) (sanitizedPartners pg)
              (Some (Element tag props cards))
              (set_textContent
                 (currentTranslations_for (selectedLanguage pg) !! js "listHeader")
               <$> listHeader pg)
              (Some markers),
            Some e)
         ∧ Forall2 (is_card_of (selectedLanguage pg)) before cards
         ∧ Forall2 (is_marker_of (selectedLanguage pg))
             (filter (λ p, has_marker p = true) before) markers).
Proof.
  split; [|split].
  - unfold updateDisplay. intros [->| ->]; [done|]. by destruct (organisationList pg).
  - intros list layer Hlist Hlayer Hl.
    destruct (filteredPartners_throws _ (selectedLanguage pg) (selectedCommunity pg) Hl)
      as [e He].
    exists e. unfold updateDisplay. by rewrite Hlist, Hlayer, He.
  - intros tag props old layer before p after Hlist Hlayer Hf Hd Hp.
    destruct (render_all_undescribed (selectedLanguage pg) before p after tag props [] []
                Hd Hp) as (cards & markers & e & Hall & Hcards & Hmarks).
    exists cards, markers, e. split; [|split; [exact Hcards|exact Hmarks]].
    unfold updateDisplay. rewrite Hlist, Hlayer, Hf. cbn [clear_children].
    rewrite bool_decide_eq_false_2.
    + by rewrite Hall.
    + rewrite length_app. simpl. lia.
Qed.

End Drawing.

Lemma updateDisplay_shows_projection_witness :
  ∃ cards markers,
    (updateDisplay true scheme_parser (Some checker_qr) true png_stub native_code
       (scenario "Arts")).1
    = Page (js "English") (js "Arts") [test_org]
        (Some (Element (js "ul") [] cards))
        (Some (set_textContent (Some (js "Service Directory")) (createElement "h2")))
        (Some markers)
    ∧ length cards = 1%nat ∧ length markers = 1%nat.
Proof.
  destruct (updateDisplay_shows_projection true scheme_parser (Some checker_qr) true png_stub
              native_code
              (scenario "Arts") (js "ul") [] [] [] eq_refl eq_refl eq_refl eq_refl)
    as (projection & cards & markers & Hf & Hdraw & Hcards & Hmarks).
  assert (E : projection = [test_org]).
  { assert (H : Normal projection = Normal [test_org]); [|by injection H].
    rewrite <- Hf. by vm_compute. }
  subst projection. exists cards, markers. rewrite Hdraw. split; [by vm_compute|].
  split.
  - by rewrite <- (Forall2_length _ _ _ Hcards).
  - by rewrite <- (Forall2_length _ _ _ Hmarks).
Defined.

Lemma updateDisplay_failures_witness :
  let pg := Page (js "English") (js "Arts") [test_org; no_languages_org]
              (Some (appendChild (Text (js "old")) (createElement "ul"))) None (Some []) in
  ∃ e, updateDisplay true scheme_parser (Some checker_qr) true png_stub native_code pg
       = (Page (js "English") (js "Arts") [test_org; no_languages_org]
            (Some (createElement "ul")) None (Some []), Some e).
Proof.
  intros pg.
  destruct (proj1 (proj2 (updateDisplay_failures true scheme_parser (Some checker_qr) true
                            png_stub native_code pg))
              _ _ eq_refl eq_refl eq_refl) as [e He].
  exists e. exact He.
Defined.

(** ** The image of a QR code *)

Lemma draw_modules_elem qr cellSize margin r :
  r ∈ draw_modules qr cellSize margin ↔
  ∃ row col, (row < getModuleCount qr)%nat ∧ (col < getModuleCount qr)%nat
             ∧ isDark qr row col = true
             ∧ r = FillRect (js "#000000") (col * cellSize + margin)
                     (row * cellSize + margin) cellSize cellSize.
Proof.
  unfold draw_modules. rewrite list_elem_of_In, in_flat_map. split.
  - intros (row & Hrow%in_seq & Hr). apply in_flat_map in Hr as (col & Hcol%in_seq & Hr).
    destruct (isDark qr row col) eqn:Hd; [|done].
    destruct Hr as [<-|[]]. exists row, col. repeat split; [lia|lia|done].
  - intros (row & col & Hrow & Hcol & Hd & ->). exists row.
    split; [apply in_seq; lia|]. apply in_flat_map. exists col.
    split; [apply in_seq; lia|]. rewrite Hd. by left.
Qed.

Section QrImage.

Variable security : bool.
Variable parseURL : jsstring -> option URL.
Variable qrcode : option (option jsstring -> completion QRCode).
Variable getContext2d : bool.
Variable toDataURL : canvas -> completion jsstring.

Local Abbreviation make :=
  (generateQrCode security parseURL qrcode getContext2d toDataURL).

(** X16. When [generateQrCode] returns anything but the placeholder, it
    is an image exported from a square canvas of [4n + 16] pixels for
    [n] modules: a white background, then one black square of 4 pixels
    for each dark module and nothing else, every square leaving the
    margin of 8 pixels free on all sides.  Its [alt] names the encoded
    data, which with the sanitizer installed is the serialisation of an
    http or https URL. *)
Theorem generateQrCode_image (url : option jsstring) (el : node) :
  make url = Normal el → el ≠ placeholder url →
  ∃ encode data qr src,
    qrcode = Some encode ∧ encode data = Normal qr
    ∧ (security = false → data = url)
    ∧ (security = true → ∃ s u, url = Some s ∧ parseURL s = Some u ∧ http_or_https u
                                ∧ data = Some (href u))
    ∧ let size := (getModuleCount qr * 4 + 8 * 2)%nat in
      toDataURL (Canvas size size (js "80px") (js "80px")
                   (FillRect (js "#ffffff") 0 0 size size :: draw_modules qr 4 8))
      = Normal src
      ∧ el = set_prop "style.cssText" (js "width: 80px; height: 80px;")
               (set_prop "alt" (js "QR code for " ++ show data)
                  (set_prop "src" src (createElement "img")))
      ∧ (∀ r, r ∈ draw_modules qr 4 8 ↔
              ∃ row col, (row < getModuleCount qr)%nat ∧ (col < getModuleCount qr)%nat
                         ∧ isDark qr row col = true
                         ∧ r = FillRect (js "#000000") (col * 4 + 8) (row * 4 + 8) 4 4)
      ∧ (∀ r, r ∈ draw_modules qr 4 8 →
              (8 ≤ fx r ∧ fx r + fw r + 8 ≤ size ∧ 8 ≤ fy r ∧ fy r + fh r + 8 ≤ size)%nat).
Proof.
  intros Hel Hne.
  destruct (generateQrCode_cases security parseURL qrcode getContext2d toDataURL url)
    as [(img & Htry & Himg)|[_ Hp]]; [|congruence].
  assert (img = el) as -> by congruence. clear Hel Himg Hne.
  unfold generateQrCode_try in Htry.
  destruct (if security then _ else _) as [data|] eqn:Hdata; [|done].
  cbn [mbind completion_bind] in Htry.
  destruct qrcode as [encode|]; [|done]. cbn [mbind completion_bind] in Htry.
  destruct (encode data) as [qr|] eqn:Hqr; [|done]. cbn [mbind completion_bind] in Htry.
  destruct getContext2d; [|done]. cbn [mbind completion_bind] in Htry.
  destruct (toDataURL _) as [src|] eqn:Hsrc; [|done]. cbn [mbind completion_bind] in Htry.
  injection Htry as <-.
  exists encode, data, qr, src. split; [done|]. split; [done|].
  split; [|split; [|split; [|split; [|split]]]].
  - intros ->. unfold try_catch in Hdata. cbn [mbind completion_bind] in Hdata.
    destruct (parseURL (show url)); [|done]. cbn in Hdata. congruence.
  - intros ->.
    destruct (sanitizeURL_cases parseURL (str_value url)) as [E|(s & u & Hs & Hu & Hh & E)].
    + by rewrite E in Hdata.
    + rewrite E in Hdata. exists s, u. destruct url as [s'|]; [|done].
      injection Hs as ->. split; [done|]. split; [done|]. split; [done|].
      destruct (negb _); congruence.
  - exact Hsrc.
  - done.
  - apply draw_modules_elem.
  - intros r (row & col & Hrow & Hcol & _ & ->)%draw_modules_elem. cbn [fx fy fw fh]. lia.
Qed.

End QrImage.

Lemma generateQrCode_image_witness :
  ∃ el, generateQrCode true scheme_parser (Some checker_qr) true png_stub
          (Some (js "https://example.org")) = Normal el
        ∧ prop "alt" el = Some (js "QR code for https://example.org")
        ∧ prop "src" el = Some (js "data:image/png;base64,").
Proof.
  eexists. split; [by vm_compute|].
  destruct (generateQrCode_image true scheme_parser (Some checker_qr) true png_stub
              (Some (js "https://example.org")) _ eq_refl)
    as (encode & data & qr & src & _ & _ & _ & Hd & _ & Hel & _).
  - by vm_compute.
  - split; by vm_compute.
Defined.


(** ** Installing, activating and serving *)

Lemma store_all_other (responses : list (jsstring * jsstring))
    (cache : gmap jsstring jsstring) url :
  url ∉ responses.*1 →
  foldl (λ cache entry, <[ entry.1 := entry.2 ]> cache) cache responses !! url
  = cache !! url.
Proof.
  revert cache. induction responses as [|[u r] rs IH]; intros cache Hn; [done|].
  cbn [foldl fst snd]. rewrite fmap_cons, not_elem_of_cons in Hn. destruct Hn as [Hne Hn].
  rewrite IH by done. by rewrite lookup_insert_ne.
Qed.

Lemma store_all_stored (responses : list (jsstring * jsstring))
    (cache : gmap jsstring jsstring) url response :
  (url, response) ∈ responses →
  (∀ other, (url, other) ∈ responses → other = response) →
  foldl (λ cache entry, <[ entry.1 := entry.2 ]> cache) cache responses !! url
  = Some response.
Proof.
  revert cache. induction responses as [|[u r] rs IH]; intros cache Hin Hfun.
  - by apply elem_of_nil in Hin.
  - cbn [foldl fst snd].
    destruct (decide (url ∈ rs.*1)) as [Hrs|Hrs].
    + apply list_elem_of_fmap in Hrs as ([u' r'] & -> & Hrs). cbn [fst] in *.
      assert (r' = response) as -> by (apply Hfun; by right).
      apply IH; [done|]. intros other Ho. apply Hfun. by right.
    + rewrite store_all_other by done.
      apply elem_of_cons in Hin as [[= <- <-]|Hin].
      * by rewrite lookup_insert_eq.
      * destruct Hrs. apply list_elem_of_fmap. by exists (url, response).
Qed.

Lemma caches_open_lookup (cacheName : jsstring)
    (c : gmap jsstring (gmap jsstring jsstring)) (other : jsstring) :
  caches_open cacheName c !! other
  = if decide (other = cacheName) then Some (default ∅ (c !! cacheName)) else c !! other.
Proof.
  unfold caches_open. destruct (c !! cacheName) as [cache|] eqn:E.
  - case_decide as H; [by subst; rewrite E|done].
  - case_decide as H; [subst; by rewrite lookup_insert_eq|by rewrite lookup_insert_ne].
Qed.

Section Install.

Variable CACHE_NAME : jsstring.
Variable resolve : jsstring -> jsstring.
Variable fetch : jsstring -> completion jsstring.
Variable ok : jsstring -> bool.

Local Abbreviation add_all := (addAll resolve fetch ok).
Local Abbreviation on_install := (install CACHE_NAME resolve fetch ok).

Lemma addAll_Normal requests cache stored :
  add_all requests cache = Normal stored →
  (∀ request, request ∈ requests →
     ∃ response, fetch (resolve request) = Normal response ∧ ok response = true
                 ∧ stored !! resolve request = Some response)
  ∧ (∀ url, url ∉ resolve <$> requests → stored !! url = cache !! url).
Proof.
  unfold addAll. destruct (mapM _ requests) as [responses|] eqn:Hm; [|done].
  cbn [mbind completion_bind]. intros [= <-]. apply mapM_Normal in Hm.
  assert (Hentries : ∀ url response, (url, response) ∈ responses →
            fetch url = Normal response ∧ ok response = true ∧ url ∈ resolve <$> requests).
  { intros url response Hin. apply list_elem_of_lookup in Hin as [i Hi].
    destruct (Forall2_lookup_r _ _ _ _ _ Hm Hi) as (request & Hr & Hf).
    unfold mbind, completion_bind in Hf.
    destruct (fetch (resolve request)) as [r|] eqn:Hfetch; [|done].
    destruct (ok r) eqn:Hok; [|done]. injection Hf as <- <-.
    split; [done|]. split; [done|].
    apply list_elem_of_fmap. exists request. split; [done|].
    by apply list_elem_of_lookup_2 in Hr. }
  split.
  - intros request Hin. apply list_elem_of_lookup in Hin as [i Hi].
    destruct (Forall2_lookup_l _ _ _ _ _ Hm Hi) as ([url response] & Hr & Hf).
    unfold mbind, completion_bind in Hf.
    destruct (fetch (resolve request)) as [r|] eqn:Hfetch; [|done].
    destruct (ok r) eqn:Hok; [|done]. injection Hf as <- <-.
    exists r. split; [done|]. split; [done|].
    apply store_all_stored; [by apply list_elem_of_lookup_2 in Hr|].
    intros other Ho. apply Hentries in Ho as [Ho _]. congruence.
  - intros url Hn. apply store_all_other. intros Hin.
    apply list_elem_of_fmap in Hin as ([u r] & -> & Hin).
    by apply Hentries in Hin as (_ & _ & Hin).
Qed.

Lemma addAll_Throw requests cache e :
  add_all requests cache = Throw e →
  ∃ request, request ∈ requests
             ∧ ∀ response, fetch (resolve request) = Normal response → ok response = false.
Proof.
  unfold addAll. destruct (mapM _ requests) as [responses|e'] eqn:Hm; [done|].
  intros _. apply mapM_Throw in Hm as (request & Hin & Hf). exists request.
  split; [done|]. intros response Hr. rewrite Hr in Hf. cbn [mbind completion_bind] in Hf.
  by destruct (ok response).
Qed.

Lemma addAll_returns requests cache :
  (∀ request, request ∈ requests →
     ∃ response, fetch (resolve request) = Normal response ∧ ok response = true) →
  ∃ stored, add_all requests cache = Normal stored.
Proof.
  intros Hall. destruct (add_all requests cache) as [stored|e] eqn:E; [by eauto|].
  apply addAll_Throw in E as (request & Hin & Hbad).
  destruct (Hall request Hin) as (response & Hr & Hok).
  rewrite (Hbad response Hr) in Hok. done.
Qed.

Lemma install_stores_assets (c : gmap jsstring (gmap jsstring jsstring)) :
  (∀ asset, asset ∈ STATIC_ASSETS →
     ∃ response, fetch (resolve asset) = Normal response ∧ ok response = true) →
  ∃ cache,
    installed (on_install c) !! CACHE_NAME = Some cache
    ∧ (∀ asset, asset ∈ STATIC_ASSETS →
         ∃ response, fetch (resolve asset) = Normal response
                     ∧ cache !! resolve asset = Some response)
    ∧ (∀ url, url ∉ resolve <$> STATIC_ASSETS →
         cache !! url = default ∅ (c !! CACHE_NAME) !! url)
    ∧ (∀ other, other ≠ CACHE_NAME → installed (on_install c) !! other = c !! other)
    ∧ skipped_waiting (on_install c) = true
    ∧ rejected (on_install c) = None.
Proof.
  intros Hall. unfold install.
  assert (Hopen : default ∅ (caches_open CACHE_NAME c !! CACHE_NAME)
                  = default ∅ (c !! CACHE_NAME)).
  { rewrite caches_open_lookup. by rewrite decide_True. }
  rewrite Hopen.
  destruct (addAll_returns STATIC_ASSETS (default ∅ (c !! CACHE_NAME)) Hall)
    as [stored Hs].
  rewrite Hs. cbn [installed skipped_waiting rejected].
  apply addAll_Normal in Hs as [Hstored Hkept].
  exists stored. split; [by rewrite lookup_insert_eq|].
  split; [|split; [exact Hkept|split; [|done]]].
  - intros asset Hin. destruct (Hstored asset Hin) as (r & ? & _ & ?). eauto.
  - intros other Hne. rewrite lookup_insert_ne by done.
    rewrite caches_open_lookup. by rewrite decide_False.
Qed.

(** X17. [install] stores all the static assets or none.  When every
    asset is fetched with an ok response, the current cache holds each
    asset's response under its URL, keeps what else it held, the other
    caches are untouched and [skipWaiting] is called.  When one asset
    cannot be fetched or is not ok, the installation is rejected,
    [skipWaiting] is not called, and nothing is stored: the storage is
    as before, but for the current cache having been created. *)
Theorem install_all_or_nothing (c : gmap jsstring (gmap jsstring jsstring)) :
  ((∀ asset, asset ∈ STATIC_ASSETS →
      ∃ response, fetch (resolve asset) = Normal response ∧ ok response = true) →
   ∃ cache,
     installed (on_install c) !! CACHE_NAME = Some cache
     ∧ (∀ asset, asset ∈ STATIC_ASSETS →
          ∃ response, fetch (resolve asset) = Normal response
                      ∧ cache !! resolve asset = Some response)
     ∧ (∀ url, url ∉ resolve <$> STATIC_ASSETS →
          cache !! url = default ∅ (c !! CACHE_NAME) !! url)
     ∧ (∀ other, other ≠ CACHE_NAME → installed (on_install c) !! other = c !! other)
     ∧ skipped_waiting (on_install c) = true
     ∧ rejected (on_install c) = None)
  ∧ ((∃ asset, asset ∈ STATIC_ASSETS
               ∧ ∀ response, fetch (resolve asset) = Normal response → ok response = false) →
     installed (on_install c) = caches_open CACHE_NAME c
     ∧ installed (on_install c) !! CACHE_NAME = Some (default ∅ (c !! CACHE_NAME))
     ∧ (∀ other, other ≠ CACHE_NAME → installed (on_install c) !! other = c !! other)
     ∧ skipped_waiting (on_install c) = false
     ∧ is_Some (rejected (on_install c))).
Proof.
  assert (Hopen : default ∅ (caches_open CACHE_NAME c !! CACHE_NAME)
                  = default ∅ (c !! CACHE_NAME)).
  { rewrite caches_open_lookup. by rewrite decide_True. }
  split; [apply install_stores_assets|].
  - intros (asset & Hin & Hbad). unfold install. rewrite Hopen.
    destruct (add_all STATIC_ASSETS _) as [stored|e] eqn:Hs.
    + apply addAll_Normal in Hs as [Hstored _].
      destruct (Hstored asset Hin) as (r & Hr & Hok & _).
      rewrite (Hbad r Hr) in Hok. done.
    + cbn [installed skipped_waiting rejected]. split; [done|].
      split; [rewrite caches_open_lookup; by rewrite decide_True|].
      split; [|by eauto].
      intros other Hne. rewrite caches_open_lookup. by rewrite decide_False.
Qed.

End Install.

Lemma install_all_or_nothing_witness :
  (∃ cache, installed (install community_resources_v1 id online (λ _, true) ∅)
            !! community_resources_v1 = Some cache
            ∧ cache !! js "/index.html" = Some (js "content of /index.html"))
  ∧ installed (install community_resources_v1 id offline (λ _, true) ∅)
    = {[ community_resources_v1 := ∅ ]}.
Proof.
  split.
  - destruct (proj1 (install_all_or_nothing community_resources_v1 id online (λ _, true) ∅))
      as (cache & Hc & Hassets & _).
    { intros asset _. by eexists. }
    exists cache. split; [exact Hc|].
    destruct (Hassets (js "/index.html")) as (r & Hr & Hl).
    { apply list_elem_of_In. vm_compute. tauto. }
    cbn [id] in Hl. rewrite Hl. f_equal. by injection Hr as <-.
  - destruct (proj2 (install_all_or_nothing community_resources_v1 id offline (λ _, true) ∅))
      as (Hc & _).
    { exists (js "/"). split; [by left|done]. }
    rewrite Hc. reflexivity.
Defined.

Lemma caches_match_Some (c : gmap jsstring (gmap jsstring jsstring)) (url response : jsstring) :
  caches_match c url = Some response →
  ∃ cacheName cache, c !! cacheName = Some cache ∧ cache !! url = Some response.
Proof.
  unfold caches_match. intros H. apply head_Some_elem_of in H.
  apply list_elem_of_omap in H as (cacheName & _ & H).
  destruct (c !! cacheName) as [cache|] eqn:E; [|done]. by exists cacheName, cache.
Qed.

Lemma caches_match_None (c : gmap jsstring (gmap jsstring jsstring)) (url : jsstring) :
  caches_match c url = None ↔
  ∀ cacheName cache, c !! cacheName = Some cache → cache !! url = None.
Proof.
  unfold caches_match. rewrite head_None. split.
  - intros H cacheName cache Hc.
    destruct (cache !! url) as [response|] eqn:E; [|done].
    assert (Hin : response ∈ omap (λ cacheName, c !! cacheName ≫= λ cache, cache !! url)
                               (caches_keys c)).
    { apply list_elem_of_omap. exists cacheName. split; [apply caches_keys_elem; eauto|].
      by rewrite Hc. }
    rewrite H in Hin. by apply elem_of_nil in Hin.
  - intros H. destruct (omap _ _) as [|response rest] eqn:E; [done|].
    assert (Hin : response ∈ omap (λ cacheName, c !! cacheName ≫= λ cache, cache !! url)
                               (caches_keys c)) by (rewrite E; by left).
    apply list_elem_of_omap in Hin as (cacheName & _ & Hr).
    destruct (c !! cacheName) as [cache|] eqn:Hc; [|done].
    cbn in Hr. by rewrite (H cacheName cache Hc) in Hr.
Qed.

Lemma caches_match_singleton (cacheName : jsstring) (cache : gmap jsstring jsstring)
    (url : jsstring) :
  caches_match {[ cacheName := cache ]} url = cache !! url.
Proof.
  unfold caches_match, caches_keys. rewrite map_to_list_singleton.
  cbn [fmap list_fmap fst omap list_omap]. rewrite lookup_singleton_eq. cbn.
  by destruct (cache !! url).
Qed.

Lemma activate_single (CACHE_NAME : jsstring) (c : gmap jsstring (gmap jsstring jsstring))
    (cache : gmap jsstring jsstring) (claimed : bool) :
  c !! CACHE_NAME = Some cache →
  caches (activate CACHE_NAME (Worker c claimed)) = {[ CACHE_NAME := cache ]}.
Proof.
  intros Hc. apply map_eq. intros cacheName. rewrite activate_lookup. cbn [caches].
  case_decide as H.
  - subst. by rewrite lookup_singleton_eq.
  - by rewrite lookup_singleton_ne.
Qed.



(** X19. Installed and activated, the site works offline.  After an
    installation in which every static asset was fetched, and the
    activation that follows, the storage holds the current cache alone;
    every static asset is then served as it was fetched at
    installation, whatever the network does; and a document request
    made while the network is down is always answered, with the
    installed [/index.html] when the page asked for is not stored. *)
Theorem installed_site_works_offline (CACHE_NAME : jsstring)
    (resolve : jsstring -> jsstring) (network : jsstring -> completion jsstring)
    (ok : jsstring -> bool) (c : gmap jsstring (gmap jsstring jsstring)) (claimed : bool) :
  (∀ asset, asset ∈ STATIC_ASSETS →
     ∃ response, network (resolve asset) = Normal response ∧ ok response = true) →
  let w := activate CACHE_NAME
             (Worker (installed (install CACHE_NAME resolve network ok c)) claimed) in
  dom (caches w) = {[ CACHE_NAME ]}
  ∧ (∀ later asset destination, asset ∈ STATIC_ASSETS →
       ∃ response,
         network (resolve asset) = Normal response
         ∧ on_fetch resolve later (caches w) (Request (resolve asset) destination)
           = Some response)
  ∧ (∀ later url, throws (later url) →
       is_Some (on_fetch resolve later (caches w) (Request url (js "document")))
       ∧ (url ∉ resolve <$> STATIC_ASSETS →
          default ∅ (c !! CACHE_NAME) !! url = None →
          ∃ page, network (resolve (js "/index.html")) = Normal page
                  ∧ on_fetch resolve later (caches w) (Request url (js "document"))
                    = Some page)).
Proof.
  intros Hall w.
  destruct (install_stores_assets CACHE_NAME resolve network ok c Hall)
    as (cache & Hcache & Hassets & Hkept & _).
  assert (Hw : caches w = {[ CACHE_NAME := cache ]}) by by apply activate_single.
  assert (Hindex : ∃ page, network (resolve (js "/index.html")) = Normal page
                           ∧ cache !! resolve (js "/index.html") = Some page).
  { apply Hassets. apply list_elem_of_In. vm_compute. tauto. }
  rewrite Hw. split; [by rewrite dom_singleton_L|]. split.
  - intros later asset destination Hin.
    destruct (Hassets asset Hin) as (response & Hr & Hl). exists response.
    split; [done|]. unfold on_fetch. cbn [request_url].
    by rewrite caches_match_singleton, Hl.
  - intros later url [e He]. destruct Hindex as (page & Hpage & Hl).
    unfold on_fetch. cbn [request_url request_destination].
    rewrite !caches_match_singleton, He, Hl. unfold streq.
    rewrite bool_decide_eq_true_2 by done. split.
    + destruct (cache !! url); eauto.
    + intros Hn Hold. exists page. split; [done|].
      by rewrite (Hkept url Hn), Hold.
Qed.

Lemma installed_site_works_offline_witness :
  on_fetch id offline
    (caches (activate community_resources_v1
               (Worker (installed (install community_resources_v1 id online (λ _, true)
                                     {[ js "community-resources-v0" := ∅ ]})) false)))
    (Request (js "/lib/leaflet.js") (js "script"))
  = Some (js "content of /lib/leaflet.js").
Proof.
  destruct (installed_site_works_offline community_resources_v1 id online (λ _, true)
              {[ js "community-resources-v0" := ∅ ]} false) as (_ & Hassets & _).
  { intros asset _. by eexists. }
  destruct (Hassets offline (js "/lib/leaflet.js") (js "script")) as (response & Hr & Hf).
  { apply list_elem_of_In. vm_compute. tauto. }
  cbn [id] in Hf. rewrite Hf. f_equal. by injection Hr as <-.
Defined.

(** ** Translated texts and filter buttons *)

Lemma str_truthy_keys (t : gmap jsstring jsstring) key :
  str_truthy (t !! key) = true ↔ key ∈ truthy_keys t.
Proof.
  unfold truthy_keys. rewrite elem_of_dom. unfold is_Some.
  setoid_rewrite map_lookup_filter_Some. cbn [snd].
  destruct (t !! key) as [[|c s]|]; cbn.
  - split; [done|]. by intros (x & [= <-] & H).
  - split; [by eauto|done].
  - split; [done|]. by intros (x & ? & _).
Qed.

(** For a language that is not named like a member of
    [Object.prototype] the translation set is such a table. *)
Lemma translations_complete language :
  language ∉ Object_prototype →
  ∃ t, translationSet_for language = Table t
       ∧ currentTranslations_for language = t
       ∧ page_table t.
Proof.
  assert (H : bool_decide
                (map_Forall
                   (λ _ t, truthy_keys t
                           = truthy_keys (currentTranslations_for (js "English"))
                           ∧ Forall (λ name, t !! name = None) Object_prototype)
                   translations) = true) by by vm_compute.
  apply bool_decide_eq_true_1 in H.
  assert (HE : bool_decide
                 (Forall (λ name, currentTranslations_for (js "English") !! name = None)
                    Object_prototype) = true) by by vm_compute.
  apply bool_decide_eq_true_1 in HE.
  intros Hl. unfold currentTranslations_for at 1. unfold translationSet_for.
  destruct (translations !! language) as [t|] eqn:E.
  - exists t. split; [done|]. split; [done|]. by apply (H language).
  - rewrite bool_decide_eq_false_2 by done. eexists. split; [done|]. split; [done|].
    split; [done|exact HE].
Qed.

Section Translation.

Variable nativeText : jsstring -> jsstring.
Variable nativeRead : jsstring -> jsstring -> option jsstring.

(** What a table of the page gives for a key: its own text, the
    inherited member, or nothing. *)
Lemma translation_table t key :
  page_table t →
  translation nativeText nativeRead (Table t) key
  = if bool_decide (key ∈ truthy_keys (currentTranslations_for (js "English")))
    then Some (default [] (t !! key))
    else if bool_decide (key ∈ Object_prototype) then Some (nativeText key)
    else None.
Proof.
  intros [Hk Hplain]. rewrite <- Hk.
  assert (Hown : key ∈ truthy_keys t ↔ str_truthy (t !! key) = true)
    by (by rewrite str_truthy_keys).
  assert (Hin : key ∈ Object_prototype → t !! key = None).
  { rewrite Forall_forall in Hplain. apply Hplain. }
  unfold translation, read.
  destruct (t !! key) as [[|c s]|] eqn:E;
    cbn [property_truthy truthy as_text from_option id].
  - rewrite !bool_decide_eq_false_2; [done| |].
    + intros H. by apply Hin in H.
    + intros H. by apply Hown in H.
  - rewrite bool_decide_eq_true_2; [done|]. by apply Hown.
  - rewrite (bool_decide_eq_false_2 (key ∈ truthy_keys t)).
    + by case_bool_decide.
    + intros H. by apply Hown in H.
Qed.

Lemma translate_translate (first second : gmap jsstring jsstring) el :
  page_table first → page_table second →
  translate nativeText nativeRead (Table second)
    (translate nativeText nativeRead (Table first) el)
  = translate nativeText nativeRead (Table second) el.
Proof.
  intros H1 H2. unfold translate. destruct el as [key text]. cbn [fst].
  rewrite (translation_table first key H1).
  assert (H := translation_table second key H2).
  repeat case_bool_decide; cbn [fst]; by rewrite H.
Qed.

Lemma translate_key translationSet el :
  (translate nativeText nativeRead translationSet el).1 = el.1.
Proof. unfold translate. by destruct (translation _ _ _ _). Qed.

End Translation.

Lemma redisplay_texts security parseURL qrcode getContext2d toDataURL nativeText d :
  translatable (redisplay security parseURL qrcode getContext2d toDataURL nativeText d).1
  = translatable d
  ∧ languageFilters
      (redisplay security parseURL qrcode getContext2d toDataURL nativeText d).1
    = languageFilters d
  ∧ communityFilters
      (redisplay security parseURL qrcode getContext2d toDataURL nativeText d).1
    = communityFilters d
  ∧ view (redisplay security parseURL qrcode getContext2d toDataURL nativeText d).1
    = (updateDisplay security parseURL qrcode getContext2d toDataURL nativeText
         (view d)).1.
Proof. unfold redisplay. by destruct (updateDisplay _ _ _ _ _ _ _). Qed.

Lemma redisplay_twice security parseURL qrcode getContext2d toDataURL nativeText d :
  redisplay security parseURL qrcode getContext2d toDataURL nativeText
    (redisplay security parseURL qrcode getContext2d toDataURL nativeText d).1
  = redisplay security parseURL qrcode getContext2d toDataURL nativeText d.
Proof.
  unfold redisplay.
  pose proof (updateDisplay_idempotent security parseURL qrcode getContext2d toDataURL
                nativeText (view d)) as H.
  destruct (updateDisplay _ _ _ _ _ _ (view d)) as [pg e] eqn:E. cbn [fst view] in *.
  by rewrite H.
Qed.

Section Texts.

Variable security : bool.
Variable parseURL : jsstring -> option URL.
Variable qrcode : option (option jsstring -> completion QRCode).
Variable getContext2d : bool.
Variable toDataURL : canvas -> completion jsstring.
Variable nativeText : jsstring -> jsstring.
Variable nativeRead : jsstring -> jsstring -> option jsstring.

Local Abbreviation apply_language :=
  (applyTranslations security parseURL qrcode getContext2d toDataURL nativeText nativeRead).
Local Abbreviation show_again :=
  (redisplay security parseURL qrcode getContext2d toDataURL nativeText).
Local Abbreviation click_language :=
  (language_click security parseURL qrcode getContext2d toDataURL nativeText nativeRead).
Local Abbreviation click_community :=
  (community_click security parseURL qrcode getContext2d toDataURL nativeText).
Local Abbreviation click_clear_all :=
  (clear_all_click security parseURL qrcode getContext2d toDataURL nativeText nativeRead).
Local Abbreviation translate_with := (translate nativeText nativeRead).
Local Abbreviation display :=
  (updateDisplay security parseURL qrcode getContext2d toDataURL nativeText).

Lemma applyTranslations_texts language d :
  translatable (apply_language language d).1
  = translate_with (translationSet_for language) <$> translatable d.
Proof.
  unfold applyTranslations.
  by destruct (redisplay_texts security parseURL qrcode getContext2d toDataURL nativeText
                 (Document (view d)
                    (translate_with (translationSet_for language) <$> translatable d)
                    (languageFilters d) (communityFilters d))) as [-> _].
Qed.


Lemma deactivate_lookup buttons j :
  deactivate buttons !! j = (λ btn, Button (data_filter btn) false) <$> buttons !! j.
Proof. unfold deactivate. by rewrite list_lookup_fmap. Qed.

Lemma select_lookup buttons i btn j :
  buttons !! i = Some btn →
  <[ i := Button (data_filter btn) true ]> (deactivate buttons) !! j
  = (λ other, Button (data_filter other) (bool_decide (j = i))) <$> buttons !! j.
Proof.
  intros Hi. destruct (decide (j = i)) as [->|Hne].
  - rewrite list_lookup_insert_eq.
    + rewrite Hi. cbn. by rewrite bool_decide_eq_true_2.
    + unfold deactivate. rewrite length_fmap. by apply lookup_lt_Some in Hi.
  - rewrite list_lookup_insert_ne by done. rewrite deactivate_lookup.
    by rewrite bool_decide_eq_false_2.
Qed.

Lemma select_select buttons i btn :
  buttons !! i = Some btn →
  <[ i := Button (data_filter btn) true ]>
    (deactivate (<[ i := Button (data_filter btn) true ]> (deactivate buttons)))
  = <[ i := Button (data_filter btn) true ]> (deactivate buttons).
Proof.
  intros Hi. apply list_eq. intros j.
  assert (Hs : <[ i := Button (data_filter btn) true ]> (deactivate buttons) !! i
               = Some (Button (data_filter btn) (bool_decide (i = i)))).
  { rewrite (select_lookup _ _ _ _ Hi), Hi. done. }
  pose proof (select_lookup _ i (Button (data_filter btn) (bool_decide (i = i))) j Hs)
    as Hj.
  cbn [data_filter] in Hj. rewrite Hj.
  rewrite (select_lookup _ _ _ _ Hi). by destruct (buttons !! j).
Qed.

Lemma redisplay_fst d :
  (show_again d).1
  = Document (display (view d)).1
      (translatable d) (languageFilters d) (communityFilters d).
Proof. unfold redisplay. by destruct (updateDisplay _ _ _ _ _ _). Qed.

Lemma community_click_redisplay d i buttons btn :
  communityFilters d = Some buttons → buttons !! i = Some btn →
  click_community i d
  = show_again
      (Document
         (Page (selectedLanguage (view d)) (data_filter btn) (sanitizedPartners (view d))
            (organisationList (view d)) (listHeader (view d)) (markerLayer (view d)))
         (translatable d) (languageFilters d)
         (Some (<[ i := Button (data_filter btn) true ]> (deactivate buttons)))).
Proof. intros Hc Hi. unfold community_click. by rewrite Hc, Hi. Qed.

Lemma page_eta pg :
  Page (selectedLanguage pg) (selectedCommunity pg) (sanitizedPartners pg)
    (organisationList pg) (listHeader pg) (markerLayer pg) = pg.
Proof. by destruct pg. Qed.

Lemma community_click_again d i buttons btn :
  communityFilters d = Some buttons → buttons !! i = Some btn →
  click_community i (click_community i d).1 = click_community i d.
Proof.
  intros Hc Hi. rewrite (community_click_redisplay d i buttons btn Hc Hi).
  set (pg := Page _ _ _ _ _ _).
  set (selected := <[ i := _ ]> (deactivate buttons)).
  set (shown := Document pg _ _ _).
  assert (Hsel : selected !! i = Some (Button (data_filter btn) true)).
  { subst selected. rewrite (select_lookup _ _ _ _ Hi), Hi. cbn.
    by rewrite bool_decide_eq_true_2. }
  rewrite (community_click_redisplay (show_again shown).1 i selected
             (Button (data_filter btn) true)).
  - rewrite redisplay_fst. cbn [view translatable languageFilters communityFilters shown
                                 data_filter].
    destruct (updateDisplay_state security parseURL qrcode getContext2d toDataURL nativeText pg)
      as (Hlang & Hcomm & Hds).
    assert (Hpg : Page
                    (selectedLanguage
                       (display pg).1)
                    (data_filter btn)
                    (sanitizedPartners
                       (display pg).1)
                    (organisationList
                       (display pg).1)
                    (listHeader
                       (display pg).1)
                    (markerLayer
                       (display pg).1)
                  = (display pg).1).
    { rewrite <- (page_eta (display pg).1) at 6. by rewrite Hcomm. }
    rewrite Hpg. subst selected. rewrite (select_select _ _ _ Hi).
    rewrite <- (redisplay_twice security parseURL qrcode getContext2d toDataURL nativeText
                 shown).
    by rewrite redisplay_fst.
  - by rewrite redisplay_fst.
  - exact Hsel.
Qed.


Lemma language_click_redisplay d i buttons btn :
  languageFilters d = Some buttons → buttons !! i = Some btn →
  click_language i d
  = apply_language (data_filter btn)
      (Document
         (Page (data_filter btn) (selectedCommunity (view d)) (sanitizedPartners (view d))
            (organisationList (view d)) (listHeader (view d)) (markerLayer (view d)))
         (translatable d)
         (Some (<[ i := Button (data_filter btn) true ]> (deactivate buttons)))
         (communityFilters d)).
Proof. intros Hc Hi. unfold language_click. by rewrite Hc, Hi. Qed.

Lemma applyTranslations_fst language d :
  (apply_language language d).1
  = Document (display (view d)).1
      (translate_with (translationSet_for language) <$> translatable d)
      (languageFilters d) (communityFilters d).
Proof. unfold applyTranslations. by rewrite redisplay_fst. Qed.


Lemma not_before (buttons : list button) (j : nat) (filter_value : jsstring) :
  filter_value ∉ data_filter <$> take j buttons ↔
  ∀ k other, buttons !! k = Some other → (k < j)%nat → data_filter other ≠ filter_value.
Proof.
  rewrite list_elem_of_fmap. split.
  - intros H k other Hk Hlt Hv. apply H. exists other. split; [done|].
    apply elem_of_take. eauto.
  - intros H (other & -> & (k & Hk & Hlt)%elem_of_take). by apply (H k other).
Qed.

Lemma reset_buttons_lookup filter_value buttons j :
  reset_buttons filter_value buttons !! j
  = (λ btn, Button (data_filter btn)
              (bool_decide (data_filter btn = filter_value
                            ∧ filter_value ∉ data_filter <$> take j buttons)))
    <$> buttons !! j.
Proof.
  unfold reset_buttons.
  destruct (list_find _ (deactivate buttons)) as [[i found]|] eqn:E.
  - apply list_find_Some in E as (Hi & Hfound & Hfirst).
    rewrite deactivate_lookup in Hi.
    destruct (buttons !! i) as [btn|] eqn:Hbtn; [|done]. injection Hi as <-.
    cbn [data_filter] in *.
    assert (Hbefore : ∀ k other, buttons !! k = Some other → (k < i)%nat →
                                 data_filter other ≠ filter_value).
    { intros k other Hk Hlt. apply (Hfirst k (Button (data_filter other) false)); [|done].
      by rewrite deactivate_lookup, Hk. }
    rewrite (select_lookup _ _ _ _ Hbtn).
    destruct (buttons !! j) as [other|] eqn:Hj; [|done]. cbn. f_equal. f_equal.
    destruct (decide (j = i)) as [->|Hne].
    + assert (other = btn) as -> by congruence.
      rewrite !bool_decide_eq_true_2; [done| |done]. split; [done|by apply not_before].
    + rewrite !bool_decide_eq_false_2; [done| |done].
      intros [Hv Hb]. rewrite not_before in Hb.
      destruct (Nat.lt_total i j) as [Hlt|[Heq|Hgt]]; [|done|].
      * by apply (Hb i btn).
      * by apply (Hbefore j other).
  - apply list_find_None in E. rewrite deactivate_lookup.
    destruct (buttons !! j) as [other|] eqn:Hj; [|done]. cbn. f_equal. f_equal.
    rewrite bool_decide_eq_false_2; [done|]. intros [Hv _].
    rewrite Forall_forall in E.
    apply (E (Button (data_filter other) false)); [|done].
    apply list_elem_of_lookup. exists j.
    by rewrite deactivate_lookup, Hj.
Qed.


End Texts.




Lemma not_inherited (name : jsstring) :
  bool_decide (name ∈ Object_prototype) = false → name ∉ Object_prototype.
Proof. apply bool_decide_eq_false_1. Qed.


(** After the language [constructor], whose translation set is the
    function [Object], an element with the key [name] keeps the name of
    that function when English is applied; and the key [toString] shows
    the inherited member in every language. *)
Example applyTranslations_inherited_names :
  let d := Document (scenario "Arts") [(js "name", js "old"); (js "toString", js "old")]
             None None in
  translatable
    (applyTranslations true scheme_parser (Some checker_qr) true png_stub native_code
       native_members (js "English")
       (applyTranslations true scheme_parser (Some checker_qr) true png_stub native_code
          native_members (js "constructor") d).1).1
  = [(js "name", js "Object"); (js "toString", js "function toString() { [native code] }")]
  ∧ translatable
      (applyTranslations true scheme_parser (Some checker_qr) true png_stub native_code
         native_members (js "English") d).1
    = [(js "name", js "old"); (js "toString", js "function toString() { [native code] }")].
Proof. split; by vm_compute. Qed.

(** ** The rotating category *)

Lemma set_textContent_set v w n :
  set_textContent v (set_textContent w n) = set_textContent v n.
Proof. by destruct n. Qed.

Lemma tick_Scroller index el :
  tick (Scroller index el)
  = Scroller ((index + 1) mod 10)
      (set_textContent (categories !! ((index + 1) mod 10)%nat) el).
Proof. done. Qed.

Lemma ticks_from_start el n :
  Nat.iter (S n) tick (Scroller 0 el)
  = Scroller (S n mod 10) (set_textContent (categories !! (S n mod 10)%nat) el).
Proof.
  induction n as [|n IH].
  - done.
  - change (Nat.iter (S (S n)) tick (Scroller 0 el))
      with (tick (Nat.iter (S n) tick (Scroller 0 el))).
    rewrite IH, tick_Scroller, set_textContent_set.
    assert (E : ((S n mod 10 + 1) mod 10 = S (S n) mod 10)%nat).
    { rewrite Nat.Div0.add_mod_idemp_l. f_equal. lia. }
    by rewrite E.
Qed.

(** X24. The rotating category of the title: with the element
    present, after any number of ticks of the interval the index is the
    number of ticks modulo ten, always inside the array, and the
    element shows the category at that index, never an empty text; the
    display repeats every ten ticks, and its first text is the second
    category.  Without the element no interval is set. *)
Theorem scrolling_category_cycles (el : node) (n : nat) :
  startScrollingCategory None = None
  ∧ ∃ s,
      startScrollingCategory (Some el) = Some s
      ∧ currentIndex (Nat.iter (S n) tick s) = (S n mod 10)%nat
      ∧ (currentIndex (Nat.iter (S n) tick s) < length categories)%nat
      ∧ (∃ category,
           categories !! currentIndex (Nat.iter (S n) tick s) = Some category
           ∧ category ≠ []
           ∧ scrollingElement (Nat.iter (S n) tick s) = set_textContent (Some category) el)
      ∧ Nat.iter (S n + 10) tick s = Nat.iter (S n) tick s
      ∧ scrollingElement (tick s) = set_textContent (Some (js "health")) el.
Proof.
  split; [done|]. exists (Scroller 0 el). split; [done|].
  rewrite ticks_from_start. cbn [currentIndex scrollingElement].
  assert (Hlt : (S n mod 10 < 10)%nat) by (apply Nat.mod_upper_bound; lia).
  split; [done|]. split; [exact Hlt|]. split; [|split; [|done]].
  - destruct (categories !! (S n mod 10)%nat) as [category|] eqn:E.
    + exists category. split; [done|]. split; [|done].
      apply list_elem_of_lookup_2 in E. intros ->.
      by vm_compute in E; repeat (apply elem_of_cons in E as [E|E]; [done|]);
        apply elem_of_nil in E.
    + apply lookup_ge_None in E. change (length categories) with 10%nat in E. lia.
  - change (S n + 10)%nat with (S (n + 10)). rewrite ticks_from_start.
    assert (E : (S (n + 10) mod 10 = S n mod 10)%nat).
    { replace (S (n + 10)) with (S n + 1 * 10)%nat by lia. apply Nat.Div0.mod_add. }
    by rewrite E.
Qed.

(** ** Elements made by the security manager *)

Lemma sanitizeText_falsy v : truthy v = false → sanitizeText v = [].
Proof. destruct v as [| | | |[|c s]| |]; try done. Qed.

Lemma sanitizeURL_safe parseURL v : safe_url parseURL (sanitizeURL parseURL v).
Proof.
  destruct (sanitizeURL_cases parseURL v) as [->|(s & u & _ & Hp & Hu & ->)];
    [by left|right; eauto].
Qed.

Lemma set_named_names name value props :
  NoDup props.*1 → NoDup (set_named name value props).*1.
Proof.
  intros Hnd. unfold set_named. case_bool_decide as Hin.
  - rewrite <- list_fmap_compose.
    rewrite (list_fmap_ext _ fst props); [done|].
    intros i [k w] _. cbn. by case_bool_decide.
  - rewrite fmap_app. apply NoDup_app. split; [done|]. split.
    + intros k Hk [->|[]%elem_of_nil]%elem_of_cons. done.
    + apply NoDup_singleton.
Qed.

Lemma set_named_elem name value props key w :
  (key, w) ∈ set_named name value props ↔
  (key = name ∧ w = value) ∨ (key ≠ name ∧ (key, w) ∈ props).
Proof.
  unfold set_named. case_bool_decide as Hin.
  - rewrite list_elem_of_fmap. split.
    + intros ([k x] & E & Hkx). cbn [fst] in E. case_bool_decide as Hk.
      * injection E as -> ->. by left.
      * injection E as -> ->. by right.
    + intros [[-> ->]|[Hne Hkw]].
      * apply list_elem_of_fmap in Hin as ([k x] & -> & Hkx).
        exists (k, x). cbn [fst]. by rewrite bool_decide_eq_true_2.
      * exists (key, w). cbn [fst]. by rewrite bool_decide_eq_false_2.
  - rewrite elem_of_app, list_elem_of_singleton. split.
    + intros [Hkw|[= -> ->]]; [|by left]. right. split; [|done].
      intros ->. apply Hin. apply list_elem_of_fmap. by exists (name, w).
    + intros [[-> ->]|[_ Hkw]]; [by right|by left].
Qed.

Lemma last_setting_snoc name attributes attribute :
  last_setting name (attributes ++ [attribute])
  = if decide (ascii_lowercase attribute.1 = name) then Some attribute
    else last_setting name attributes.
Proof.
  unfold last_setting. rewrite filter_app, filter_cons, filter_nil.
  case_decide; [by rewrite last_snoc|by rewrite app_nil_r].
Qed.

Section SecureElementProperties.

Variable parseURL : jsstring -> option URL.
Variable is_name : jsstring -> bool.

Local Abbreviation secure_element := (createSecureElement parseURL is_name).
Local Abbreviation secured_value := (secured parseURL).

Local Abbreviation set_attributes :=
  (foldl (λ (acc : completion node) (attribute : jsstring * value),
            element ← acc;
            if is_name (fst attribute)
            then Normal (setAttribute (fst attribute) (secured_value attribute) element)
            else Throw (HostError (js "InvalidCharacterError")))).

(** The attributes after the loop, from those before it. *)
Local Abbreviation set_all :=
  (foldl (λ props (attribute : jsstring * value),
            set_named (ascii_lowercase attribute.1) (secured_value attribute) props)).

Lemma set_attributes_Throw (attributes : list (jsstring * value)) e :
  set_attributes (Throw e) attributes = Throw e.
Proof. induction attributes as [|a attributes IH]; [done|]. cbn [foldl]. exact IH. Qed.

Lemma set_attributes_Normal (attributes : list (jsstring * value)) tag props children :
  if forallb (λ a, is_name a.1) attributes
  then set_attributes (Normal (Element tag props children)) attributes
       = Normal (Element tag (set_all props attributes) children)
  else throws (set_attributes (Normal (Element tag props children)) attributes).
Proof.
  revert props. induction attributes as [|a attributes IH]; intros props.
  - done.
  - cbn [forallb foldl mbind completion_bind setAttribute].
    destruct (is_name a.1) eqn:Ha; cbn [andb].
    + exact (IH (set_named (ascii_lowercase a.1) (secured_value a) props)).
    + rewrite set_attributes_Throw. by eexists.
Qed.

Lemma set_all_elem (attributes : list (jsstring * value)) :
  NoDup (set_all [] attributes).*1
  ∧ ∀ name w,
      (name, w) ∈ set_all [] attributes ↔
      ∃ attribute, last_setting name attributes = Some attribute
                   ∧ w = secured_value attribute.
Proof.
  induction attributes as [|a attributes [IHn IH]] using rev_ind.
  - split; [constructor|]. intros name w. split; [by intros H%elem_of_nil|].
    by intros (a & H & _).
  - rewrite foldl_app. cbn [foldl]. split; [by apply set_named_names|].
    intros name w. rewrite set_named_elem, last_setting_snoc, IH.
    case_decide as Hname.
    + split.
      * intros [[_ ->]|[Hne _]]; [by exists a|done].
      * intros (a' & [= <-] & ->). by left.
    + split.
      * intros [[-> _]|[_ H]]; [done|exact H].
      * intros H. right. split; [congruence|exact H].
Qed.

Lemma createSecureElement_loop tagName (attributes : list (jsstring * value)) content :
  secure_element tagName attributes content
  = (element ← (if is_name tagName then Normal (Element (ascii_lowercase tagName) [] [])
                else Throw (HostError (js "InvalidCharacterError")));
     element ← set_attributes (Normal element) attributes;
     Normal (if truthy content
             then set_textContent (Some (sanitizeText content)) element
             else element)).
Proof. reflexivity. Qed.

(** X25. [createSecureElement] returns an element exactly when the tag
    and every attribute name are names.  The element has each
    attribute once, under its name in lower case, with the value of the
    attribute that set it last; a value is the sanitized URL for the
    keys [href] and [src] and the sanitized text for any other key.  So
    an attribute other than [href] and [src] holds neither [<] nor
    [>]; and [href] and [src] are empty or the serialisation of a
    parsed http or https URL when no key spells them in another case:
    a key such as [HREF] sets [href] with sanitized text only.  The
    text of the element is the sanitized text given. *)
Theorem createSecureElement_safe (tagName : jsstring) (attributes : list (jsstring * value))
    (content : value) :
  (is_name tagName && forallb (λ a, is_name a.1) attributes = false →
   throws (secure_element tagName attributes content))
  ∧ (is_name tagName && forallb (λ a, is_name a.1) attributes = true →
     ∃ el,
       secure_element tagName attributes content = Normal el
       ∧ NoDup (attributes_of el).*1
       ∧ (∀ name v,
            (name, v) ∈ attributes_of el ↔
            ∃ attribute, last_setting name attributes = Some attribute
                         ∧ v = secured_value attribute)
       ∧ (∀ name v, (name, v) ∈ attributes_of el →
            name ≠ js "href" → name ≠ js "src" → no_angle v)
       ∧ ((∀ attribute, attribute ∈ attributes →
             ascii_lowercase attribute.1 = js "href"
             ∨ ascii_lowercase attribute.1 = js "src" →
             ascii_lowercase attribute.1 = attribute.1) →
          ∀ name v, (name, v) ∈ attributes_of el →
                    name = js "href" ∨ name = js "src" → safe_url parseURL v)
       ∧ textContent el = sanitizeText content
       ∧ no_angle (textContent el)).
Proof.
  rewrite createSecureElement_loop. split.
  - intros H. destruct (is_name tagName); [|by eexists].
    cbn [andb mbind completion_bind] in *.
    pose proof (set_attributes_Normal attributes (ascii_lowercase tagName) [] []) as Hset.
    rewrite H in Hset. destruct Hset as [e He]. rewrite He. by eexists.
  - intros [Htag Hnames]%andb_true_iff. rewrite Htag.
    cbn [mbind completion_bind].
    pose proof (set_attributes_Normal attributes (ascii_lowercase tagName) [] []) as Hset.
    rewrite Hnames in Hset. rewrite Hset. cbn [mbind completion_bind].
    destruct (set_all_elem attributes) as [Hnd Helem].
    set (props := set_all [] attributes) in *.
    eexists. split; [done|].
    assert (Htext : textContent
                      (if truthy content
                       then set_textContent (Some (sanitizeText content))
                              (Element (ascii_lowercase tagName) props [])
                       else Element (ascii_lowercase tagName) props [])
                    = sanitizeText content).
    { destruct (truthy content) eqn:Ht.
      - cbn [set_textContent]. destruct (sanitizeText content) as [|c s]; [done|].
        unfold textContent. cbn. by rewrite app_nil_r.
      - by rewrite sanitizeText_falsy. }
    assert (Hattrs : attributes_of
                       (if truthy content
                        then set_textContent (Some (sanitizeText content))
                               (Element (ascii_lowercase tagName) props [])
                        else Element (ascii_lowercase tagName) props [])
                     = props).
    { by destruct (truthy content). }
    rewrite Htext, Hattrs. split; [exact Hnd|]. split; [exact Helem|].
    split; [|split; [|split; [done|apply sanitizeText_no_angle]]].
    + intros name v (a & Hlast & ->)%Helem Hhref Hsrc.
      assert (Ha : ascii_lowercase a.1 = name).
      { apply last_Some_elem_of, list_elem_of_filter in Hlast. tauto. }
      unfold secured, streq.
      rewrite !bool_decide_eq_false_2; [apply sanitizeText_no_angle| |].
      * intros E. rewrite E in Ha. apply Hsrc. rewrite <- Ha. by vm_compute.
      * intros E. rewrite E in Ha. apply Hhref. rewrite <- Ha. by vm_compute.
    + intros Hcase name v (a & Hlast & ->)%Helem Hname.
      assert (Ha : a ∈ attributes ∧ ascii_lowercase a.1 = name).
      { apply last_Some_elem_of, list_elem_of_filter in Hlast. tauto. }
      destruct Ha as [Hin Ha].
      assert (Hkey : a.1 = name).
      { rewrite <- (Hcase a Hin); [done|]. rewrite Ha. exact Hname. }
      unfold secured, streq. rewrite Hkey.
      destruct (truthy a.2) eqn:Ht.
      * destruct Hname as [-> | ->]; cbn; apply sanitizeURL_safe.
      * rewrite !andb_false_r. left. by apply sanitizeText_falsy.
Qed.

End SecureElementProperties.

Lemma createSecureElement_safe_witness :
  ∃ el,
    createSecureElement scheme_parser (λ _, true) (js "a")
      [(js "href", VStr (js "javascript:alert(1)")); (js "title", VStr (js "<b>x</b>"))]
      (VStr (js "Safe Link")) = Normal el
    ∧ attributes_of el = [(js "href", []); (js "title", js "bx/b")]
    ∧ textContent el = js "Safe Link".
Proof.
  destruct (proj2 (createSecureElement_safe scheme_parser (λ _, true) (js "a")
                     [(js "href", VStr (js "javascript:alert(1)"));
                      (js "title", VStr (js "<b>x</b>"))]
                     (VStr (js "Safe Link"))) eq_refl) as (el & Hel & _ & _ & _ & _ & Htext & _).
  exists el. split; [exact Hel|]. split.
  - assert (E : Normal el = createSecureElement scheme_parser (λ _, true) (js "a")
                  [(js "href", VStr (js "javascript:alert(1)"));
                   (js "title", VStr (js "<b>x</b>"))] (VStr (js "Safe Link")))
      by by rewrite Hel.
    vm_compute in E. injection E as ->. by vm_compute.
  - rewrite Htext. by vm_compute.
Defined.

(** A key that spells [href] in another case is not taken for a URL:
    its value is sanitized as text, and the DOM stores it under
    [href]. *)
Example createSecureElement_upper_case_href :
  ∃ el,
    createSecureElement scheme_parser (λ _, true) (js "a")
      [(js "HREF", VStr (js "javajavascript:script:alert(1)"))] (VStr []) = Normal el
    ∧ attributes_of el = [(js "href", js "javascript:alert(1)")]
    ∧ ¬ safe_url scheme_parser (js "javascript:alert(1)").
Proof.
  eexists. split; [by vm_compute|]. split; [by vm_compute|].
  intros [H|(s & u & Hp & [Hu|Hu] & Hh)]; [done| |].
  - unfold scheme_parser in Hp. destruct s as [|c s]; [done|].
    destruct (is_alpha c); [|done]. destruct (scan_scheme (c :: s) []) eqn:Hs; [|done].
    injection Hp as <-. cbn [protocol href] in *. rewrite <- Hh in Hs.
    vm_compute in Hs. injection Hs as <-. by vm_compute in Hu.
  - unfold scheme_parser in Hp. destruct s as [|c s]; [done|].
    destruct (is_alpha c); [|done]. destruct (scan_scheme (c :: s) []) eqn:Hs; [|done].
    injection Hp as <-. cbn [protocol href] in *. rewrite <- Hh in Hs.
    vm_compute in Hs. injection Hs as <-. by vm_compute in Hu.
Qed.


(** ** From validation to display *)

Lemma well_formed_drawable parseURL p :
  well_formed parseURL p = true →
  has_languages p = true ∧ has_description p = true ∧ has_marker p = true.
Proof.
  unfold well_formed. intros [Hreq _]%andb_true_iff.
  unfold requiredFields in Hreq. cbn [forallb] in Hreq. rewrite !andb_true_iff in Hreq.
  destruct Hreq as (_ & Hlat & Hlng & _ & Hlangs & Hdesc & _).
  rewrite get_lat in Hlat. rewrite get_lng in Hlng.
  change (get p (js "languages"))
    with (match languages p with Some l => VArr l | None => VUndefined end) in Hlangs.
  change (get p (js "description"))
    with (match description p with Some d => VObj d | None => VUndefined end) in Hdesc.
  unfold has_languages, has_description, has_marker.
  destruct (languages p); [|done]. destruct (description p); [|done].
  destruct (lat p) as [la|]; [|done]. destruct (lng p) as [ln|]; [|done].
  cbn in Hlat, Hlng. by rewrite Hlat, Hlng.
Qed.

Lemma isValid_well_formed parseURL partners p :
  isValid (validatePartnerData parseURL partners) = true → p ∈ partners →
  well_formed parseURL p = true.
Proof.
  rewrite validate_isValid, bool_decide_eq_true, validate_errors_entries, concat_imap_nil.
  intros H [i Hi]%list_elem_of_lookup. apply (entry_errors_nil parseURL p i). by apply H.
Qed.

Section ValidThenDrawn.

Variable security : bool.
Variable parseURL : jsstring -> option URL.
Variable qrcode : option (option jsstring -> completion QRCode).
Variable getContext2d : bool.
Variable toDataURL : canvas -> completion jsstring.
Variable nativeText : jsstring -> jsstring.

(** X26. A dataset the validator accepts is always drawn: with the
    list element and the marker layer there, [updateDisplay] ends
    without an exception for every selection, and every filtered entry
    gets both its card and its marker, the validator having required
    its languages, its description and truthy coordinates. *)
Theorem valid_dataset_is_drawn (pg : page) (tag : jsstring)
    (props : list (jsstring * jsstring)) (old : list node) (layer : list marker) :
  organisationList pg = Some (Element tag props old) →
  markerLayer pg = Some layer →
  isValid (validatePartnerData parseURL (sanitizedPartners pg)) = true →
  ∃ projection cards markers,
    filteredPartners (sanitizedPartners pg) (selectedLanguage pg) (selectedCommunity pg)
    = Normal projection
    ∧ (updateDisplay security parseURL qrcode getContext2d toDataURL nativeText pg).2 = None
    ∧ organisationList
        (updateDisplay security parseURL qrcode getContext2d toDataURL nativeText pg).1
      = Some (Element tag props
                (if bool_decide (projection = [])
                 then [no_results_item (currentTranslations_for (selectedLanguage pg))]
                 else cards))
    ∧ markerLayer
        (updateDisplay security parseURL qrcode getContext2d toDataURL nativeText pg).1
      = Some markers
    ∧ Forall2 (is_card security parseURL qrcode getContext2d toDataURL nativeText
                 (selectedLanguage pg))
        projection cards
    ∧ Forall2 (is_marker security parseURL qrcode getContext2d toDataURL nativeText
                 (selectedLanguage pg))
        projection markers.
Proof.
  intros Hlist Hlayer Hvalid.
  assert (Hall : ∀ p, p ∈ sanitizedPartners pg →
            has_languages p = true ∧ has_description p = true ∧ has_marker p = true).
  { intros p Hp. apply (well_formed_drawable parseURL).
    by apply (isValid_well_formed parseURL (sanitizedPartners pg)). }
  assert (Hl : forallb has_languages (sanitizedPartners pg) = true).
  { apply forallb_forall. intros p Hp%list_elem_of_In. by apply Hall. }
  pose proof (filteredPartners_filter _ (selectedLanguage pg) (selectedCommunity pg) Hl)
    as Hf.
  set (projection := filter _ _) in Hf.
  assert (Hsub : ∀ p, p ∈ projection → p ∈ sanitizedPartners pg).
  { intros p Hp. by apply list_elem_of_filter in Hp as [_ Hp]. }
  assert (Hdp : forallb has_description projection = true).
  { apply forallb_forall. intros p Hp%list_elem_of_In. by apply Hall, Hsub. }
  assert (Hmp : filter (λ p, has_marker p = true) projection = projection).
  { clear Hf. induction projection as [|p ps IH]; [done|].
    rewrite filter_cons, decide_True.
    - rewrite IH; [done| |].
      + intros q Hq. apply Hsub. by right.
      + cbn [forallb] in Hdp. by apply andb_true_iff in Hdp as [_ Hdp].
    - apply Hall, Hsub. by left. }
  destruct (render_all_described security parseURL qrcode getContext2d toDataURL nativeText
              (selectedLanguage pg) projection tag props [] [] Hdp)
    as (cards & markers & Hdraw & Hcards & Hmarks).
  rewrite Hmp in Hmarks.
  exists projection, cards, markers. split; [exact Hf|].
  unfold updateDisplay. rewrite Hlist, Hlayer, Hf. cbn [clear_children].
  destruct projection as [|p ps] eqn:E.
  - rewrite !bool_decide_eq_true_2 by done. inversion Hmarks. inversion Hcards.
    cbn [fst snd appendChild app organisationList markerLayer].
    split; [done|]. split; [done|]. split; [done|]. split; constructor.
  - rewrite !bool_decide_eq_false_2 by done. rewrite Hdraw.
    cbn [fst snd organisationList markerLayer app].
    split; [done|]. split; [done|]. split; [done|]. split; [exact Hcards|exact Hmarks].
Qed.

End ValidThenDrawn.

Lemma valid_dataset_is_drawn_witness :
  ∃ projection cards markers,
    filteredPartners partners (js "English") (js "Arts") = Normal projection
    ∧ Forall2 (is_card true scheme_parser (Some checker_qr) true png_stub native_code
                 (js "English"))
        projection cards
    ∧ Forall2 (is_marker true scheme_parser (Some checker_qr) true png_stub native_code
                 (js "English"))
        projection markers
    ∧ length cards = 2%nat ∧ length markers = 2%nat.
Proof.
  destruct (valid_dataset_is_drawn true scheme_parser (Some checker_qr) true png_stub
              native_code
              (Page (js "English") (js "Arts") partners (Some (createElement "ul")) None
                 (Some []))
              (js "ul") [] [] [] eq_refl eq_refl)
    as (projection & cards & markers & Hf & _ & _ & _ & Hcards & Hmarks).
  { by vm_compute. }
  exists projection, cards, markers. split; [exact Hf|]. split; [exact Hcards|].
  split; [exact Hmarks|].
  assert (Hlen : length projection = 2%nat).
  { assert (E : Normal projection
                = filteredPartners partners (js "English") (js "Arts")) by by rewrite <- Hf.
    cbn [sanitizedPartners selectedLanguage selectedCommunity] in E.
    vm_compute in E. injection E as ->. done. }
  split.
  - by rewrite <- (Forall2_length _ _ _ Hcards).
  - by rewrite <- (Forall2_length _ _ _ Hmarks).
Defined.

(** ** Sanitized entries on the page *)

Lemma email_shape_at s : email_shape s → chr "@" ∈ s.
Proof. intros (a & b & c & -> & _). apply elem_of_app. right. by left. Qed.

Lemma email_shape_shown p s : email p = Some s → email_shape s → has_email p = true.
Proof.
  intros Hp Hs. unfold has_email, str_truthy. rewrite Hp.
  pose proof (email_shape_at s Hs) as Hat.
  destruct s as [|c s]; [by apply elem_of_nil in Hat|]. cbn [str_value truthy andb].
  apply negb_true_iff, bool_decide_eq_false. intros E.
  assert (E' : c :: s = js "N/A") by congruence. rewrite E' in Hat.
  vm_compute in Hat. repeat (apply elem_of_cons in Hat as [Hat|Hat]; [done|]).
  by apply elem_of_nil in Hat.
Qed.

Section SanitizedOnPage.

Variable security : bool.
Variable parseURL : jsstring -> option URL.
Variable qrcode : option (option jsstring -> completion QRCode).
Variable getContext2d : bool.
Variable toDataURL : canvas -> completion jsstring.

Local Abbreviation card_of_entry :=
  (list_card security parseURL qrcode getContext2d toDataURL).


End SanitizedOnPage.


Lemma sanitizeURL_again parseURL v :
  parseURL [] = None →
  (∀ s u, parseURL s = Some u → parseURL (href u) = Some u) →
  sanitizeURL parseURL (VStr (sanitizeURL parseURL v)) = sanitizeURL parseURL v.
Proof.
  intros Hempty Hstable.
  destruct (sanitizeURL_cases parseURL v) as [->|(s & u & _ & Hp & Hh & ->)].
  - unfold sanitizeURL. by rewrite Hempty.
  - unfold sanitizeURL. rewrite (Hstable s u Hp).
    apply allowed_protocol in Hh. by rewrite Hh.
Qed.

Section SanitizedWebsite.

Variable parseURL : jsstring -> option URL.
Variable qrcode : option (option jsstring -> completion QRCode).
Variable getContext2d : bool.
Variable toDataURL : canvas -> completion jsstring.

(** X28. A sanitized website needs no second sanitizing.  When the URL
    parser rejects the empty string and parses its own serialisations
    back, [sanitizeURL] changes nothing in its own output, and for a
    website that went through it [generateQrCode] returns the same
    element with the sanitizer installed as without it. *)
Theorem sanitized_website_encoded (url : value) :
  parseURL [] = None →
  (∀ s u, parseURL s = Some u → parseURL (href u) = Some u) →
  sanitizeURL parseURL (VStr (sanitizeURL parseURL url)) = sanitizeURL parseURL url
  ∧ generateQrCode true parseURL qrcode getContext2d toDataURL
      (Some (sanitizeURL parseURL url))
    = generateQrCode false parseURL qrcode getContext2d toDataURL
        (Some (sanitizeURL parseURL url)).
Proof.
  intros Hempty Hstable.
  pose proof (sanitizeURL_again parseURL url Hempty Hstable) as Hagain.
  split; [exact Hagain|].
  unfold generateQrCode, generateQrCode_try. cbn [str_value show]. rewrite Hagain.
  destruct (sanitizeURL_cases parseURL url) as [->|(s & u & _ & Hp & Hh & ->)].
  - rewrite Hempty. done.
  - rewrite (Hstable s u Hp).
    destruct (href u) as [|c w] eqn:E; [|done].
    rewrite <- E, (Hstable s u Hp) in Hempty. done.
Qed.

End SanitizedWebsite.

Lemma sanitized_website_encoded_witness :
  sanitizeURL scheme_parser (VStr (js "https://example.org")) = js "https://example.org"
  ∧ generateQrCode true scheme_parser (Some checker_qr) true png_stub
      (Some (js "https://example.org"))
    = generateQrCode false scheme_parser (Some checker_qr) true png_stub
        (Some (js "https://example.org")).
Proof.
  assert (Hstable : ∀ s u, scheme_parser s = Some u → scheme_parser (href u) = Some u).
  { intros s u Hp. unfold scheme_parser in Hp.
    destruct s as [|c s]; [done|]. destruct (is_alpha c) eqn:Hc; [|done].
    destruct (scan_scheme (c :: s) []) eqn:Hs; [|done]. injection Hp as <-.
    cbn [href]. unfold scheme_parser. by rewrite Hc, Hs. }
  destruct (sanitized_website_encoded scheme_parser (Some checker_qr) true png_stub
              (VStr (js "https://example.org")) eq_refl Hstable) as [_ Hqr].
  split; [by vm_compute|].
  assert (E : sanitizeURL scheme_parser (VStr (js "https://example.org"))
              = js "https://example.org") by by vm_compute.
  rewrite E in Hqr. exact Hqr.
Defined.
